(** * udpmonitor: message store, UDP echo listener and retention scheduler

    A shallow embedding of [src/udpmonitor/storage.py],
    [src/udpmonitor/udp_listener.py] and the cleanup worker of [main.py],
    followed by the properties of the specification stated over it.

    Conventions of the embedding.
    - [bytes] is Python's [bytes]; [str] is a Python [str], the sequence of
      its Unicode code points.
    - A naive [datetime] is its number of microseconds since
      0001-01-01T00:00:00; a [timedelta] is a number of microseconds.  The
      [timestamp] column holds the [isoformat()] text of a datetime; the
      engine's byte-wise comparison of two such texts is the comparison of
      the instants ([text_of_order]), so that the column is kept as the
      instant, and the statements on it are stated on instants; they are
      the statements on the stored texts ([count_older_on_text],
      [delete_older_on_text], [order_by_timestamp_desc_on_text]).
    - The clock ([datetime.utcnow()], [datetime.now()]), the outcome of the
      persistence layer and of the socket calls are inputs of the
      operations that read them.
    - The SQLite engine is modelled for the statements the program issues:
      a table in rowid order together with the [sqlite_sequence] counter of
      an AUTOINCREMENT key. *)

From Stdlib Require Import ZArith List Lia Bool Sorted Permutation.
From Stdlib.Strings Require Import String Ascii Byte.
Import ListNotations.
Local Open Scope Z_scope.

Set Implicit Arguments.

(** ** Python values *)

Definition bytes := list byte.
Definition str := list Z.

Definition byte_val (b : byte) : Z := Z.of_N (Byte.to_N b).

Definition byte_of_Z (z : Z) : byte :=
  match Byte.of_N (Z.to_N z) with
  | Some b => b
  | None => x00
  end.

(** [len(x)] *)
Definition len {A : Type} (l : list A) : Z := Z.of_nat (List.length l).

(** A bytes literal [b"..."] and a text literal ["..."]. *)
Definition b_ (s : string) : bytes := list_byte_of_string s.
Definition s_ (s : string) : str := map byte_val (list_byte_of_string s).

Fixpoint str_eqb (a b : str) : bool :=
  match a, b with
  | [], [] => true
  | x :: a', y :: b' => (x =? y) && str_eqb a' b'
  | _, _ => false
  end.

(** [x[:n]] for a non-negative [n]. *)
Definition slice_to {A : Type} (n : Z) (l : list A) : list A :=
  firstn (Z.to_nat n) l.

Inductive exn : Type :=
| OperationalError      (* sqlite3: the engine rejected or could not run a statement *)
| OverflowError         (* a datetime or an integer left the representable range *)
| UnicodeEncodeError    (* a text that has no UTF-8 encoding *)
| OSError.              (* socket.error *)

Inductive result (A : Type) : Type :=
| Ok (a : A)
| Raise (e : exn).
Arguments Ok {A} a.
Arguments Raise {A} e.

Definition bind {A B : Type} (r : result A) (k : A -> result B) : result B :=
  match r with
  | Ok a => k a
  | Raise e => Raise e
  end.

Notation "x <- r ;; k" := (bind r (fun x => k))
  (at level 61, r at next level, right associativity).

(** ** The UTF-8 codec behind [bytes.decode('utf-8')]

    The strict decoder of the interpreter: shortest forms only, no
    surrogates, nothing above U+10FFFF; any other byte sequence raises
    [UnicodeDecodeError], which is [None] here. *)
Module Utf8.

Definition is_cont (b : Z) : bool := (128 <=? b) && (b <=? 191).

Definition is_scalar (c : Z) : bool :=
  ((0 <=? c) && (c <? 55296)) || ((57344 <=? c) && (c <=? 1114111)).

Fixpoint decode_vals (bs : list Z) : option str :=
  match bs with
  | [] => Some []
  | b0 :: t0 =>
    if b0 <? 128 then option_map (cons b0) (decode_vals t0)
    else if (194 <=? b0) && (b0 <=? 223) then
      match t0 with
      | b1 :: t1 =>
        if is_cont b1
        then option_map (cons ((b0 - 192) * 64 + (b1 - 128))) (decode_vals t1)
        else None
      | _ => None
      end
    else if (224 <=? b0) && (b0 <=? 239) then
      match t0 with
      | b1 :: b2 :: t2 =>
        if is_cont b1 && is_cont b2
           && (negb (b0 =? 224) || (160 <=? b1))
           && (negb (b0 =? 237) || (b1 <=? 159))
        then option_map
               (cons ((b0 - 224) * 4096 + (b1 - 128) * 64 + (b2 - 128)))
               (decode_vals t2)
        else None
      | _ => None
      end
    else if (240 <=? b0) && (b0 <=? 244) then
      match t0 with
      | b1 :: b2 :: b3 :: t3 =>
        if is_cont b1 && is_cont b2 && is_cont b3
           && (negb (b0 =? 240) || (144 <=? b1))
           && (negb (b0 =? 244) || (b1 <=? 143))
        then option_map
               (cons ((b0 - 240) * 262144 + (b1 - 128) * 4096
                      + (b2 - 128) * 64 + (b3 - 128)))
               (decode_vals t3)
        else None
      | _ => None
      end
    else None
  end.

Definition decode (data : bytes) : option str :=
  decode_vals (map byte_val data).

(** [str.encode('utf-8')] of one code point, as byte values. *)
Definition encode_point (c : Z) : list Z :=
  if c <? 128 then [c]
  else if c <? 2048 then [192 + c / 64; 128 + c mod 64]
  else if c <? 65536 then
    [224 + c / 4096; 128 + (c / 64) mod 64; 128 + c mod 64]
  else
    [240 + c / 262144; 128 + (c / 4096) mod 64;
     128 + (c / 64) mod 64; 128 + c mod 64].

Definition encode_vals (s : str) : list Z := flat_map encode_point s.

Definition encode (s : str) : option bytes :=
  if forallb is_scalar s then Some (map byte_of_Z (encode_vals s)) else None.

End Utf8.

(** ** Naive datetimes *)

Definition datetime := Z.
Definition timedelta := Z.

(** 9999-12-31T23:59:59.999999, the last representable instant. *)
Definition datetime_max : datetime := 315537897599999999.

Definition one_day : timedelta := 86400000000.

(** [t - d]: the result must be a representable datetime. *)
Definition datetime_sub (t : datetime) (d : timedelta) : result datetime :=
  let r := t - d in
  if (0 <=? r) && (r <=? datetime_max) then Ok r else Raise OverflowError.

(** [t + d] *)
Definition datetime_add (t : datetime) (d : timedelta) : result datetime :=
  let r := t + d in
  if (0 <=? r) && (r <=? datetime_max) then Ok r else Raise OverflowError.

(** ** The table [messages] and the statements run against it

    A statement is kept as the sequence of its clauses, each placeholder
    [?] together with the parameter bound to it: the program appends to the
    query text and to [params] in step. *)
Module Sqlite.

Record row : Type := mkRow {
  id : Z;                      (* INTEGER PRIMARY KEY AUTOINCREMENT *)
  timestamp : datetime;        (* TEXT NOT NULL *)
  client_ip : str;             (* TEXT NOT NULL *)
  client_port : Z;             (* INTEGER NOT NULL *)
  data : bytes;                (* BLOB NOT NULL *)
  data_text : option str;      (* TEXT *)
  data_size : Z                (* INTEGER NOT NULL *)
}.

(** The rows in rowid order, and the largest rowid ever handed out, which
    AUTOINCREMENT keeps in [sqlite_sequence] and no DELETE resets. *)
Record database : Type := mkDb {
  messages : list row;
  sqlite_sequence : Z
}.

Definition empty : database := mkDb [] 0.

Definition largest_rowid : Z := 9223372036854775807.

Fixpoint max_rowid (t : list row) : Z :=
  match t with
  | [] => 0
  | r :: t' => Z.max (id r) (max_rowid t')
  end.

(** [sqlite3.connect] and the commit: [ok] tells whether the database
    file can be opened and written. *)
Definition connect (ok : bool) : result unit :=
  if ok then Ok tt else Raise OperationalError.

(** INSERT INTO messages (timestamp, ..., data_size) VALUES (?, ..., ?):
    the new rowid is one more than the largest that ever existed; when
    that one is the largest integer the insert fails (SQLITE_FULL). *)
Definition insert (ts : datetime) (ip : str) (port : Z) (d : bytes)
           (text : option str) (size : Z) (db : database)
  : result (Z * database) :=
  let largest := Z.max (sqlite_sequence db) (max_rowid (messages db)) in
  if largest <? largest_rowid then
    let lastrowid := largest + 1 in
    Ok (lastrowid,
        mkDb (messages db ++ [mkRow lastrowid ts ip port d text size])
             lastrowid)
  else Raise OperationalError.

Inductive condition : Type :=
| client_ip_eq (ip : str)          (* "client_ip = ?" *)
| client_port_eq (port : Z).       (* "client_port = ?" *)

Inductive clause : Type :=
| WHERE (conds : list condition)   (* " WHERE " + " AND ".join(conds) *)
| ORDER_BY_timestamp_DESC
| LIMIT (n : Z)
| OFFSET (n : Z).

Definition holds (c : condition) (r : row) : bool :=
  match c with
  | client_ip_eq ip => str_eqb (client_ip r) ip
  | client_port_eq port => client_port r =? port
  end.

Definition holds_all (cs : list condition) (r : row) : bool :=
  forallb (fun c => holds c r) cs.

(** Most recent first. *)
Definition newest_first (x y : row) : Prop := timestamp y <= timestamp x.

(** ORDER BY timestamp DESC leaves open in which order rows of equal
    timestamp come: the index the engine scans and the way its sorter runs
    decide it, and both can change with the statement.  An [engine] is
    that choice: for a statement and the rows that match it, in rowid
    order, the rows in the order in which they are returned, ahead of the
    window of LIMIT and OFFSET. *)
Definition engine : Type := list clause -> list row -> list row.

(** What ORDER BY timestamp DESC asks of the engine. *)
Definition orders_by_timestamp (E : engine) : Prop :=
  forall (q : list clause) (l : list row),
    Permutation l (E q l) /\ StronglySorted newest_first (E q l).

(** One such order: rows with equal keys in rowid order. *)
Fixpoint insert_desc (r : row) (l : list row) : list row :=
  match l with
  | [] => [r]
  | x :: l' =>
    if timestamp r <? timestamp x then x :: insert_desc r l'
    else r :: x :: l'
  end.

Definition order_by_timestamp_desc (l : list row) : list row :=
  fold_right insert_desc [] l.

Definition by_rowid : engine := fun _ l => order_by_timestamp_desc l.

(** LIMIT n OFFSET k: a negative k counts as 0, a negative n as no limit. *)
Definition limit_offset (n k : Z) (l : list row) : list row :=
  let l' := skipn (Z.to_nat k) l in
  if n <? 0 then l' else firstn (Z.to_nat n) l'.

(** The grammar of the SELECT statements the program can build:
    an optional WHERE with at least one condition, the ORDER BY, then
    nothing, LIMIT, or LIMIT followed by OFFSET.  An OFFSET that does not
    follow a LIMIT is a syntax error. *)
Definition parse (q : list clause)
  : option (list condition * option (Z * Z)) :=
  let '(conds, rest) :=
    match q with
    | WHERE cs :: rest => (Some cs, rest)
    | _ => (None, q)
    end in
  match conds with
  | Some [] => None
  | _ =>
    let cs := match conds with Some cs => cs | None => [] end in
    match rest with
    | [ORDER_BY_timestamp_DESC] => Some (cs, None)
    | [ORDER_BY_timestamp_DESC; LIMIT n] => Some (cs, Some (n, 0))
    | [ORDER_BY_timestamp_DESC; LIMIT n; OFFSET k] => Some (cs, Some (n, k))
    | _ => None
    end
  end.

(** An INTEGER of the engine has 64 bits. *)
Definition int64 (n : Z) : bool :=
  (- 9223372036854775808 <=? n) && (n <=? 9223372036854775807).

(** Binding a parameter: an [int] that does not fit 64 bits raises
    [OverflowError], a [str] that cannot be encoded (a lone surrogate)
    raises [UnicodeEncodeError]. *)
Definition bind_int (n : Z) : result unit :=
  if int64 n then Ok tt else Raise OverflowError.

Definition bind_text (s : str) : result unit :=
  if forallb Utf8.is_scalar s then Ok tt else Raise UnicodeEncodeError.

Definition bind_condition (c : condition) : result unit :=
  match c with
  | client_ip_eq ip => bind_text ip
  | client_port_eq port => bind_int port
  end.

Fixpoint bind_conditions (cs : list condition) : result unit :=
  match cs with
  | [] => Ok tt
  | c :: cs' => _ <- bind_condition c ;; bind_conditions cs'
  end.

Definition bind_clause (c : clause) : result unit :=
  match c with
  | WHERE conds => bind_conditions conds
  | ORDER_BY_timestamp_DESC => Ok tt
  | LIMIT n => bind_int n
  | OFFSET n => bind_int n
  end.

(** The parameters of a statement, bound in their order. *)
Fixpoint bind_parameters (q : list clause) : result unit :=
  match q with
  | [] => Ok tt
  | c :: q' => _ <- bind_clause c ;; bind_parameters q'
  end.

(** [cursor.execute(query, params)] followed by [fetchall()]: the
    statement is compiled, then its parameters are bound, then it runs. *)
Definition select (E : engine) (q : list clause) (db : database)
  : result (list row) :=
  match parse q with
  | None => Raise OperationalError
  | Some (cs, window) =>
    _ <- bind_parameters q ;;
    let sorted := E q (filter (holds_all cs) (messages db)) in
    Ok match window with
       | None => sorted
       | Some (n, k) => limit_offset n k sorted
       end
  end.

(** SELECT COUNT( * ) FROM messages *)
Definition count_all (db : database) : Z := len (messages db).

(** SELECT COUNT( * ) FROM messages WHERE timestamp < ? *)
Definition count_older (cutoff : datetime) (db : database) : Z :=
  len (filter (fun r => timestamp r <? cutoff) (messages db)).

(** DELETE FROM messages WHERE timestamp < ? *)
Definition delete_older (cutoff : datetime) (db : database) : database :=
  mkDb (filter (fun r => negb (timestamp r <? cutoff)) (messages db))
       (sqlite_sequence db).

(** DELETE FROM messages *)
Definition delete_all (db : database) : database :=
  mkDb [] (sqlite_sequence db).

End Sqlite.

(** ** [storage.py]: class MessageStorage

    Every method body past the computation of its arguments runs under
    [self.lock] on a connection of its own, so that a call is one
    transition of the database; [disk] is the outcome of that connection. *)
Module MessageStorage.
Import Sqlite.

(** CREATE TABLE IF NOT EXISTS: an existing table is kept. *)
Definition _init_db (disk : bool) (file : option database)
  : result database :=
  _ <- connect disk ;;
  Ok match file with
     | Some db => db
     | None => empty
     end.

Definition store_message (disk : bool) (utcnow : datetime)
           (client_ip : str) (client_port : Z) (data : bytes)
           (db : database) : result (Z * database) :=
  let timestamp := utcnow in
  let data_size := len data in
  let data_text := Utf8.decode data in
  _ <- connect disk ;;
  insert timestamp client_ip client_port data data_text data_size db.

(** Truth value of an optional argument: [None], [0] and [''] are false. *)
Definition truthy_int (x : option Z) : bool :=
  match x with
  | Some n => negb (n =? 0)
  | None => false
  end.

Definition truthy_str (x : option str) : bool :=
  match x with
  | Some (_ :: _) => true
  | _ => false
  end.

Definition get_int (x : option Z) : Z :=
  match x with Some n => n | None => 0 end.

Definition get_str (x : option str) : str :=
  match x with Some s => s | None => [] end.

(** The dictionaries handed to the caller. *)
Record message : Type := mkMessage {
  m_id : Z;
  m_timestamp : datetime;
  m_client_ip : str;
  m_client_port : Z;
  m_data : str;
  m_data_size : Z
}.

Definition hex_digit (n : Z) : Z := if n <? 10 then 48 + n else 87 + n.

(** [bytes.hex()] *)
Definition hex (d : bytes) : str :=
  flat_map (fun b => [hex_digit (byte_val b / 16);
                      hex_digit (byte_val b mod 16)]) d.

Definition to_message (r : row) : message :=
  let data_repr :=
    match data_text r with
    | Some (c :: s) => c :: s
    | _ => hex (data r)
    end in
  mkMessage (id r) (timestamp r) (Sqlite.client_ip r) (Sqlite.client_port r)
            data_repr (data_size r).

Definition build_query (limit offset : option Z) (client_ip : option str)
           (client_port : option Z) : list clause :=
  let conditions :=
    (if truthy_str client_ip then [client_ip_eq (get_str client_ip)] else [])
    ++ (if truthy_int client_port
        then [client_port_eq (get_int client_port)] else []) in
  (match conditions with
   | [] => []
   | _ :: _ => [WHERE conditions]
   end)
  ++ [ORDER_BY_timestamp_DESC]
  ++ (if truthy_int limit then [LIMIT (get_int limit)] else [])
  ++ (if truthy_int offset then [OFFSET (get_int offset)] else []).

Definition get_messages (E : engine) (disk : bool) (limit offset : option Z)
           (client_ip : option str) (client_port : option Z)
           (db : database) : result (list message) :=
  let query := build_query limit offset client_ip client_port in
  _ <- connect disk ;;
  rows <- select E query db ;;
  Ok (map to_message rows).

Definition get_message_count (disk : bool) (db : database) : result Z :=
  _ <- connect disk ;;
  Ok (count_all db).

Definition clear_messages (disk : bool) (db : database) : result database :=
  _ <- connect disk ;;
  Ok (delete_all db).

(** [delta] is [timedelta(days=days)]. *)
Definition delete_old_messages (disk : bool) (utcnow : datetime)
           (delta : timedelta) (db : database) : result (Z * database) :=
  cutoff_time <- datetime_sub utcnow delta ;;
  _ <- connect disk ;;
  let count := count_older cutoff_time db in
  Ok (count, delete_older cutoff_time db).

End MessageStorage.

(** ** [udp_listener.py]: class UDPListener *)
Module UDPListener.
Import Sqlite.

Definition address : Type := (str * Z)%type.

Inductive preview : Type :=
| preview_text (s : str)           (* the decoded payload, cut at 50 *)
| preview_binary (size : Z).       (* "<binary: N bytes>" *)

(** The lines the listener prints. *)
Inductive line : Type :=
| listening
| received (message_id : Z) (peer : address) (p : preview)
| echoed (message_id : Z)
| socket_error                     (* "Socket error: ..." *)
| processing_error (e : exn)       (* "Error processing message: ..." *)
| listener_error                   (* "UDP Listener error: ..." *)
| stopped.

Inductive socket : Type := sock_open | sock_closed.

Record listener : Type := mkListener {
  storage : database;
  sock : option socket;
  running : bool;
  sent : list (bytes * address);   (* datagrams handed to the network *)
  stdout : list line
}.

(** Where the thread of [_run] stands: between any two of its statements
    another thread can run. *)
Inductive pc : Type :=
| binding                          (* before the socket is bound *)
| loop_head                        (* about to test [while self.running] *)
| receiving                        (* blocked in [recvfrom] *)
| storing (data : bytes) (addr : address)
                                   (* [recvfrom] has returned *)
| sending (message_id : Z) (data : bytes) (addr : address)
                                   (* [store_message] has returned *)
| logging (message_id : Z) (data : bytes) (addr : address)
                                   (* [sendto] has returned *)
| logging_echo (message_id : Z)    (* the first line is printed *)
| finished.

(** What the outside world supplies to one pass of the loop. *)
Inductive arrival : Type :=
| datagram (payload : bytes) (peer : address)
| recv_fault.

Record env : Type := mkEnv {
  incoming : arrival;
  utcnow : datetime;
  disk : bool;                     (* the store can be written *)
  network : bool                   (* the reply can be sent *)
}.

Definition set_storage (db : database) (l : listener) : listener :=
  mkListener db (sock l) (running l) (sent l) (stdout l).
Definition set_sock (s : option socket) (l : listener) : listener :=
  mkListener (storage l) s (running l) (sent l) (stdout l).
Definition set_running (b : bool) (l : listener) : listener :=
  mkListener (storage l) (sock l) b (sent l) (stdout l).
Definition emit (d : bytes * address) (l : listener) : listener :=
  mkListener (storage l) (sock l) (running l) (sent l ++ [d]) (stdout l).
Definition print (x : line) (l : listener) : listener :=
  mkListener (storage l) (sock l) (running l) (sent l) (stdout l ++ [x]).

(** [sock.close()] when there is a socket. *)
Definition close (l : listener) : listener :=
  match sock l with
  | Some _ => set_sock (Some sock_closed) l
  | None => l
  end.

(** [sock.recvfrom(bufsize)]: a call on a closed socket fails; a datagram
    longer than the buffer is cut to it, the excess being discarded. *)
Definition recvfrom (bufsize : Z) (s : option socket) (a : arrival)
  : result (bytes * address) :=
  match s with
  | Some sock_open =>
    match a with
    | datagram payload peer => Ok (slice_to bufsize payload, peer)
    | recv_fault => Raise OSError
    end
  | _ => Raise OSError
  end.

(** [sock.sendto(data, addr)] *)
Definition sendto (s : option socket) (net : bool) : result unit :=
  match s with
  | Some sock_open => if net then Ok tt else Raise OSError
  | _ => Raise OSError
  end.

Definition echo_prefix : bytes := b_ "ECHO:".

Definition data_preview (data : bytes) : preview :=
  match Utf8.decode data with
  | Some text =>
    let p := slice_to 50 text in
    preview_text (if 50 <? len data then p ++ s_ "..." else p)
  | None => preview_binary (len data)
  end.

(** [start()], up to the creation of the thread. *)
Definition start (l : listener) : listener * bool :=
  if running l then (l, false) else (set_running true l, true).

(** [stop()] up to its join: the flag is cleared and the socket closed. *)
Definition stop_close (l : listener) : listener :=
  close (set_running false l).

(** [stop()] from its join on: the join returns when the thread has ended
    or after 2 seconds; the line is printed then. *)
Definition stop_return (l : listener) : listener := print stopped l.

(** [stop()] when the join has nothing to wait for. *)
Definition stop (l : listener) : listener := stop_return (stop_close l).

(** The [finally] clause of [_run]. *)
Definition finally (l : listener) : listener := close l.

(** [except socket.error]: report only while running, then leave the loop. *)
Definition on_socket_error (l : listener) : listener * pc :=
  (finally (if running l then print socket_error l else l), finished).

(** [except Exception]: report and go on with the loop. *)
Definition on_exception (e : exn) (l : listener) : listener * pc :=
  (print (processing_error e) l, loop_head).

Definition handle (e : exn) (l : listener) : listener * pc :=
  match e with
  | OSError => on_socket_error l
  | _ => on_exception e l
  end.

(** One pass of the body of [while self.running] that no other thread
    interrupts, from the call of [recvfrom] on. *)
Definition receive_one (e : env) (l : listener) : listener * pc :=
  match recvfrom 4096 (sock l) (incoming e) with
  | Raise x => handle x l
  | Ok (data, addr) =>
    let '(client_ip, client_port) := addr in
    match MessageStorage.store_message (disk e) (utcnow e)
                                       client_ip client_port data
                                       (storage l) with
    | Raise x => handle x l
    | Ok (message_id, db) =>
      let l1 := set_storage db l in
      let echo_response := echo_prefix ++ data in
      match sendto (sock l1) (network e) with
      | Raise x => handle x l1
      | Ok _ =>
        let l2 := emit (echo_response, addr) l1 in
        (print (echoed message_id)
               (print (received message_id addr (data_preview data)) l2),
         loop_head)
      end
    end
  end.

(** One step of the thread running [_run].  The call of [recvfrom] is
    made at the head of the loop: on a socket that is not open it fails at
    once, on the open socket the thread blocks.  A receive that is pending
    is not ended by the close of the socket in another thread: it returns
    when the environment has it return, with the datagram that arrived or
    with a failure (where the platform wakes it at the close, that is the
    failure). *)
Definition step (bind_ok : bool) (e : env) (st : listener * pc)
  : listener * pc :=
  let '(l, at_) := st in
  match at_ with
  | binding =>
    let l1 := set_sock (Some sock_open) l in
    if bind_ok then (print listening l1, loop_head)
    else (finally (print listener_error l1), finished)
  | loop_head =>
    if running l then
      match sock l with
      | Some sock_open => (l, receiving)
      | _ => handle OSError l
      end
    else (finally l, finished)
  | receiving =>
    match incoming e with
    | datagram payload peer => (l, storing (slice_to 4096 payload) peer)
    | recv_fault => handle OSError l
    end
  | storing data addr =>
    let '(client_ip, client_port) := addr in
    match MessageStorage.store_message (disk e) (utcnow e)
                                       client_ip client_port data
                                       (storage l) with
    | Raise x => handle x l
    | Ok (message_id, db) => (set_storage db l, sending message_id data addr)
    end
  | sending message_id data addr =>
    let echo_response := echo_prefix ++ data in
    match sendto (sock l) (network e) with
    | Raise x => handle x l
    | Ok _ => (emit (echo_response, addr) l, logging message_id data addr)
    end
  | logging message_id data addr =>
    (print (received message_id addr (data_preview data)) l,
     logging_echo message_id)
  | logging_echo message_id => (print (echoed message_id) l, loop_head)
  | finished => (l, finished)
  end.

(** The thread takes a step, or the owner of the listener is in [stop()]:
    at its first statements, or at the return of its join. *)
Inductive event : Type :=
| thread_step (e : env)
| call_stop
| stop_returns.

Definition react (ev : event) (st : listener * pc) : listener * pc :=
  match ev with
  | thread_step e => step true e st
  | call_stop => (stop_close (fst st), snd st)
  | stop_returns => (stop_return (fst st), snd st)
  end.

Definition run (evs : list event) (st : listener * pc) : listener * pc :=
  fold_left (fun s ev => react ev s) evs st.

End UDPListener.

(** ** [main.py]: the cleanup worker of class UDPMonitor

    [now] is the local clock read at the top of a pass, [utcnow] the clock
    read by the purge. *)
Module UDPMonitor.
Import Sqlite.

Inductive line : Type :=
| deleted (count : Z)              (* "[Cleanup] Deleted N messages ..." *)
| nothing_to_delete                (* "[Cleanup] No messages older ..." *)
| cleanup_error (e : exn).         (* "[Cleanup] Error during cleanup" *)

Inductive action : Type :=
| sleep (d : timedelta)            (* time.sleep *)
| print (x : line).

(** [t.replace(hour=0, minute=0, second=0, microsecond=0)] *)
Definition at_midnight (t : datetime) : datetime := t - t mod one_day.

Definition next_midnight (now : datetime) : result datetime :=
  let today_midnight := at_midnight now in
  if today_midnight <=? now then
    t <- datetime_add now one_day ;;
    Ok (at_midnight t)
  else Ok today_midnight.

Definition retry_delay : timedelta := 3600 * 1000000.

Record outcome : Type := mkOutcome {
  actions : list action;
  store : database;
  continue : bool                  (* false: the loop was left by [break] *)
}.

Definition on_error (e : exn) (before : list action) (db : database)
  : outcome :=
  mkOutcome (before ++ [print (cleanup_error e); sleep retry_delay]) db true.

(** One pass of the body of [while self.running] in [_cleanup_worker];
    [running_after] is [self.running] as the pass reads it once its sleep
    has returned: the sleep is [time.sleep], which nothing cuts short. *)
Definition cleanup_pass (now : datetime) (running_after : bool)
           (disk : bool) (utcnow : datetime) (retention : timedelta)
           (db : database) : outcome :=
  match next_midnight now with
  | Raise e => on_error e [] db
  | Ok next =>
    let sleep_seconds := next - now in
    let slept := if 0 <? sleep_seconds then [sleep sleep_seconds] else [] in
    if negb running_after then mkOutcome slept db false
    else
      match MessageStorage.delete_old_messages disk utcnow retention db with
      | Raise e => on_error e slept db
      | Ok (deleted_count, db') =>
        mkOutcome
          (slept ++ [print (if 0 <? deleted_count
                            then deleted deleted_count
                            else nothing_to_delete)])
          db' true
      end
  end.

(** *** Shutdown

    A thread as [stop()] and the exit of the interpreter see it: whether
    it was created with [daemon=True], and how long it still runs, [None]
    for a thread that does not end. *)
Record Thread : Type := mkThread {
  daemon : bool;
  ends_in : option timedelta
}.

(** [thread.join(timeout)]: the time the caller waits. *)
Definition join (timeout : timedelta) (t : Thread) : timedelta :=
  match ends_in t with
  | Some d => Z.min d timeout
  | None => timeout
  end.

(** [self.thread.join(timeout=2)] in [UDPListener.stop]. *)
Definition join_timeout : timedelta := 2 * 1000000.

(** The exit of the interpreter waits for the threads that are not
    daemons; [None]: for ever. *)
Fixpoint exit_wait (ts : list Thread) : option timedelta :=
  match ts with
  | [] => Some 0
  | t :: ts' =>
    if daemon t then exit_wait ts'
    else match ends_in t, exit_wait ts' with
         | Some d, Some w => Some (Z.max d w)
         | _, _ => None
         end
  end.

(** The monitor once [start()] has created its threads. *)
Record monitor : Type := mkMonitor {
  running : bool;
  listener_thread : Thread;        (* udp_listener.py: Thread(..., daemon=True) *)
  cleanup_thread : Thread          (* main.py: Thread(..., daemon=True) *)
}.

(** [start()], up to the server: both threads are created as daemons;
    the arguments say how long each one goes on once [stop()] is called. *)
Definition start (listener_ends_in cleanup_ends_in : option timedelta)
  : monitor :=
  mkMonitor true (mkThread true listener_ends_in)
            (mkThread true cleanup_ends_in).

(** [stop()]: the flag is cleared and the listener stopped, which joins
    the thread of the listener; the thread of the cleanup worker is not
    joined.  The result is the monitor and the time the call has waited. *)
Definition stop (m : monitor) : monitor * timedelta :=
  if running m then
    (mkMonitor false (listener_thread m) (cleanup_thread m),
     join join_timeout (listener_thread m))
  else (m, 0).

(** [signal_handler]: [monitor.stop()], then [sys.exit(0)].  The time
    until the process is gone. *)
Definition shutdown (m : monitor) : option timedelta :=
  let '(m', waited) := stop m in
  match exit_wait [listener_thread m'; cleanup_thread m'] with
  | Some w => Some (waited + w)
  | None => None
  end.

End UDPMonitor.

(** ** Sequences of calls on one store

    The calls that the listener, the scheduler and the query layer make,
    one after the other; a call that raises leaves the database as it was. *)
Module Calls.
Import Sqlite.

Inductive call : Type :=
| store_message (disk : bool) (utcnow : datetime) (client_ip : str)
                (client_port : Z) (data : bytes)
| get_messages (disk : bool) (limit offset : option Z)
               (client_ip : option str) (client_port : option Z)
| get_message_count (disk : bool)
| clear_messages (disk : bool)
| delete_old_messages (disk : bool) (utcnow : datetime) (delta : timedelta).

(** The database after the call and the id it handed out, if any. *)
Definition perform (c : call) (db : database) : database * option Z :=
  match c with
  | store_message disk now ip port d =>
    match MessageStorage.store_message disk now ip port d db with
    | Ok (message_id, db') => (db', Some message_id)
    | Raise _ => (db, None)
    end
  | get_messages _ _ _ _ _ => (db, None)
  | get_message_count _ => (db, None)
  | clear_messages disk =>
    match MessageStorage.clear_messages disk db with
    | Ok db' => (db', None)
    | Raise _ => (db, None)
    end
  | delete_old_messages disk now delta =>
    match MessageStorage.delete_old_messages disk now delta db with
    | Ok (_, db') => (db', None)
    | Raise _ => (db, None)
    end
  end.

(** The final database and the ids handed out, oldest first. *)
Fixpoint perform_all (cs : list call) (db : database)
  : database * list Z :=
  match cs with
  | [] => (db, [])
  | c :: cs' =>
    let '(db1, assigned) := perform c db in
    let '(db2, ids) := perform_all cs' db1 in
    (db2, match assigned with
          | Some i => i :: ids
          | None => ids
          end)
  end.

End Calls.


(** ** The query operation as the specification words it

    Records filtered by exact match on the address and on the port where
    given, ordered by [received_at] descending, then the offset and limit
    window; an absent limit is no limit, an absent offset is 0. *)
Module Spec.
Import Sqlite.

Definition matches (source_address : option str) (source_port : option Z)
           (r : row) : bool :=
  match source_address with
  | Some a => str_eqb (client_ip r) a
  | None => true
  end
  && match source_port with
     | Some p => client_port r =? p
     | None => true
     end.

Definition window (limit offset : option Z) (l : list row) : list row :=
  let l' := skipn (Z.to_nat (match offset with Some k => k | None => 0 end))
                  l in
  match limit with
  | Some n => firstn (Z.to_nat n) l'
  | None => l'
  end.

(** [rows] are the records [l], ordered by [received_at] descending. *)
Definition ordered (l rows : list row) : Prop :=
  Permutation l rows /\ StronglySorted newest_first rows.

(** [result] is what the query returns: the window of the matching
    records in such an order. *)
Definition query (limit offset : option Z) (source_address : option str)
           (source_port : option Z) (db : database)
           (result : list MessageStorage.message) : Prop :=
  exists rows : list row,
    ordered (filter (matches source_address source_port) (messages db)) rows
    /\ result = map MessageStorage.to_message (window limit offset rows).

End Spec.


(** ** Predicates and sample data used in the statements *)
Module Examples.
Import Sqlite.

(** A database that the engine can have produced: no row is beyond the
    recorded sequence value. *)
Definition sequence_covers (db : database) : Prop :=
  max_rowid (messages db) <= sqlite_sequence db.

(** Arguments that can be bound to a statement: integers of 64 bits, a
    text that has an encoding. *)
Definition fits (x : option Z) : Prop :=
  forall n, x = Some n -> int64 n = true.

Definition encodable (x : option str) : Prop :=
  forall t, x = Some t -> forallb Utf8.is_scalar t = true.

(** An engine that takes rows of equal timestamp in rowid order, or in the
    reverse order when the statement has an OFFSET. *)
Definition reversing : engine :=
  fun q l =>
    if existsb (fun c => match c with OFFSET _ => true | _ => false end) q
    then order_by_timestamp_desc (rev l)
    else order_by_timestamp_desc l.

(** Four records received at the same instant. *)
Definition tied_db : database :=
  mkDb [mkRow 1 10 (s_ "10.0.0.1") 4000 (b_ "a") (Some (s_ "a")) 1;
        mkRow 2 10 (s_ "10.0.0.1") 4000 (b_ "b") (Some (s_ "b")) 1;
        mkRow 3 10 (s_ "10.0.0.1") 4000 (b_ "c") (Some (s_ "c")) 1;
        mkRow 4 10 (s_ "10.0.0.1") 4000 (b_ "d") (Some (s_ "d")) 1] 4.

Definition sample_rows : list row :=
  [mkRow 1 10 (s_ "192.168.1.100") 54321 (b_ "Message 1")
         (Some (s_ "Message 1")) 9;
   mkRow 2 20 (s_ "192.168.1.101") 54322 (b_ "Message 2")
         (Some (s_ "Message 2")) 9;
   mkRow 3 30 (s_ "192.168.1.100") 54323 (b_ "Message 3")
         (Some (s_ "Message 3")) 9;
   mkRow 4 40 (s_ "10.0.0.1") 12345 [x00; x01; xff] None 3].

Definition sample_db : database := mkDb sample_rows 4.

End Examples.

(** ** Calls on one store from several threads

    A call of [store_message] or of [delete_old_messages] taken apart into
    the steps at which other threads can come in between: reading the
    clock, entering [with self.lock], each statement run under the lock,
    leaving the lock.  A thread that wants the lock moves only when the
    lock is free.  The rows that a purge deleted are kept with its thread,
    for the statements only; the program does not look at them. *)
Module Threads.
Import Sqlite.

Inductive insert_pc : Type :=
| insert_called
| insert_stamped (timestamp : datetime)        (* before [with self.lock] *)
| insert_locked (timestamp : datetime)         (* lock held, before INSERT *)
| insert_executed (timestamp : datetime) (r : result Z)    (* lock held *)
| insert_returned (timestamp : datetime) (r : result Z).

Inductive purge_pc : Type :=
| purge_called
| purge_overflow                               (* the subtraction raised *)
| purge_stamped (cutoff : datetime)            (* before [with self.lock] *)
| purge_locked (cutoff : datetime)             (* lock held, before COUNT *)
| purge_counted (cutoff : datetime) (count : Z)  (* lock held, before DELETE *)
| purge_executed (cutoff : datetime) (r : result Z) (removed : list row)
| purge_returned (cutoff : datetime) (r : result Z) (removed : list row).

Inductive thread : Type :=
| storing (disk : bool) (client_ip : str) (client_port : Z) (data : bytes)
          (at_ : insert_pc)
| purging (disk : bool) (delta : timedelta) (at_ : purge_pc).

Record world : Type := mkWorld {
  table : database;
  lock : option nat;                           (* the thread inside the lock *)
  threads : list thread
}.

Fixpoint update {A : Type} (i : nat) (x : A) (l : list A) : list A :=
  match l, i with
  | [], _ => []
  | _ :: l', O => x :: l'
  | y :: l', S i' => y :: update i' x l'
  end.

(** One step of thread [me], which reads [clock] if it reads the clock:
    the thread, the lock and the database after the step, or [None] when
    the thread cannot move. *)
Definition step_thread (me : nat) (clock : datetime) (lk : option nat)
           (db : database) (t : thread)
  : option (thread * option nat * database) :=
  match t with
  | storing disk ip port d at_ =>
    let at' (p : insert_pc) := storing disk ip port d p in
    match at_ with
    | insert_called => Some (at' (insert_stamped clock), lk, db)
    | insert_stamped ts =>
      match lk with
      | None => Some (at' (insert_locked ts), Some me, db)
      | Some _ => None
      end
    | insert_locked ts =>
      match (_ <- connect disk ;;
             insert ts ip port d (Utf8.decode d) (len d) db) with
      | Ok (message_id, db') =>
        Some (at' (insert_executed ts (Ok message_id)), lk, db')
      | Raise e => Some (at' (insert_executed ts (Raise e)), lk, db)
      end
    | insert_executed ts r => Some (at' (insert_returned ts r), None, db)
    | insert_returned _ _ => None
    end
  | purging disk delta at_ =>
    let at' (p : purge_pc) := purging disk delta p in
    match at_ with
    | purge_called =>
      match datetime_sub clock delta with
      | Ok cutoff => Some (at' (purge_stamped cutoff), lk, db)
      | Raise _ => Some (at' purge_overflow, lk, db)
      end
    | purge_overflow => None
    | purge_stamped cutoff =>
      match lk with
      | None => Some (at' (purge_locked cutoff), Some me, db)
      | Some _ => None
      end
    | purge_locked cutoff =>
      match connect disk with
      | Ok _ => Some (at' (purge_counted cutoff (count_older cutoff db)), lk, db)
      | Raise e => Some (at' (purge_executed cutoff (Raise e) []), lk, db)
      end
    | purge_counted cutoff count =>
      Some (at' (purge_executed
                   cutoff (Ok count)
                   (filter (fun r => timestamp r <? cutoff) (messages db))),
            lk, delete_older cutoff db)
    | purge_executed cutoff r removed =>
      Some (at' (purge_returned cutoff r removed), None, db)
    | purge_returned _ _ _ => None
    end
  end.

(** The scheduler picks thread [fst s]; the clock then reads [snd s]. *)
Definition step (s : nat * datetime) (w : world) : world :=
  match nth_error (threads w) (fst s) with
  | Some t =>
    match step_thread (fst s) (snd s) (lock w) (table w) t with
    | Some (t', lk, db) => mkWorld db lk (update (fst s) t' (threads w))
    | None => w
    end
  | None => w
  end.

Definition run (schedule : list (nat * datetime)) (w : world) : world :=
  fold_left (fun w s => step s w) schedule w.

Definition holds_lock (t : thread) : bool :=
  match t with
  | storing _ _ _ _ (insert_locked _ | insert_executed _ _) => true
  | purging _ _ (purge_locked _ | purge_counted _ _ | purge_executed _ _ _) =>
    true
  | _ => false
  end.

Definition not_begun (t : thread) : bool :=
  match t with
  | storing _ _ _ _ insert_called => true
  | purging _ _ purge_called => true
  | _ => false
  end.

(** The rows deleted by the purge of a thread. *)
Definition removed_by (t : thread) : list row :=
  match t with
  | purging _ _ (purge_executed _ _ removed | purge_returned _ _ removed) =>
    removed
  | _ => []
  end.

Definition purged (ts : list thread) : list row := flat_map removed_by ts.

(** The cutoff of the purge of a thread, once computed. *)
Definition cutoff_of (t : thread) : option datetime :=
  match t with
  | purging _ _ (purge_stamped c | purge_locked c | purge_counted c _
                | purge_executed c _ _ | purge_returned c _ _) => Some c
  | _ => None
  end.

(** The row inserted by the call of a thread. *)
Definition inserted_by (t : thread) : option row :=
  match t with
  | storing _ ip port d
            (insert_executed ts (Ok i) | insert_returned ts (Ok i)) =>
    Some (mkRow i ts ip port d (Utf8.decode d) (len d))
  | _ => None
  end.

(** What a purge that got to its DELETE knows: the count it returns is the
    number of rows it deleted, all of them older than its cutoff. *)
Definition purge_ok (t : thread) : Prop :=
  match t with
  | purging _ _ (purge_executed c r removed | purge_returned c r removed) =>
    match r with
    | Ok count => count = len removed
                  /\ Forall (fun x => timestamp x < c) removed
    | Raise _ => removed = []
    end
  | _ => True
  end.

(** Every row ever inserted and still accounted for: in the table or among
    the rows that some purge deleted. *)
Definition all_rows (w : world) : list row :=
  messages (table w) ++ purged (threads w).

Record invariant (w : world) : Prop := mkInvariant {
  inv_lock : forall i t,
      nth_error (threads w) i = Some t -> holds_lock t = true ->
      lock w = Some i;
  inv_count : forall i disk delta c n,
      nth_error (threads w) i = Some (purging disk delta (purge_counted c n)) ->
      n = count_older c (table w);
  inv_purge : forall i t, nth_error (threads w) i = Some t -> purge_ok t;
  inv_unique : NoDup (map id (all_rows w));
  inv_sequence :
    Forall (fun r => id r <= sqlite_sequence (table w)) (all_rows w);
  inv_inserted : forall i t r,
      nth_error (threads w) i = Some t -> inserted_by t = Some r ->
      In r (all_rows w)
}.

(** Before any call has begun: the lock is free, and the table is one the
    engine can have produced. *)
Record initial (w : world) : Prop := mkInitial {
  init_lock : lock w = None;
  init_threads : forallb not_begun (threads w) = true;
  init_unique : NoDup (map id (messages (table w)));
  init_sequence :
    Forall (fun r => id r <= sqlite_sequence (table w)) (messages (table w))
}.

End Threads.


(** ** Clock readings of the threads

    [stamped_from h t]: if the insert of [t] has read the clock, it read
    [h] or later.  [cutoff_until h t]: if the purge of [t], called with an
    age that is not negative, has computed its cutoff, the cutoff is [h]
    or earlier. *)
Module Clock.
Import Sqlite Threads.

Definition stamped_from (h : datetime) (t : thread) : Prop :=
  match t with
  | storing _ _ _ _ (insert_stamped ts | insert_locked ts
                    | insert_executed ts _ | insert_returned ts _) => h <= ts
  | _ => True
  end.

Definition cutoff_until (h : datetime) (t : thread) : Prop :=
  match t with
  | purging _ delta _ =>
    0 <= delta -> forall c, cutoff_of t = Some c -> c <= h
  | _ => True
  end.

Definition age_of (t : thread) : timedelta :=
  match t with
  | purging _ delta _ => delta
  | storing _ _ _ _ _ => 0
  end.

End Clock.


(** ** The text of a timestamp

    [datetime.isoformat()] of a naive datetime, and the comparison of two
    TEXT values as the engine does it (byte by byte, the shorter first when
    one is the beginning of the other).  The microseconds are left out of
    the text when they are zero. *)
Module Isoformat.

Record fields : Type := mkFields {
  year : Z;
  month : Z;
  day : Z;
  hour : Z;
  minute : Z;
  second : Z;
  microsecond : Z
}.

Definition in_range (f : fields) : Prop :=
  1 <= year f <= 9999 /\ 1 <= month f <= 12 /\ 1 <= day f <= 31
  /\ 0 <= hour f <= 23 /\ 0 <= minute f <= 59 /\ 0 <= second f <= 59
  /\ 0 <= microsecond f <= 999999.

(** "%02d", "%04d", "%06d" *)
Definition digits2 (n : Z) : str := [48 + n / 10; 48 + n mod 10].
Definition digits4 (n : Z) : str := digits2 (n / 100) ++ digits2 (n mod 100).
Definition digits6 (n : Z) : str :=
  digits2 (n / 10000) ++ digits4 (n mod 10000).

Definition fraction (us : Z) : str :=
  if us =? 0 then [] else 46 :: digits6 us.

Definition isoformat (f : fields) : str :=
  digits4 (year f) ++ 45 :: digits2 (month f) ++ 45 :: digits2 (day f)
  ++ 84 :: digits2 (hour f) ++ 58 :: digits2 (minute f)
  ++ 58 :: digits2 (second f) ++ fraction (microsecond f).

Fixpoint text_ltb (a b : str) : bool :=
  match a, b with
  | _, [] => false
  | [], _ :: _ => true
  | x :: a', y :: b' => (x <? y) || ((x =? y) && text_ltb a' b')
  end.

(** The comparison of two datetimes: field by field, the year first. *)
Definition earlier (a b : fields) : Prop :=
  year a < year b \/ year a = year b /\
  (month a < month b \/ month a = month b /\
   (day a < day b \/ day a = day b /\
    (hour a < hour b \/ hour a = hour b /\
     (minute a < minute b \/ minute a = minute b /\
      (second a < second b \/ second a = second b /\
       microsecond a < microsecond b))))).

End Isoformat.

(** ** From an instant to the fields of its datetime

    The proleptic Gregorian calendar, by cycles of 400 years that begin on
    a first of March: [civil_of_doe] gives the year within the cycle, the
    month and the day of the day numbered [doe] in its cycle.  Day 0 of the
    instants is 0001-01-01, the day numbered 306 of the first cycle. *)
Module Calendar.
Import Isoformat.

Definition civil_of_doe (doe : Z) : Z * Z * Z :=
  let yoe := (doe - doe / 1460 + doe / 36524 - doe / 146096) / 365 in
  let doy := doe - (365 * yoe + yoe / 4 - yoe / 100) in
  let mp := (5 * doy + 2) / 153 in
  let d := doy - (153 * mp + 2) / 5 + 1 in
  let m := if mp <? 10 then mp + 3 else mp - 9 in
  (yoe + (if m <=? 2 then 1 else 0), m, d).

Definition date_of_day (days : Z) : Z * Z * Z :=
  let z := days + 306 in
  let '(y, m, d) := civil_of_doe (z mod 146097) in
  (y + 400 * (z / 146097), m, d).

Definition fields_of (t : datetime) : fields :=
  let tod := t mod one_day in
  let '(y, m, d) := date_of_day (t / one_day) in
  mkFields y m d (tod / 3600000000) ((tod / 60000000) mod 60)
           ((tod / 1000000) mod 60) (tod mod 1000000).

(** What [isoformat()] gives for the datetime at instant [t]. *)
Definition text_of (t : datetime) : str := isoformat (fields_of t).

(** A date as one number that grows with the date. *)
Definition key (c : Z * Z * Z) : Z :=
  let '(y, m, d) := c in (y * 13 + m) * 32 + d.

Definition date_ok (c : Z * Z * Z) : bool :=
  let '(y, m, d) := c in
  (0 <=? y) && (y <=? 400) && (1 <=? m) && (m <=? 12)
  && (1 <=? d) && (d <=? 31).

(** The days from [doe] on, [fuel] of them, have dates in range, each
    later than the one before; [prev] is the key of the day before. *)
Fixpoint days_ok (fuel : nat) (doe : Z) (prev : Z) : bool :=
  match fuel with
  | O => true
  | S fuel' =>
    let c := civil_of_doe doe in
    date_ok c && (prev <? key c) && days_ok fuel' (doe + 1) (key c)
  end.

End Calendar.

(** ** The statements on the timestamp column, on the stored text

    The comparisons of the engine as it runs them, on the [isoformat()]
    text of each timestamp; [Sqlite] has them on the instants. *)
Module AsText.
Import Sqlite Isoformat Calendar.

(** A datetime of the language: from 0001-01-01 to the end of 9999. *)
Definition representable (t : datetime) : Prop := 0 <= t <= datetime_max.

(** "a < b" on the two texts. *)
Definition before (a b : datetime) : bool :=
  text_ltb (text_of a) (text_of b).

Definition count_older (cutoff : datetime) (db : database) : Z :=
  len (filter (fun r => before (timestamp r) cutoff) (messages db)).

Definition delete_older (cutoff : datetime) (db : database) : database :=
  mkDb (filter (fun r => negb (before (timestamp r) cutoff)) (messages db))
       (sqlite_sequence db).

Fixpoint insert_desc (r : row) (l : list row) : list row :=
  match l with
  | [] => [r]
  | x :: l' =>
    if before (timestamp r) (timestamp x) then x :: insert_desc r l'
    else r :: x :: l'
  end.

Definition order_by_timestamp_desc (l : list row) : list row :=
  fold_right insert_desc [] l.

End AsText.

(** ** [bytes.decode('utf-8', errors='replace')]

    The decoder of [Utf8] with the handler that puts U+FFFD in the place of
    what cannot be decoded and goes on: after an invalid start byte, one
    byte on; after a start byte whose continuation is wrong, past the bytes
    that were right; at a sequence cut short by the end of the data, to the
    end. *)
Module Utf8Replace.
Import Utf8.

Definition replacement : Z := 65533.

Fixpoint decode_vals (bs : list Z) : str :=
  match bs with
  | [] => []
  | b0 :: t0 =>
    if b0 <? 128 then b0 :: decode_vals t0
    else if b0 <? 194 then replacement :: decode_vals t0
    else if b0 <? 224 then
      match t0 with
      | [] => [replacement]
      | b1 :: t1 =>
        if is_cont b1
        then ((b0 - 192) * 64 + (b1 - 128)) :: decode_vals t1
        else replacement :: decode_vals t0
      end
    else if b0 <? 240 then
      match t0 with
      | [] => [replacement]
      | b1 :: t1 =>
        if negb (is_cont b1) || (if b1 <? 160 then b0 =? 224 else b0 =? 237)
        then replacement :: decode_vals t0
        else
          match t1 with
          | [] => [replacement]
          | b2 :: t2 =>
            if is_cont b2
            then ((b0 - 224) * 4096 + (b1 - 128) * 64 + (b2 - 128))
                   :: decode_vals t2
            else replacement :: decode_vals t1
          end
      end
    else if b0 <? 245 then
      match t0 with
      | [] => [replacement]
      | b1 :: t1 =>
        if negb (is_cont b1) || (if b1 <? 144 then b0 =? 240 else b0 =? 244)
        then replacement :: decode_vals t0
        else
          match t1 with
          | [] => [replacement]
          | b2 :: t2 =>
            if negb (is_cont b2) then replacement :: decode_vals t1
            else
              match t2 with
              | [] => [replacement]
              | b3 :: t3 =>
                if is_cont b3
                then ((b0 - 240) * 262144 + (b1 - 128) * 4096
                      + (b2 - 128) * 64 + (b3 - 128)) :: decode_vals t3
                else replacement :: decode_vals t2
              end
          end
      end
    else replacement :: decode_vals t0
  end.

Definition decode (data : bytes) : str := decode_vals (map byte_val data).

End Utf8Replace.

(** ** [rest_api.py]: the endpoints on the stored messages

    The bounds declared with [Query(...)] are checked by the framework
    before the function body runs: a value outside them is answered 422;
    an absent parameter takes its default. *)
Module RestApi.
Import Sqlite.

Inductive response (A : Type) : Type :=
| ok_200 (body : A)
| not_found_404                      (* HTTPException(status_code=404) *)
| invalid_422                        (* a parameter outside its bounds *)
| error_500 (e : exn).               (* HTTPException(status_code=500) *)
Arguments ok_200 {A} body.
Arguments not_found_404 {A}.
Arguments invalid_422 {A}.
Arguments error_500 {A} e.

(** {'success': True, 'count': ..., 'messages': ...} *)
Record listing : Type := mkListing {
  count : Z;
  listed : list MessageStorage.message
}.

Definition in_bounds (ge : Z) (le : option Z) (x : Z) : bool :=
  (ge <=? x) && match le with Some h => x <=? h | None => true end.

(** GET /messages *)
Definition get_messages (E : engine) (disk : bool) (limit offset : option Z)
           (client_ip : option str) (client_port : option Z)
           (db : database) : response listing :=
  let limit := match limit with Some n => n | None => 100 end in
  let offset := match offset with Some k => k | None => 0 end in
  if in_bounds 1 (Some 1000) limit
     && in_bounds 0 None offset
     && match client_port with
        | Some p => in_bounds 1 (Some 65535) p
        | None => true
        end
  then
    match MessageStorage.get_messages E disk (Some limit) (Some offset)
                                      client_ip client_port db with
    | Ok messages => ok_200 (mkListing (len messages) messages)
    | Raise e => error_500 e
    end
  else invalid_422.

(** GET /messages/count *)
Definition get_message_count (disk : bool) (db : database) : response Z :=
  match MessageStorage.get_message_count disk db with
  | Ok count => ok_200 count
  | Raise e => error_500 e
  end.

(** The text shown for a row by the lookup by id. *)
Definition message_text (r : row) : str :=
  match data_text r with
  | Some (c :: s) => c :: s
  | _ => Utf8Replace.decode (data r)
  end.

(** GET /messages/{message_id}: SELECT ... WHERE id = ?, then fetchone;
    an id that does not fit 64 bits cannot be bound. *)
Definition get_message (disk : bool) (message_id : Z) (db : database)
  : response MessageStorage.message :=
  match (_ <- connect disk ;; bind_int message_id) with
  | Raise e => error_500 e
  | Ok _ =>
    match find (fun r => id r =? message_id) (messages db) with
    | Some r =>
      ok_200 (MessageStorage.mkMessage
                (id r) (timestamp r) (client_ip r) (client_port r)
                (message_text r) (data_size r))
    | None => not_found_404
    end
  end.

End RestApi.

(** ** [udpfetch.py]: reading the database file directly *)
Module Udpfetch.

Record Message : Type := mkMessage {
  id : Z;
  timestamp : datetime;
  ip : str;
  port : Z;
  message : str;
  data : bytes;
  data_size : Z
}.

Definition of_row (r : Sqlite.row) : Message :=
  mkMessage (Sqlite.id r) (Sqlite.timestamp r) (Sqlite.client_ip r)
            (Sqlite.client_port r) (RestApi.message_text r)
            (Sqlite.data r) (Sqlite.data_size r).

Definition get_messages (E : Sqlite.engine) (disk : bool) (limit : option Z)
           (client_ip : option str) (client_port : option Z)
           (db : Sqlite.database) : result (list Message) :=
  let conditions :=
    (if MessageStorage.truthy_str client_ip
     then [Sqlite.client_ip_eq (MessageStorage.get_str client_ip)] else [])
    ++ (if MessageStorage.truthy_int client_port
        then [Sqlite.client_port_eq (MessageStorage.get_int client_port)]
        else []) in
  let query :=
    (match conditions with
     | [] => []
     | _ :: _ => [Sqlite.WHERE conditions]
     end)
    ++ [Sqlite.ORDER_BY_timestamp_DESC]
    ++ (if MessageStorage.truthy_int limit
        then [Sqlite.LIMIT (MessageStorage.get_int limit)] else []) in
  _ <- Sqlite.connect disk ;;
  rows <- Sqlite.select E query db ;;
  Ok (map of_row rows).

Definition get_message_count (disk : bool) (db : Sqlite.database)
  : result Z :=
  _ <- Sqlite.connect disk ;;
  Ok (Sqlite.count_all db).

Definition get_latest_message (E : Sqlite.engine) (disk : bool)
           (db : Sqlite.database) : result (option Message) :=
  messages <- get_messages E disk (Some 1) None None db ;;
  Ok match messages with
     | m :: _ => Some m
     | [] => None
     end.

End Udpfetch.

(** ** Threads that can move *)
Module Progress.
Import Sqlite Threads.

(** The call of the thread has returned or raised. *)
Definition finished (t : thread) : bool :=
  match t with
  | storing _ _ _ _ (insert_returned _ _) => true
  | purging _ _ (purge_overflow | purge_returned _ _ _) => true
  | _ => false
  end.

(** Thread [i] of the world has a step to take. *)
Definition can_step (w : world) (i : nat) : bool :=
  match nth_error (threads w) i with
  | Some t =>
    match step_thread i 0 (lock w) (table w) t with
    | Some _ => true
    | None => false
    end
  | None => false
  end.

(** The lock is held by a thread that is inside it. *)
Definition lock_owned (w : world) : Prop :=
  forall j, lock w = Some j ->
            exists t, nth_error (threads w) j = Some t /\ holds_lock t = true.

End Progress.

(** ** Predicates used in the further statements *)
Module Stored.
Import Sqlite.

(** A row as [store_message] writes it. *)
Definition as_stored (r : row) : Prop :=
  data_text r = Utf8.decode (data r) /\ data_size r = len (data r).

(** The reply that answers a record: the prefix and the payload, to the
    peer of the record. *)
Definition reply_of (r : row) : bytes * UDPListener.address :=
  (UDPListener.echo_prefix ++ data r, (client_ip r, client_port r)).

(** [answered rows replies]: the replies answer some of the records, each
    record at most once, in the order of the records. *)
Inductive answered : list row -> list (bytes * UDPListener.address) -> Prop :=
| answered_nil : answered [] []
| answered_skip (r : row) (rows : list row)
                (replies : list (bytes * UDPListener.address)) :
    answered rows replies -> answered (r :: rows) replies
| answered_reply (r : row) (rows : list row)
                 (replies : list (bytes * UDPListener.address)) :
    answered rows replies -> answered (r :: rows) (reply_of r :: replies).

(** The records of the datagrams of [es], numbered from [next]. *)
Fixpoint records (next : Z) (es : list UDPListener.env) : list row :=
  match es with
  | [] => []
  | e :: es' =>
    match UDPListener.incoming e with
    | UDPListener.datagram payload (ip, port) =>
      let data := slice_to 4096 payload in
      mkRow next (UDPListener.utcnow e) ip port data (Utf8.decode data)
            (len data) :: records (next + 1) es'
    | UDPListener.recv_fault => records next es'
    end
  end.

(** A pass in which nothing fails: a datagram arrives, the store can be
    written and the reply sent. *)
Definition fault_free (e : UDPListener.env) : Prop :=
  (exists payload peer,
      UDPListener.incoming e = UDPListener.datagram payload peer)
  /\ UDPListener.disk e = true /\ UDPListener.network e = true.

(** The steps of a pass of the loop in which nothing fails: the test of
    the flag, the receive, the insert, the reply and the two lines. *)
Definition pass (e : UDPListener.env) : list UDPListener.event :=
  repeat (UDPListener.thread_step e) 6.

(** What a run of the thread from [l0] has added when it stands at [at_]
    with [l]: records, and replies that answer them; a thread about to
    send has stored the record it answers, last and not yet answered. *)
Definition progress (l0 l : UDPListener.listener) (at_ : UDPListener.pc)
  : Prop :=
  exists (added : list row) (replies : list (bytes * UDPListener.address)),
    messages (UDPListener.storage l)
    = messages (UDPListener.storage l0) ++ added
    /\ UDPListener.sent l = UDPListener.sent l0 ++ replies
    /\ answered added replies
    /\ match at_ with
       | UDPListener.sending _ data addr =>
         exists (before : list row) (r : row),
           added = before ++ [r]
           /\ reply_of r = (UDPListener.echo_prefix ++ data, addr)
           /\ answered before replies
       | _ => True
       end.

Definition is_thread_step (ev : UDPListener.event) : bool :=
  match ev with
  | UDPListener.thread_step _ => true
  | _ => false
  end.

(** A thread that can still store a datagram once the flag is cleared:
    its receive is pending or has returned. *)
Definition may_store (at_ : UDPListener.pc) : bool :=
  match at_ with
  | UDPListener.receiving | UDPListener.storing _ _ => true
  | _ => false
  end.

(** The steps a thread can at most still take once the flag is cleared. *)
Definition steps_left (at_ : UDPListener.pc) : nat :=
  match at_ with
  | UDPListener.finished => 0
  | UDPListener.loop_head | UDPListener.sending _ _ _ => 1
  | UDPListener.binding | UDPListener.storing _ _
  | UDPListener.logging_echo _ => 2
  | UDPListener.receiving | UDPListener.logging _ _ _ => 3
  end.

(** The thread and the listener once [stop()] has cleared the flag and
    closed the socket: a thread past the head of the loop works on a
    socket that is not open. *)
Definition stopped (l : UDPListener.listener) (at_ : UDPListener.pc)
  : Prop :=
  UDPListener.running l = false
  /\ (at_ <> UDPListener.binding -> at_ <> UDPListener.loop_head ->
      UDPListener.sock l <> Some UDPListener.sock_open).

End Stored.

(** * Properties *)

(** ** The codec *)

Ltac to_prop :=
  repeat match goal with
  | H : _ && _ = true |- _ => apply andb_true_iff in H; destruct H
  | H : _ || _ = true |- _ => apply orb_true_iff in H
  | H : negb _ = true |- _ => apply negb_true_iff in H
  | H : (_ <=? _) = true |- _ => apply Z.leb_le in H
  | H : (_ <? _) = true |- _ => apply Z.ltb_lt in H
  | H : (_ =? _) = true |- _ => apply Z.eqb_eq in H
  | H : (_ <=? _) = false |- _ => apply Z.leb_gt in H
  | H : (_ <? _) = false |- _ => apply Z.ltb_ge in H
  | H : (_ =? _) = false |- _ => apply Z.eqb_neq in H
  end.

Ltac pick_branch :=
  repeat match goal with
  | |- context [if ?a <? ?b then _ else _] =>
    let E := fresh "E" in
    destruct (a <? b) eqn:E; to_prop; try lia
  end.

Lemma byte_val_range (b : byte) : 0 <= byte_val b < 256.
Proof.
  unfold byte_val. pose proof (Byte.to_N_bounded b). lia.
Qed.

Lemma byte_of_val (b : byte) : byte_of_Z (byte_val b) = b.
Proof.
  unfold byte_of_Z, byte_val. rewrite N2Z.id, Byte.of_to_N. reflexivity.
Qed.

Lemma byte_val_of (z : Z) : 0 <= z < 256 -> byte_val (byte_of_Z z) = z.
Proof.
  intros Hz. unfold byte_of_Z, byte_val.
  destruct (Byte.of_N (Z.to_N z)) as [b|] eqn:E.
  - apply Byte.to_of_N in E. rewrite E. lia.
  - apply Byte.of_N_None_iff in E. lia.
Qed.

Lemma map_byte_of_val (d : bytes) : map byte_of_Z (map byte_val d) = d.
Proof.
  induction d as [|b d IH]; simpl; [reflexivity|].
  now rewrite byte_of_val, IH.
Qed.

Lemma map_byte_val_of (l : list Z) :
  Forall (fun z => 0 <= z < 256) l -> map byte_val (map byte_of_Z l) = l.
Proof.
  induction 1 as [|z l Hz _ IH]; simpl; [reflexivity|].
  now rewrite byte_val_of, IH.
Qed.

Lemma encode_point_range (c : Z) :
  Utf8.is_scalar c = true ->
  Forall (fun z => 0 <= z < 256) (Utf8.encode_point c).
Proof.
  unfold Utf8.is_scalar, Utf8.encode_point. intros H.
  assert (0 <= c <= 1114111) by (to_prop; destruct H; to_prop; lia).
  pick_branch; repeat constructor; Z.div_mod_to_equations; lia.
Qed.

Lemma encode_vals_range (s : str) :
  forallb Utf8.is_scalar s = true ->
  Forall (fun z => 0 <= z < 256) (Utf8.encode_vals s).
Proof.
  induction s as [|c s IH]; simpl; intros H; [constructor|].
  to_prop. apply Forall_app. split; [now apply encode_point_range|auto].
Qed.

(** Decoding what the encoder produced gives the text back. *)
Lemma decode_encode_point (c : Z) (rest : list Z) :
  Utf8.is_scalar c = true ->
  Utf8.decode_vals (Utf8.encode_point c ++ rest)
  = option_map (cons c) (Utf8.decode_vals rest).
Proof.
  unfold Utf8.is_scalar, Utf8.encode_point. intros H.
  assert (Hc : 0 <= c < 55296 \/ 57344 <= c <= 1114111)
    by (to_prop; destruct H; to_prop; lia).
  clear H.
  destruct (c <? 128) eqn:E1.
  { simpl. now rewrite E1. }
  destruct (c <? 2048) eqn:E2.
  { to_prop. cbn [app Utf8.decode_vals].
    replace (192 + c / 64 <? 128) with false
      by (symmetry; apply Z.ltb_ge; Z.div_mod_to_equations; lia).
    replace ((194 <=? 192 + c / 64) && (192 + c / 64 <=? 223)) with true
      by (symmetry; apply andb_true_iff; split; apply Z.leb_le;
          Z.div_mod_to_equations; lia).
    replace (Utf8.is_cont (128 + c mod 64)) with true
      by (symmetry; apply andb_true_iff; split; apply Z.leb_le;
          Z.div_mod_to_equations; lia).
    replace ((192 + c / 64 - 192) * 64 + (128 + c mod 64 - 128)) with c
      by (Z.div_mod_to_equations; lia).
    reflexivity. }
  destruct (c <? 65536) eqn:E3.
  { to_prop. cbn [app Utf8.decode_vals].
    replace (224 + c / 4096 <? 128) with false
      by (symmetry; apply Z.ltb_ge; Z.div_mod_to_equations; lia).
    replace ((194 <=? 224 + c / 4096) && (224 + c / 4096 <=? 223)) with false
      by (symmetry; apply andb_false_iff; right; apply Z.leb_gt;
          Z.div_mod_to_equations; lia).
    replace ((224 <=? 224 + c / 4096) && (224 + c / 4096 <=? 239)) with true
      by (symmetry; apply andb_true_iff; split; apply Z.leb_le;
          Z.div_mod_to_equations; lia).
    replace (Utf8.is_cont (128 + (c / 64) mod 64)) with true
      by (symmetry; apply andb_true_iff; split; apply Z.leb_le;
          Z.div_mod_to_equations; lia).
    replace (Utf8.is_cont (128 + c mod 64)) with true
      by (symmetry; apply andb_true_iff; split; apply Z.leb_le;
          Z.div_mod_to_equations; lia).
    replace (negb (224 + c / 4096 =? 224) || (160 <=? 128 + (c / 64) mod 64))
      with true.
    2:{ symmetry. destruct (224 + c / 4096 =? 224) eqn:E; [|reflexivity].
        to_prop. cbn [negb orb]. apply Z.leb_le. Z.div_mod_to_equations; lia. }
    replace (negb (224 + c / 4096 =? 237) || (128 + (c / 64) mod 64 <=? 159))
      with true.
    2:{ symmetry. destruct (224 + c / 4096 =? 237) eqn:E; [|reflexivity].
        to_prop. cbn [negb orb]. apply Z.leb_le. Z.div_mod_to_equations; lia. }
    cbn [andb].
    replace ((224 + c / 4096 - 224) * 4096 + (128 + (c / 64) mod 64 - 128) * 64
             + (128 + c mod 64 - 128)) with c
      by (Z.div_mod_to_equations; lia).
    reflexivity. }
  to_prop. cbn [app Utf8.decode_vals].
  replace (240 + c / 262144 <? 128) with false
    by (symmetry; apply Z.ltb_ge; Z.div_mod_to_equations; lia).
  replace ((194 <=? 240 + c / 262144) && (240 + c / 262144 <=? 223)) with false
    by (symmetry; apply andb_false_iff; right; apply Z.leb_gt;
        Z.div_mod_to_equations; lia).
  replace ((224 <=? 240 + c / 262144) && (240 + c / 262144 <=? 239)) with false
    by (symmetry; apply andb_false_iff; right; apply Z.leb_gt;
        Z.div_mod_to_equations; lia).
  replace ((240 <=? 240 + c / 262144) && (240 + c / 262144 <=? 244)) with true
    by (symmetry; apply andb_true_iff; split; apply Z.leb_le;
        Z.div_mod_to_equations; lia).
  replace (Utf8.is_cont (128 + (c / 4096) mod 64)) with true
    by (symmetry; apply andb_true_iff; split; apply Z.leb_le;
        Z.div_mod_to_equations; lia).
  replace (Utf8.is_cont (128 + (c / 64) mod 64)) with true
    by (symmetry; apply andb_true_iff; split; apply Z.leb_le;
        Z.div_mod_to_equations; lia).
  replace (Utf8.is_cont (128 + c mod 64)) with true
    by (symmetry; apply andb_true_iff; split; apply Z.leb_le;
        Z.div_mod_to_equations; lia).
  replace (negb (240 + c / 262144 =? 240) || (144 <=? 128 + (c / 4096) mod 64))
    with true.
  2:{ symmetry. destruct (240 + c / 262144 =? 240) eqn:E; [|reflexivity].
      to_prop. cbn [negb orb]. apply Z.leb_le. Z.div_mod_to_equations; lia. }
  replace (negb (240 + c / 262144 =? 244) || (128 + (c / 4096) mod 64 <=? 143))
    with true.
  2:{ symmetry. destruct (240 + c / 262144 =? 244) eqn:E; [|reflexivity].
      to_prop. cbn [negb orb]. apply Z.leb_le. Z.div_mod_to_equations; lia. }
  cbn [andb].
  replace ((240 + c / 262144 - 240) * 262144
           + (128 + (c / 4096) mod 64 - 128) * 4096
           + (128 + (c / 64) mod 64 - 128) * 64 + (128 + c mod 64 - 128))
    with c by (Z.div_mod_to_equations; lia).
  reflexivity.
Qed.

Lemma decode_encode_vals (s : str) :
  forallb Utf8.is_scalar s = true ->
  Utf8.decode_vals (Utf8.encode_vals s) = Some s.
Proof.
  induction s as [|c s IH]; intros H; [reflexivity|].
  simpl in H. to_prop.
  change (Utf8.encode_vals (c :: s))
    with (Utf8.encode_point c ++ Utf8.encode_vals s).
  rewrite decode_encode_point by assumption.
  now rewrite IH.
Qed.

Lemma option_map_cons_inv (c : Z) (o : option str) (s : str) :
  option_map (cons c) o = Some s -> exists s', o = Some s' /\ s = c :: s'.
Proof.
  destruct o as [s'|]; simpl; intros H; [|discriminate].
  exists s'. split; congruence.
Qed.

(** Re-encoding a decoded text gives the bytes back, and a decoded text
    holds scalar values only. *)
Lemma encode_decode_vals (n : nat) :
  forall (bs : list Z) (s : str),
    (List.length bs <= n)%nat ->
    Forall (fun b => 0 <= b) bs ->
    Utf8.decode_vals bs = Some s ->
    Utf8.encode_vals s = bs /\ forallb Utf8.is_scalar s = true.
Proof.
  induction n as [|n IH]; intros bs s Hlen Hpos Hdec.
  { destruct bs; simpl in Hlen; [|lia]. simpl in Hdec.
    injection Hdec as <-. split; reflexivity. }
  destruct bs as [|b0 t0].
  { simpl in Hdec. injection Hdec as <-. split; reflexivity. }
  cbn [Utf8.decode_vals] in Hdec.
  inversion Hpos as [|? ? Hb0 Ht0]; subst.
  simpl in Hlen.
  destruct (b0 <? 128) eqn:E1.
  { apply option_map_cons_inv in Hdec. destruct Hdec as (s' & Hs' & ->).
    destruct (IH t0 s') as [He Hs]; [lia|assumption|assumption|].
    to_prop.
    change (Utf8.encode_vals (b0 :: s'))
      with (Utf8.encode_point b0 ++ Utf8.encode_vals s').
    cbn [forallb]. rewrite He, Hs. unfold Utf8.encode_point, Utf8.is_scalar.
    split.
    - pick_branch. reflexivity.
    - apply andb_true_iff. split; [|reflexivity].
      apply orb_true_iff. left. apply andb_true_iff.
      split; [apply Z.leb_le|apply Z.ltb_lt]; lia. }
  destruct ((194 <=? b0) && (b0 <=? 223)) eqn:E2.
  { destruct t0 as [|b1 t1]; [discriminate|].
    destruct (Utf8.is_cont b1) eqn:C1; [|discriminate].
    apply option_map_cons_inv in Hdec. destruct Hdec as (s' & Hs' & ->).
    inversion Ht0; subst. simpl in Hlen.
    destruct (IH t1 s') as [He Hs]; [lia|assumption|assumption|].
    unfold Utf8.is_cont in C1. to_prop.
    change (Utf8.encode_vals (?c :: s'))
      with (Utf8.encode_point c ++ Utf8.encode_vals s').
    cbn [forallb]. rewrite He, Hs. unfold Utf8.encode_point, Utf8.is_scalar.
    split.
    - pick_branch. cbn [app]. f_equal; [|f_equal]; Z.div_mod_to_equations; lia.
    - apply andb_true_iff. split; [|reflexivity].
      apply orb_true_iff. left. apply andb_true_iff.
      split; [apply Z.leb_le|apply Z.ltb_lt]; lia. }
  destruct ((224 <=? b0) && (b0 <=? 239)) eqn:E3.
  { destruct t0 as [|b1 [|b2 t2]]; try discriminate.
    match type of Hdec with (if ?c then _ else _) = _ =>
      destruct c eqn:C; [|discriminate] end.
    apply option_map_cons_inv in Hdec. destruct Hdec as (s' & Hs' & ->).
    inversion Ht0 as [|? ? ? Ht1]; subst. inversion Ht1; subst.
    simpl in Hlen.
    destruct (IH t2 s') as [He Hs]; [lia|assumption|assumption|].
    unfold Utf8.is_cont in C. to_prop.
    assert (G1 : b0 = 224 -> 160 <= b1).
    { intros ->.
      repeat match goal with H : _ \/ _ |- _ => destruct H end;
        to_prop; lia. }
    assert (G2 : b0 = 237 -> b1 <= 159).
    { intros ->.
      repeat match goal with H : _ \/ _ |- _ => destruct H end;
        to_prop; lia. }
    repeat match goal with H : _ \/ _ |- _ => clear H end.
    change (Utf8.encode_vals (?c :: s'))
      with (Utf8.encode_point c ++ Utf8.encode_vals s').
    cbn [forallb]. rewrite He, Hs. unfold Utf8.encode_point, Utf8.is_scalar.
    split.
    - pick_branch. cbn [app].
      f_equal; [|f_equal; [|f_equal]]; Z.div_mod_to_equations; lia.
    - apply andb_true_iff. split; [|reflexivity].
      apply orb_true_iff.
      destruct (Z.lt_ge_cases b0 237) as [L|L].
      + left. apply andb_true_iff.
        split; [apply Z.leb_le|apply Z.ltb_lt]; lia.
      + destruct (Z.eq_dec b0 237) as [->|N].
        * left. apply andb_true_iff. specialize (G2 eq_refl).
          split; [apply Z.leb_le|apply Z.ltb_lt]; lia.
        * right. apply andb_true_iff.
          split; apply Z.leb_le; lia. }
  destruct ((240 <=? b0) && (b0 <=? 244)) eqn:E4; [|discriminate].
  destruct t0 as [|b1 [|b2 [|b3 t3]]]; try discriminate.
  match type of Hdec with (if ?c then _ else _) = _ =>
    destruct c eqn:C; [|discriminate] end.
  apply option_map_cons_inv in Hdec. destruct Hdec as (s' & Hs' & ->).
  inversion Ht0 as [|? ? ? Ht1]; subst. inversion Ht1 as [|? ? ? Ht2]; subst.
  inversion Ht2; subst.
  simpl in Hlen.
  destruct (IH t3 s') as [He Hs]; [lia|assumption|assumption|].
  unfold Utf8.is_cont in C. to_prop.
  assert (G1 : b0 = 240 -> 144 <= b1).
  { intros ->.
    repeat match goal with H : _ \/ _ |- _ => destruct H end;
      to_prop; lia. }
  assert (G2 : b0 = 244 -> b1 <= 143).
  { intros ->.
    repeat match goal with H : _ \/ _ |- _ => destruct H end;
      to_prop; lia. }
  repeat match goal with H : _ \/ _ |- _ => clear H end.
  change (Utf8.encode_vals (?c :: s'))
    with (Utf8.encode_point c ++ Utf8.encode_vals s').
  cbn [forallb]. rewrite He, Hs. unfold Utf8.encode_point, Utf8.is_scalar.
  split.
  - pick_branch. cbn [app].
    f_equal; [|f_equal; [|f_equal; [|f_equal]]]; Z.div_mod_to_equations; lia.
  - apply andb_true_iff. split; [|reflexivity].
    apply orb_true_iff. right. apply andb_true_iff.
    split; apply Z.leb_le; lia.
Qed.

(** [data.decode('utf-8')] succeeds with [s] exactly when [data] is the
    UTF-8 encoding of [s]. *)
Lemma decode_iff_encode (data : bytes) (s : str) :
  Utf8.decode data = Some s <-> Utf8.encode s = Some data.
Proof.
  unfold Utf8.decode, Utf8.encode. split.
  - intros H.
    apply (encode_decode_vals (n := List.length (map byte_val data))) in H.
    + destruct H as [He Hs]. rewrite Hs, He, map_byte_of_val. reflexivity.
    + lia.
    + apply Forall_forall. intros z Hz. apply in_map_iff in Hz.
      destruct Hz as (b & <- & _). apply byte_val_range.
  - destruct (forallb Utf8.is_scalar s) eqn:Hs; [|discriminate].
    intros H. injection H as <-.
    rewrite map_byte_val_of by now apply encode_vals_range.
    now apply decode_encode_vals.
Qed.

(** ** The store: records created by [store_message] *)

Import Sqlite Examples.

Lemma store_message_ok (disk : bool) (now : datetime) (ip : str) (port : Z)
      (payload : bytes) (db db' : database) (mid : Z) :
  MessageStorage.store_message disk now ip port payload db = Ok (mid, db') ->
  disk = true
  /\ mid = Z.max (sqlite_sequence db) (max_rowid (messages db)) + 1
  /\ mid <= largest_rowid
  /\ db' = mkDb (messages db
                 ++ [mkRow mid now ip port payload (Utf8.decode payload)
                           (len payload)]) mid.
Proof.
  unfold MessageStorage.store_message, connect, insert, bind.
  destruct disk; [|discriminate].
  destruct (Z.max (sqlite_sequence db) (max_rowid (messages db))
            <? largest_rowid) eqn:E; [|discriminate].
  intros H. injection H as <- <-. to_prop. repeat split; lia.
Qed.

Example store_text_payload :
  MessageStorage.store_message true 5 (s_ "192.168.1.100") 54321
                               (b_ "Message 1") empty
  = Ok (1, mkDb [mkRow 1 5 (s_ "192.168.1.100") 54321 (b_ "Message 1")
                       (Some (s_ "Message 1")) 9] 1).
Proof. reflexivity. Qed.

Example store_binary_payload :
  MessageStorage.store_message true 5 (s_ "192.168.1.100") 54321
                               [x00; x01; xff] empty
  = Ok (1, mkDb [mkRow 1 5 (s_ "192.168.1.100") 54321 [x00; x01; xff]
                       None 3] 1).
Proof. reflexivity. Qed.

(** C4.  Every record that [store_message] creates from a payload carries
    the payload unchanged, has [data_size] equal to the byte length of the
    payload, and has a [data_text] exactly when the payload is the UTF-8
    encoding of some text, that text being then the value stored; whether
    the payload decodes has no bearing on the success of the insert: the
    same call succeeds for every other payload. *)
Theorem store_message_payload_fields
        (disk : bool) (now : datetime) (ip : str) (port : Z)
        (payload : bytes) (db db' : database) (mid : Z) :
  MessageStorage.store_message disk now ip port payload db = Ok (mid, db') ->
  (exists r,
      messages db' = messages db ++ [r]
      /\ id r = mid
      /\ data r = payload
      /\ data_size r = len payload
      /\ data_text r = Utf8.decode payload
      /\ (forall s, data_text r = Some s <-> Utf8.encode s = Some payload)
      /\ (data_text r = None <-> forall s, Utf8.encode s <> Some payload))
  /\ (forall other : bytes,
         exists r',
           MessageStorage.store_message disk now ip port other db
           = Ok (mid, mkDb (messages db ++ [r']) mid)
           /\ data_text r' = Utf8.decode other).
Proof.
  intros H. pose proof (store_message_ok _ _ _ _ _ _ H) as (-> & Hm & Hle & ->).
  split.
  - exists (mkRow mid now ip port payload (Utf8.decode payload) (len payload)).
    cbn [messages id data data_size data_text].
    repeat split; try reflexivity.
    + apply decode_iff_encode.
    + apply decode_iff_encode.
    + intros Hn s Hs. apply decode_iff_encode in Hs. congruence.
    + intros Hn. destruct (Utf8.decode payload) as [s|] eqn:E; [|reflexivity].
      apply decode_iff_encode in E. now apply Hn in E.
  - intros other. eexists. split.
    + unfold MessageStorage.store_message, connect, insert, bind.
      replace (Z.max (sqlite_sequence db) (max_rowid (messages db))
               <? largest_rowid) with true
        by (symmetry; apply Z.ltb_lt; lia).
      rewrite <- Hm. reflexivity.
    + reflexivity.
Qed.

Lemma store_message_payload_fields_witness :
  exists r,
    messages (mkDb [mkRow 1 5 (s_ "10.0.0.1") 12345 [x00; x01; xff] None 3] 1)
    = messages empty ++ [r]
    /\ data_size r = 3 /\ data_text r = None.
Proof.
  destruct (@store_message_payload_fields
              true 5 (s_ "10.0.0.1") 12345 [x00; x01; xff] empty
              (mkDb [mkRow 1 5 (s_ "10.0.0.1") 12345 [x00; x01; xff] None 3] 1)
              1 eq_refl) as [(r & Hr & _ & _ & Hsz & Htx & _) _].
  exists r. repeat split; assumption.
Defined.

(** ** The store: ids *)

Lemma max_rowid_ge (t : list row) (r : row) : In r t -> id r <= max_rowid t.
Proof.
  induction t as [|x t IH]; simpl; [contradiction|].
  intros [->|H]; [lia|]. specialize (IH H). lia.
Qed.

Lemma max_rowid_nonneg (t : list row) : 0 <= max_rowid t.
Proof. induction t as [|x t IH]; simpl; lia. Qed.

Lemma max_rowid_app (t u : list row) :
  max_rowid (t ++ u) = Z.max (max_rowid t) (max_rowid u).
Proof.
  induction t as [|x t IH]; simpl.
  - pose proof (max_rowid_nonneg u). lia.
  - rewrite IH. lia.
Qed.

Lemma max_rowid_filter (p : row -> bool) (t : list row) :
  max_rowid (filter p t) <= max_rowid t.
Proof.
  induction t as [|x t IH]; simpl; [lia|].
  destruct (p x); simpl; lia.
Qed.

Ltac unchanged := split; [assumption|split; [lia|discriminate]].

Lemma perform_sequence (c : Calls.call) (db : database) :
  sequence_covers db ->
  sequence_covers (fst (Calls.perform c db))
  /\ sqlite_sequence db <= sqlite_sequence (fst (Calls.perform c db))
  /\ (forall i, snd (Calls.perform c db) = Some i ->
                sqlite_sequence db < i
                /\ sqlite_sequence (fst (Calls.perform c db)) = i).
Proof.
  unfold sequence_covers. intros Hc.
  destruct c as [disk now ip port d| | |disk|disk now delta]; cbn [Calls.perform].
  - destruct (MessageStorage.store_message disk now ip port d db)
      as [[mid db']|e] eqn:E; cbn [fst snd].
    + apply store_message_ok in E. destruct E as (_ & Hm & _ & ->).
      cbn [messages sqlite_sequence]. rewrite max_rowid_app. simpl.
      pose proof (max_rowid_nonneg (messages db)).
      split; [lia|split; [lia|]]. intros i Hi. injection Hi as <-. lia.
    + unchanged.
  - cbn [fst snd]. unchanged.
  - cbn [fst snd]. unchanged.
  - destruct disk; cbn [MessageStorage.clear_messages connect bind fst snd];
      [|unchanged].
    cbn [delete_all messages sqlite_sequence max_rowid].
    pose proof (max_rowid_nonneg (messages db)).
    split; [lia|split; [lia|discriminate]].
  - unfold MessageStorage.delete_old_messages, bind.
    destruct (datetime_sub now delta) as [cutoff|e]; [|cbn [fst snd]; unchanged].
    destruct disk; cbn [connect fst snd]; [|unchanged].
    cbn [delete_older messages sqlite_sequence].
    pose proof (max_rowid_filter
                  (fun r => negb (timestamp r <? cutoff)) (messages db)).
    split; [lia|split; [lia|discriminate]].
Qed.

Lemma perform_all_ids (cs : list Calls.call) :
  forall db : database,
    sequence_covers db ->
    StronglySorted Z.lt (snd (Calls.perform_all cs db))
    /\ Forall (fun i => sqlite_sequence db < i) (snd (Calls.perform_all cs db)).
Proof.
  induction cs as [|c cs IH]; intros db Hc; cbn [Calls.perform_all].
  { cbn. split; constructor. }
  destruct (perform_sequence c Hc) as (Hc1 & Hle & Hid).
  destruct (Calls.perform c db) as [db1 assigned]. cbn [fst snd] in *.
  destruct (IH db1 Hc1) as [Hs Hf].
  destruct (Calls.perform_all cs db1) as [db2 ids]. cbn [fst snd] in *.
  assert (Hf' : Forall (fun i => sqlite_sequence db < i) ids).
  { eapply Forall_impl; [|exact Hf]. cbn. intros; lia. }
  destruct assigned as [i|]; [|split; assumption].
  destruct (Hid i eq_refl) as [Hlt Heq]. split.
  - constructor; [assumption|]. rewrite Heq in Hf. exact Hf.
  - constructor; assumption.
Qed.

Lemma StronglySorted_lt_NoDup (l : list Z) : StronglySorted Z.lt l -> NoDup l.
Proof.
  induction 1 as [|x l _ IH Hx]; constructor; [|assumption].
  intros Hin. rewrite Forall_forall in Hx. specialize (Hx x Hin). lia.
Qed.

Example ids_after_clear :
  snd (Calls.perform_all
         [Calls.store_message true 10 (s_ "10.0.0.1") 4000 (b_ "a");
          Calls.store_message true 11 (s_ "10.0.0.1") 4000 (b_ "b");
          Calls.clear_messages true;
          Calls.store_message true 12 (s_ "10.0.0.1") 4000 (b_ "c");
          Calls.delete_old_messages true 20 0;
          Calls.store_message true 21 (s_ "10.0.0.1") 4000 (b_ "d")]
         empty)
  = [1; 2; 3; 4].
Proof. reflexivity. Qed.

(** C8.  Over every sequence of calls on the store (inserts, queries,
    counts, purges by age, bulk clears, failing or not), the ids handed out
    by the inserts are strictly increasing in the order of the inserts,
    hence pairwise distinct, and each one is larger than every id present
    in the table or recorded in the sequence before the calls began: no id
    is handed out twice, also once its record has been purged or cleared. *)
Theorem ids_increasing_never_reused (cs : list Calls.call) (db : database) :
  sequence_covers db ->
  let ids := snd (Calls.perform_all cs db) in
  StronglySorted Z.lt ids
  /\ NoDup ids
  /\ Forall (fun i => forall r, In r (messages db) -> id r < i) ids.
Proof.
  intros Hc ids. destruct (perform_all_ids cs Hc) as [Hs Hf].
  fold ids in Hs, Hf. repeat split.
  - exact Hs.
  - now apply StronglySorted_lt_NoDup.
  - eapply Forall_impl; [|exact Hf]. cbn. intros i Hi r Hr.
    apply max_rowid_ge in Hr. unfold sequence_covers in Hc. lia.
Qed.

Lemma ids_increasing_never_reused_witness :
  StronglySorted Z.lt [1; 2; 3].
Proof.
  assert (Hc : sequence_covers empty) by (unfold sequence_covers; simpl; lia).
  exact (proj1 (@ids_increasing_never_reused
                  [Calls.store_message true 10 (s_ "10.0.0.1") 4000 (b_ "a");
                   Calls.clear_messages true;
                   Calls.store_message true 12 (s_ "10.0.0.1") 4000 (b_ "b");
                   Calls.delete_old_messages true 20 0;
                   Calls.store_message true 21 (s_ "10.0.0.1") 4000 (b_ "c")]
                  empty Hc)).
Defined.

(** ** The store: purge by age *)

Lemma len_filter_split {A : Type} (p : A -> bool) (l : list A) :
  len (filter p l) + len (filter (fun x => negb (p x)) l) = len l.
Proof.
  unfold len. rewrite <- Nat2Z.inj_add. f_equal.
  induction l as [|x l IH]; simpl; [reflexivity|].
  destruct (p x); simpl; lia.
Qed.

Lemma filter_none {A : Type} (p : A -> bool) (l : list A) :
  Forall (fun x => p x = false) l -> filter p l = [].
Proof.
  induction 1 as [|x l Hx _ IH]; simpl; [reflexivity|]. now rewrite Hx.
Qed.

Lemma delete_old_messages_ok (now : datetime) (delta : timedelta)
      (db : database) :
  0 <= delta <= now -> now <= datetime_max ->
  MessageStorage.delete_old_messages true now delta db
  = Ok (count_older (now - delta) db, delete_older (now - delta) db).
Proof.
  intros Hd Hn. unfold MessageStorage.delete_old_messages, datetime_sub, bind.
  replace ((0 <=? now - delta) && (now - delta <=? datetime_max)) with true.
  - reflexivity.
  - symmetry. apply andb_true_iff. split; apply Z.leb_le; lia.
Qed.

Example purge_everything :
  MessageStorage.delete_old_messages
    true 30 0
    (mkDb [mkRow 1 10 (s_ "192.168.1.100") 54321 (b_ "Message 1")
                 (Some (s_ "Message 1")) 9;
           mkRow 2 20 (s_ "192.168.1.101") 54322 (b_ "Message 2")
                 (Some (s_ "Message 2")) 9] 2)
  = Ok (2, mkDb [] 2).
Proof. reflexivity. Qed.

(** C3, as the code has it.  For every age that is not negative and does
    not reach back before the first representable instant, the purge
    succeeds, keeps exactly the records whose timestamp is not strictly
    earlier than [now - age], in their order, leaves the sequence value
    alone, and returns the number of records it removed, which is the
    number of records strictly earlier than [now - age].  With an age of
    zero and every record present stamped strictly before [now], nothing is
    left, the returned value is the former record count and the count is 0
    afterwards. *)
Theorem delete_old_messages_removes_strictly_older
        (now : datetime) (delta : timedelta) (db : database) :
  0 <= delta <= now -> now <= datetime_max ->
  exists (count : Z) (db' : database),
    MessageStorage.delete_old_messages true now delta db = Ok (count, db')
    /\ messages db'
       = filter (fun r => negb (timestamp r <? now - delta)) (messages db)
    /\ (forall r, In r (messages db')
                  <-> In r (messages db) /\ ~ timestamp r < now - delta)
    /\ sqlite_sequence db' = sqlite_sequence db
    /\ count = len (filter (fun r => timestamp r <? now - delta) (messages db))
    /\ count = len (messages db) - len (messages db')
    /\ (delta = 0 ->
        Forall (fun r => timestamp r < now) (messages db) ->
        messages db' = []
        /\ count = len (messages db)
        /\ MessageStorage.get_message_count true db' = Ok 0).
Proof.
  intros Hd Hn.
  exists (count_older (now - delta) db), (delete_older (now - delta) db).
  split; [now apply delete_old_messages_ok|].
  unfold count_older, delete_older. cbn [messages sqlite_sequence].
  split; [reflexivity|]. split.
  { intros r. rewrite filter_In, negb_true_iff, Z.ltb_ge. intuition lia. }
  split; [reflexivity|]. split; [reflexivity|]. split.
  { pose proof (len_filter_split (fun r => timestamp r <? now - delta)
                                 (messages db)) as L.
    cbv beta in L. lia. }
  intros -> Hall. rewrite Z.sub_0_r.
  assert (E : filter (fun r => negb (timestamp r <? now)) (messages db) = []).
  { apply filter_none. eapply Forall_impl; [|exact Hall].
    cbn. intros r Hr. apply negb_false_iff, Z.ltb_lt. exact Hr. }
  pose proof (len_filter_split (fun r => timestamp r <? now) (messages db)) as L.
  cbv beta in L. rewrite E in L |- *. unfold MessageStorage.get_message_count, count_all.
  cbn [connect bind messages]. unfold len in *. cbn [List.length] in *.
  split; [reflexivity|]. split; [lia|reflexivity].
Qed.

Lemma delete_old_messages_removes_strictly_older_witness :
  exists (count : Z) (db' : database),
    MessageStorage.delete_old_messages
      true 30 0 (mkDb [mkRow 1 10 (s_ "10.0.0.1") 4000 (b_ "a")
                             (Some (s_ "a")) 1] 1)
    = Ok (count, db')
    /\ messages db' = [].
Proof.
  destruct (@delete_old_messages_removes_strictly_older
              30 0 (mkDb [mkRow 1 10 (s_ "10.0.0.1") 4000 (b_ "a")
                                (Some (s_ "a")) 1] 1))
    as (count & db' & H & _ & _ & _ & _ & _ & Hz).
  - lia.
  - unfold datetime_max. lia.
  - exists count, db'. split; [exact H|].
    apply Hz; [reflexivity|]. repeat constructor.
Defined.

(** C3 as it is written fails on two accounts.  A record stamped at the
    very instant the purge reads the clock is not strictly earlier than it
    and survives an age of zero; and an age that reaches back before the
    first representable instant makes the subtraction raise, so that
    nothing is returned. *)
Lemma delete_old_messages_age_zero_not_total :
  ~ (forall (now : datetime) (db : database),
        0 <= now <= datetime_max ->
        exists db' : database,
          MessageStorage.delete_old_messages true now 0 db
          = Ok (len (messages db), db')
          /\ MessageStorage.get_message_count true db' = Ok 0)
  /\ ~ (forall (now : datetime) (delta : timedelta) (db : database),
           0 <= now <= datetime_max ->
           0 <= delta ->
           exists (count : Z) (db' : database),
             MessageStorage.delete_old_messages true now delta db
             = Ok (count, db')).
Proof.
  split.
  - intros H.
    destruct (H 100 (mkDb [mkRow 1 100 (s_ "10.0.0.1") 4000 (b_ "a")
                                 (Some (s_ "a")) 1] 1))
      as (db' & Hdel & _).
    + unfold datetime_max. lia.
    + vm_compute in Hdel. discriminate.
  - intros H.
    destruct (H 100 101 empty) as (count & db' & Hdel).
    + unfold datetime_max. lia.
    + lia.
    + vm_compute in Hdel. discriminate.
Qed.

(** ** The store: queries *)

Lemma insert_desc_perm (r : row) (l : list row) :
  Permutation (r :: l) (insert_desc r l).
Proof.
  induction l as [|x l IH]; simpl; [apply Permutation_refl|].
  destruct (timestamp r <? timestamp x).
  - eapply Permutation_trans; [apply perm_swap|]. now apply perm_skip.
  - apply Permutation_refl.
Qed.

Lemma order_by_timestamp_desc_perm (l : list row) :
  Permutation l (order_by_timestamp_desc l).
Proof.
  induction l as [|r l IH]; simpl; [constructor|].
  eapply Permutation_trans; [|apply insert_desc_perm]. now apply perm_skip.
Qed.

Lemma insert_desc_sorted (r : row) (l : list row) :
  StronglySorted newest_first l -> StronglySorted newest_first (insert_desc r l).
Proof.
  induction 1 as [|x l Hs IH Hx]; simpl.
  - repeat constructor.
  - destruct (timestamp r <? timestamp x) eqn:E; to_prop.
    + constructor; [assumption|].
      eapply Permutation_Forall; [apply insert_desc_perm|].
      constructor; [unfold newest_first; lia|assumption].
    + constructor; [now constructor|].
      constructor; [unfold newest_first; lia|].
      eapply Forall_impl; [|exact Hx]. unfold newest_first. intros; lia.
Qed.

Lemma order_by_timestamp_desc_sorted (l : list row) :
  StronglySorted newest_first (order_by_timestamp_desc l).
Proof.
  induction l as [|r l IH]; simpl; [constructor|].
  now apply insert_desc_sorted.
Qed.




Lemma StronglySorted_map_messages (l : list row) :
  StronglySorted newest_first l ->
  StronglySorted
    (fun x y => MessageStorage.m_timestamp y <= MessageStorage.m_timestamp x)
    (map MessageStorage.to_message l).
Proof.
  induction 1 as [|x l _ IH Hx]; simpl; constructor; [assumption|].
  apply Forall_map. exact Hx.
Qed.

Lemma str_eqb_refl (s : str) : str_eqb s s = true.
Proof. induction s as [|c s IH]; simpl; [reflexivity|]. now rewrite Z.eqb_refl. Qed.

Lemma str_eqb_eq (a b : str) : str_eqb a b = true <-> a = b.
Proof.
  split; [|intros ->; apply str_eqb_refl].
  revert b. induction a as [|x a IH]; destruct b as [|y b]; simpl;
    try discriminate; [reflexivity|].
  intros H. to_prop. f_equal; auto.
Qed.


Lemma parse_build_query (limit offset : option Z) (a : option str)
      (p : option Z) :
  (MessageStorage.truthy_int offset = true ->
   MessageStorage.truthy_int limit = true) ->
  parse (MessageStorage.build_query limit offset a p)
  = Some ((if MessageStorage.truthy_str a
           then [client_ip_eq (MessageStorage.get_str a)] else [])
          ++ (if MessageStorage.truthy_int p
              then [client_port_eq (MessageStorage.get_int p)] else []),
          if MessageStorage.truthy_int limit
          then Some (MessageStorage.get_int limit,
                     if MessageStorage.truthy_int offset
                     then MessageStorage.get_int offset else 0)
          else None).
Proof.
  intros H. unfold MessageStorage.build_query.
  destruct (MessageStorage.truthy_str a), (MessageStorage.truthy_int p),
    (MessageStorage.truthy_int limit), (MessageStorage.truthy_int offset);
    try reflexivity; discriminate (H eq_refl).
Qed.

(** A non-zero offset without a limit gives a statement the engine rejects. *)
Lemma parse_offset_without_limit (limit offset : option Z) (a : option str)
      (p : option Z) :
  MessageStorage.truthy_int limit = false ->
  MessageStorage.truthy_int offset = true ->
  parse (MessageStorage.build_query limit offset a p) = None.
Proof.
  intros Hl Ho. unfold MessageStorage.build_query. rewrite Hl, Ho.
  destruct (MessageStorage.truthy_str a), (MessageStorage.truthy_int p);
    reflexivity.
Qed.

Lemma by_rowid_orders : orders_by_timestamp by_rowid.
Proof.
  intros q l. split;
    [apply order_by_timestamp_desc_perm|apply order_by_timestamp_desc_sorted].
Qed.

Lemma reversing_orders : orders_by_timestamp reversing.
Proof.
  intros q l. unfold reversing. destruct (existsb _ q); split;
    try apply order_by_timestamp_desc_sorted;
    try apply order_by_timestamp_desc_perm.
  eapply Permutation_trans;
    [apply Permutation_rev|apply order_by_timestamp_desc_perm].
Qed.

(** Arguments that fit are bound without an error. *)
Lemma bind_build_query (limit offset : option Z) (a : option str)
      (p : option Z) :
  fits limit -> fits offset -> encodable a -> fits p ->
  bind_parameters (MessageStorage.build_query limit offset a p) = Ok tt.
Proof.
  intros Hl Ho Ha Hp.
  assert (L : bind_int (MessageStorage.get_int limit) = Ok tt).
  { destruct limit as [n|]; [|reflexivity]. unfold bind_int.
    cbn [MessageStorage.get_int]. now rewrite (Hl n eq_refl). }
  assert (O : bind_int (MessageStorage.get_int offset) = Ok tt).
  { destruct offset as [n|]; [|reflexivity]. unfold bind_int.
    cbn [MessageStorage.get_int]. now rewrite (Ho n eq_refl). }
  assert (P : bind_int (MessageStorage.get_int p) = Ok tt).
  { destruct p as [n|]; [|reflexivity]. unfold bind_int.
    cbn [MessageStorage.get_int]. now rewrite (Hp n eq_refl). }
  assert (A : bind_text (MessageStorage.get_str a) = Ok tt).
  { destruct a as [t|]; [|reflexivity]. unfold bind_text.
    cbn [MessageStorage.get_str]. now rewrite (Ha t eq_refl). }
  unfold MessageStorage.build_query.
  destruct (MessageStorage.truthy_str a), (MessageStorage.truthy_int p),
    (MessageStorage.truthy_int limit), (MessageStorage.truthy_int offset);
    cbn [app bind_parameters bind_clause bind_conditions bind_condition];
    rewrite ?A, ?P, ?L, ?O; reflexivity.
Qed.

(** What a query that compiles and binds returns. *)
Lemma get_messages_ok (E : engine) (limit offset : option Z)
      (a : option str) (p : option Z) (db : database) :
  (MessageStorage.truthy_int offset = true ->
   MessageStorage.truthy_int limit = true) ->
  bind_parameters (MessageStorage.build_query limit offset a p) = Ok tt ->
  MessageStorage.get_messages E true limit offset a p db
  = Ok (map MessageStorage.to_message
            (let every :=
               E (MessageStorage.build_query limit offset a p)
                 (filter
                    (holds_all
                       ((if MessageStorage.truthy_str a
                         then [client_ip_eq (MessageStorage.get_str a)]
                         else [])
                        ++ (if MessageStorage.truthy_int p
                            then [client_port_eq (MessageStorage.get_int p)]
                            else [])))
                    (messages db)) in
             if MessageStorage.truthy_int limit
             then limit_offset
                    (MessageStorage.get_int limit)
                    (if MessageStorage.truthy_int offset
                     then MessageStorage.get_int offset else 0) every
             else every)).
Proof.
  intros Ho Hb. unfold MessageStorage.get_messages, select.
  cbn [connect bind]. rewrite parse_build_query by assumption.
  rewrite Hb. cbn [bind]. cbv zeta.
  destruct (MessageStorage.truthy_int limit); reflexivity.
Qed.

(** What a query that returns has returned. *)
Lemma get_messages_inv (E : engine) (disk : bool) (limit offset : option Z)
      (a : option str) (p : option Z) (db : database)
      (ms : list MessageStorage.message) :
  MessageStorage.get_messages E disk limit offset a p db = Ok ms ->
  disk = true
  /\ (MessageStorage.truthy_int offset = true ->
      MessageStorage.truthy_int limit = true)
  /\ bind_parameters (MessageStorage.build_query limit offset a p) = Ok tt.
Proof.
  unfold MessageStorage.get_messages, select. intros H.
  destruct disk; cbn [connect bind] in H; [|discriminate].
  split; [reflexivity|].
  destruct (MessageStorage.truthy_int limit) eqn:L,
           (MessageStorage.truthy_int offset) eqn:O;
    try (rewrite parse_offset_without_limit in H by assumption;
         discriminate);
    (split; [intros; reflexivity || assumption|]);
    (rewrite parse_build_query in H by (rewrite ?L, ?O; congruence));
    (destruct (bind_parameters (MessageStorage.build_query limit offset a p))
       as [[]|x]; [reflexivity|discriminate]).
Qed.


Lemma NoDup_map_inj {A B : Type} (f : A -> B) (l : list A) (x y : A) :
  NoDup (map f l) -> In x l -> In y l -> f x = f y -> x = y.
Proof.
  induction l as [|z l IH]; intros Hnd Hx Hy E; [contradiction|].
  cbn [map] in Hnd. inversion Hnd as [|? ? Hz Hl]; subst.
  destruct Hx as [->|Hx], Hy as [->|Hy]; try reflexivity.
  - elim Hz. rewrite E. now apply in_map.
  - elim Hz. rewrite <- E. now apply in_map.
  - now apply IH.
Qed.

(** Records received at distinct instants have one order, most recent
    first. *)
Lemma ordered_unique (l : list row) :
  NoDup (map timestamp l) ->
  forall rows1 rows2 : list row,
    Spec.ordered l rows1 -> Spec.ordered l rows2 -> rows1 = rows2.
Proof.
  intros Hnd rows1. revert l Hnd.
  induction rows1 as [|x rows1 IH]; intros l Hnd rows2 [P1 S1] [P2 S2].
  - apply Permutation_sym, Permutation_nil in P1. subst l.
    now apply Permutation_nil in P2.
  - destruct rows2 as [|y rows2].
    { apply Permutation_sym, Permutation_nil in P2. subst l.
      apply Permutation_nil in P1. discriminate. }
    assert (P : Permutation (x :: rows1) (y :: rows2))
      by (eapply Permutation_trans; [apply Permutation_sym, P1|exact P2]).
    inversion S1 as [|? ? S1' F1]; subst.
    inversion S2 as [|? ? S2' F2]; subst.
    assert (Hx : In x l)
      by (eapply Permutation_in; [apply Permutation_sym, P1|now left]).
    assert (Hy : In y l)
      by (eapply Permutation_in; [apply Permutation_sym, P2|now left]).
    assert (Exy : x = y).
    { apply (NoDup_map_inj timestamp l); try assumption.
      assert (timestamp y <= timestamp x).
      { assert (In y (x :: rows1))
          by (eapply Permutation_in; [apply Permutation_sym, P|now left]).
        destruct H as [->|H]; [lia|].
        rewrite Forall_forall in F1. exact (F1 _ H). }
      assert (timestamp x <= timestamp y).
      { assert (In x (y :: rows2))
          by (eapply Permutation_in; [exact P|now left]).
        destruct H0 as [->|H0]; [lia|].
        rewrite Forall_forall in F2. exact (F2 _ H0). }
      lia. }
    subst y. f_equal.
    apply (IH rows1).
    + assert (Hnd' : NoDup (map timestamp (x :: rows1)))
        by (eapply Permutation_NoDup; [apply Permutation_map, P1|exact Hnd]).
      cbn [map] in Hnd'. now inversion Hnd'.
    + split; [apply Permutation_refl|assumption].
    + split; [|assumption]. now apply Permutation_cons_inv in P.
Qed.

Example query_most_recent_first :
  option_map (map MessageStorage.m_id)
             (match MessageStorage.get_messages by_rowid true None None None
                                                None sample_db with
              | Ok l => Some l
              | Raise _ => None
              end)
  = Some [4; 3; 2; 1].
Proof. reflexivity. Qed.

Example query_by_address :
  option_map (map MessageStorage.m_id)
             (match MessageStorage.get_messages
                      by_rowid true None None (Some (s_ "192.168.1.100")) None
                      sample_db with
              | Ok l => Some l
              | Raise _ => None
              end)
  = Some [3; 1].
Proof. reflexivity. Qed.

Example query_binary_as_hex :
  option_map (map MessageStorage.m_data)
             (match MessageStorage.get_messages by_rowid true (Some 1) None
                                                None None sample_db with
              | Ok l => Some l
              | Raise _ => None
              end)
  = Some [s_ "0001ff"].
Proof. reflexivity. Qed.





(** The statement leaves the order among records of the same timestamp to
    the engine.  Ordering by timestamp does not by itself make the pages
    of such records fit together: an engine that orders every result by
    timestamp, and takes ties differently for a statement with an OFFSET,
    gives pages (2, 0) and (2, 2) of four records of one timestamp that
    do not make up the page (4, 0). *)
Lemma pages_of_ties_depend_on_engine :
  orders_by_timestamp reversing
  /\ (exists p1 p2 p4 : list MessageStorage.message,
         MessageStorage.get_messages reversing true (Some 2) (Some 0)
                                     None None tied_db = Ok p1
         /\ MessageStorage.get_messages reversing true (Some 2) (Some 2)
                                        None None tied_db = Ok p2
         /\ MessageStorage.get_messages reversing true (Some 4) (Some 0)
                                        None None tied_db = Ok p4
         /\ p1 ++ p2 <> p4).
Proof.
  split; [exact reversing_orders|].
  do 3 eexists. split; [reflexivity|]. split; [reflexivity|].
  split; [reflexivity|]. vm_compute. discriminate.
Qed.




(** ** The listener *)

Import UDPListener.

Lemma store_message_raises (disk : bool) (now : datetime) (ip : str)
      (port : Z) (payload : bytes) (db : database) (x : exn) :
  MessageStorage.store_message disk now ip port payload db = Raise x ->
  x = OperationalError.
Proof.
  unfold MessageStorage.store_message, connect, insert, bind.
  destruct disk; [|congruence].
  destruct (Z.max (sqlite_sequence db) (max_rowid (messages db))
            <? largest_rowid); congruence.
Qed.

Lemma store_message_succeeds (now : datetime) (ip : str) (port : Z)
      (payload : bytes) (db : database) :
  Z.max (sqlite_sequence db) (max_rowid (messages db)) < largest_rowid ->
  exists mid db',
    MessageStorage.store_message true now ip port payload db = Ok (mid, db').
Proof.
  intros H. unfold MessageStorage.store_message, connect, insert, bind.
  apply Z.ltb_lt in H. rewrite H. eauto.
Qed.

Lemma slice_to_all {A : Type} (n : Z) (l : list A) :
  len l <= n -> slice_to n l = l.
Proof.
  unfold len, slice_to. intros H. apply firstn_all2. lia.
Qed.

Lemma len_app {A : Type} (l1 l2 : list A) : len (l1 ++ l2) = len l1 + len l2.
Proof. unfold len. rewrite length_app. lia. Qed.

Example echo_of_empty_datagram :
  sent (fst (receive_one
               (mkEnv (datagram [] (s_ "127.0.0.1", 40000)) 5 true true)
               (mkListener empty (Some sock_open) true [] [])))
  = [(b_ "ECHO:", (s_ "127.0.0.1", 40000))].
Proof. reflexivity. Qed.

Example echo_of_binary_datagram :
  receive_one (mkEnv (datagram [x00; x01; xff] (s_ "127.0.0.1", 40000))
                     5 true true)
              (mkListener empty (Some sock_open) true [] [])
  = (mkListener
       (mkDb [mkRow 1 5 (s_ "127.0.0.1") 40000 [x00; x01; xff] None 3] 1)
       (Some sock_open) true
       [(b_ "ECHO:" ++ [x00; x01; xff], (s_ "127.0.0.1", 40000))]
       [received 1 (s_ "127.0.0.1", 40000) (preview_binary 3); echoed 1],
     loop_head).
Proof. reflexivity. Qed.

(** C1, as the code has it.  For every datagram received on the open socket
    from a peer, with the store writable, a rowid left and the network
    accepting the reply, the pass sends exactly one datagram, to that peer:
    the prefix followed by the first 4096 bytes of the payload, which is
    the whole payload, and a reply of its length plus 5, when the payload
    has at most 4096 bytes; the loop then goes on. *)
Theorem echo_reply (payload : bytes) (peer : address) (now : datetime)
        (l : listener) :
  sock l = Some sock_open ->
  Z.max (sqlite_sequence (storage l)) (max_rowid (messages (storage l)))
  < largest_rowid ->
  let after := receive_one (mkEnv (datagram payload peer) now true true) l in
  sent (fst after) = sent l ++ [(b_ "ECHO:" ++ slice_to 4096 payload, peer)]
  /\ snd after = loop_head
  /\ (len payload <= 4096 ->
      sent (fst after) = sent l ++ [(b_ "ECHO:" ++ payload, peer)]
      /\ len (b_ "ECHO:" ++ payload) = len payload + 5).
Proof.
  intros Hs Hroom after.
  assert (E : sent (fst after)
              = sent l ++ [(b_ "ECHO:" ++ slice_to 4096 payload, peer)]
              /\ snd after = loop_head).
  { subst after. unfold receive_one. cbn [incoming utcnow disk network].
    rewrite Hs. cbn [recvfrom]. destruct peer as [ip port].
    destruct (@store_message_succeeds now ip port (slice_to 4096 payload) _ Hroom)
      as (mid & db' & ->).
    cbn [set_storage sock sendto]. rewrite Hs. cbn. split; reflexivity. }
  destruct E as [E1 E2]. repeat split; try assumption.
  - rewrite E1. now rewrite slice_to_all.
  - rewrite len_app. change (len (b_ "ECHO:")) with 5. lia.
Qed.

Lemma echo_reply_witness :
  sent (fst (receive_one
               (mkEnv (datagram (b_ "Hello, World!") (s_ "127.0.0.1", 40000))
                      5 true true)
               (mkListener empty (Some sock_open) true [] [])))
  = [] ++ [(b_ "ECHO:" ++ b_ "Hello, World!", (s_ "127.0.0.1", 40000))].
Proof.
  refine (proj1 (proj2 (proj2 (@echo_reply
                                 (b_ "Hello, World!") (s_ "127.0.0.1", 40000) 5
                                 (mkListener empty (Some sock_open) true [] [])
                                 eq_refl _)) _)).
  - vm_compute. reflexivity.
  - vm_compute. discriminate.
Defined.

(** C1 as it is written fails for the datagrams longer than the receive
    buffer: of 4097 bytes sent, 4096 come back after the prefix. *)
Lemma echo_reply_truncated :
  let payload := repeat x00 4097 in
  let peer := (s_ "127.0.0.1", 40000) in
  let after :=
    receive_one (mkEnv (datagram payload peer) 5 true true)
                (mkListener empty (Some sock_open) true [] []) in
  len payload <= 65507
  /\ sent (fst after) <> [(b_ "ECHO:" ++ payload, peer)]
  /\ sent (fst after) = [(b_ "ECHO:" ++ repeat x00 4096, peer)].
Proof.
  cbv zeta. split; [vm_compute; discriminate|]. split.
  - intros H.
    apply (f_equal (map (fun d : bytes * address => List.length (fst d)))) in H.
    vm_compute in H. discriminate.
  - vm_compute. reflexivity.
Qed.

Example store_failure_no_echo :
  receive_one (mkEnv (datagram (b_ "hi") (s_ "127.0.0.1", 40000))
                     5 false true)
              (mkListener empty (Some sock_open) true [] [])
  = (mkListener empty (Some sock_open) true []
                [processing_error OperationalError],
     loop_head).
Proof. reflexivity. Qed.

Example send_failure_ends_loop :
  receive_one (mkEnv (datagram (b_ "hi") (s_ "127.0.0.1", 40000))
                     5 true false)
              (mkListener empty (Some sock_open) true [] [])
  = (mkListener
       (mkDb [mkRow 1 5 (s_ "127.0.0.1") 40000 (b_ "hi") (Some (s_ "hi")) 2] 1)
       (Some sock_closed) true [] [socket_error],
     finished).
Proof. reflexivity. Qed.

(** C5, as the code has it.  For every datagram received on the open
    socket, the insert comes before the echo: a reply leaves only in a pass
    whose insert succeeded, and the store then holds the record.  When the
    insert fails, no reply leaves, the store is as before, the failure is
    printed and the loop goes on.  When the insert succeeds and the reply
    cannot be sent, the record stays stored and no reply leaves; the
    failure is printed while the listener is running, and the pass leaves
    the loop and closes the socket. *)
Theorem store_then_echo (e : env) (payload : bytes) (ip : str) (port : Z)
        (l : listener) :
  sock l = Some sock_open ->
  incoming e = datagram payload (ip, port) ->
  let data := slice_to 4096 payload in
  let stored :=
    MessageStorage.store_message (disk e) (utcnow e) ip port data
                                 (storage l) in
  let after := receive_one e l in
  (sent (fst after) <> sent l ->
   exists mid db', stored = Ok (mid, db') /\ storage (fst after) = db')
  /\ (forall x, stored = Raise x ->
        after = (print (processing_error x) l, loop_head)
        /\ sent (fst after) = sent l
        /\ storage (fst after) = storage l)
  /\ (forall mid db', stored = Ok (mid, db') -> network e = false ->
        storage (fst after) = db'
        /\ sent (fst after) = sent l
        /\ stdout (fst after)
           = stdout l ++ (if running l then [socket_error] else [])
        /\ sock (fst after) = Some sock_closed
        /\ snd after = finished)
  /\ (forall mid db', stored = Ok (mid, db') -> network e = true ->
        storage (fst after) = db'
        /\ sent (fst after) = sent l ++ [(b_ "ECHO:" ++ data, (ip, port))]
        /\ snd after = loop_head).
Proof.
  intros Hs Hin data stored after. subst stored after.
  unfold receive_one. rewrite Hs, Hin. cbn [recvfrom]. fold data.
  destruct (MessageStorage.store_message (disk e) (utcnow e) ip port data
                                         (storage l))
    as [[mid db']|x] eqn:E.
  - cbn [set_storage sock]. rewrite Hs. cbn [sendto].
    destruct (network e) eqn:N.
    + cbn [fst snd emit print sent storage stdout sock running].
      split; [intros _; eauto|]. split; [discriminate|].
      split; [discriminate|].
      intros m d Hm _. injection Hm as _ <-. repeat split.
    + unfold handle, on_socket_error, finally, close.
      assert (F : forall b : bool,
                 sock (if b then print socket_error (set_storage db' l)
                       else set_storage db' l) = Some sock_open)
        by (intros [|]; exact Hs).
      rewrite F. change (running (set_storage db' l)) with (running l).
      split; [intros H; elim H; now destruct (running l)|].
      split; [discriminate|]. split; [|discriminate].
      intros m d Hm _. injection Hm as _ <-.
      destruct (running l); cbn; rewrite ?app_nil_r; repeat split.
  - pose proof (store_message_raises _ _ _ _ _ _ E) as ->.
    cbn [handle on_exception fst snd print sent storage].
    split; [intros H; now elim H|].
    split; [|split; discriminate].
    intros x Hx. injection Hx as <-. repeat split.
Qed.

Lemma store_then_echo_witness :
  receive_one (mkEnv (datagram (b_ "hi") (s_ "127.0.0.1", 40000))
                     5 false true)
              (mkListener empty (Some sock_open) true [] [])
  = (print (processing_error OperationalError)
           (mkListener empty (Some sock_open) true [] []),
     loop_head).
Proof.
  refine (proj1 (proj1 (proj2 (@store_then_echo
                          (mkEnv (datagram (b_ "hi") (s_ "127.0.0.1", 40000))
                                 5 false true)
                          (b_ "hi") (s_ "127.0.0.1") 40000
                          (mkListener empty (Some sock_open) true [] [])
                          eq_refl eq_refl)) OperationalError eq_refl)).
Defined.

(** C5 as it is written fails in its last part: a reply that cannot be sent
    after a successful insert ends the receive loop. *)
Lemma echo_failure_leaves_loop :
  ~ (forall (e : env) (payload : bytes) (peer : address) (l : listener)
            (mid : Z) (db' : database),
        sock l = Some sock_open ->
        running l = true ->
        incoming e = datagram payload peer ->
        MessageStorage.store_message (disk e) (utcnow e) (fst peer) (snd peer)
                                     payload (storage l)
        = Ok (mid, db') ->
        network e = false ->
        snd (receive_one e l) = loop_head).
Proof.
  intros H.
  specialize (H (mkEnv (datagram (b_ "hi") (s_ "127.0.0.1", 40000))
                       5 true false)
                (b_ "hi") (s_ "127.0.0.1", 40000)
                (mkListener empty (Some sock_open) true [] [])
                1
                (mkDb [mkRow 1 5 (s_ "127.0.0.1") 40000 (b_ "hi")
                             (Some (s_ "hi")) 2] 1)
                eq_refl eq_refl eq_refl eq_refl eq_refl).
  vm_compute in H. discriminate.
Qed.




(** ** The retention scheduler *)

Import UDPMonitor.

Lemma next_midnight_ok (now : datetime) :
  0 <= now -> now + one_day <= datetime_max ->
  next_midnight now = Ok (now + one_day - now mod one_day).
Proof.
  intros H0 H1. unfold next_midnight, at_midnight, datetime_add, bind.
  assert (D : 0 < one_day) by (unfold one_day; lia).
  pose proof (Z.mod_pos_bound now one_day D) as M.
  replace (now - now mod one_day <=? now) with true
    by (symmetry; apply Z.leb_le; lia).
  replace ((0 <=? now + one_day) && (now + one_day <=? datetime_max)) with true
    by (symmetry; apply andb_true_iff; split; apply Z.leb_le; lia).
  f_equal.
  replace ((now + one_day) mod one_day) with (now mod one_day); [reflexivity|].
  rewrite <- (Z.mul_1_l one_day) at 2. now rewrite Z.mod_add by lia.
Qed.

Lemma next_midnight_is_next (now : datetime) :
  0 <= now ->
  let next := now + one_day - now mod one_day in
  now < next
  /\ next - now <= one_day
  /\ next mod one_day = 0
  /\ (forall m, m mod one_day = 0 -> now < m -> next <= m).
Proof.
  intros H0 next. subst next. unfold one_day.
  repeat split.
  - Z.div_mod_to_equations. lia.
  - Z.div_mod_to_equations. lia.
  - Z.div_mod_to_equations. lia.
  - intros m Hm Hlt. Z.div_mod_to_equations. lia.
Qed.

Example noon_sleeps_half_a_day :
  actions (cleanup_pass 43200000000 true true 172800000000 one_day empty)
  = [sleep 43200000000; print nothing_to_delete].
Proof. reflexivity. Qed.

(** C6, as the code has it.  A pass that begins at [now] computes the next
    midnight strictly after [now], the earliest one, and sleeps the whole
    interval up to it: the first thing it does is that sleep, whatever
    becomes of the flag in the meantime, and it reads the flag only once
    the sleep has returned.  If the flag is then cleared, the pass leaves
    the loop without purging.  Otherwise it purges; a failure of the store
    is printed and followed by a sleep of the fixed retry delay of 3600
    seconds, the loop going on; a success is printed with the number of
    records deleted, zero included.  The sleep does not hold up the
    shutdown: [stop()] clears the flag and waits for the thread of the
    listener only, 2 seconds at most, and the exit of the interpreter
    waits for neither thread, both being daemons; so the shutdown takes 2
    seconds at most, however long the cleanup worker still sleeps. *)
Theorem cleanup_pass_sleeps_until_midnight
        (now : datetime) (running_after : bool) (disk : bool)
        (utcnow : datetime) (retention : timedelta) (db : database)
        (listener_ends_in cleanup_ends_in : option timedelta) :
  0 <= now -> now + one_day <= datetime_max ->
  exists next : datetime,
    next_midnight now = Ok next
    /\ now < next
    /\ next mod one_day = 0
    /\ (forall m, m mod one_day = 0 -> now < m -> next <= m)
    /\ (exists rest,
           actions (cleanup_pass now running_after disk utcnow retention db)
           = sleep (next - now) :: rest)
    /\ (running_after = false ->
        cleanup_pass now running_after disk utcnow retention db
        = mkOutcome [sleep (next - now)] db false)
    /\ (running_after = true ->
        forall x,
          MessageStorage.delete_old_messages disk utcnow retention db
          = Raise x ->
          cleanup_pass now running_after disk utcnow retention db
          = mkOutcome [sleep (next - now); print (cleanup_error x);
                       sleep retry_delay] db true)
    /\ (running_after = true ->
        forall count db',
          MessageStorage.delete_old_messages disk utcnow retention db
          = Ok (count, db') ->
          cleanup_pass now running_after disk utcnow retention db
          = mkOutcome [sleep (next - now);
                       print (if 0 <? count then deleted count
                              else nothing_to_delete)] db' true)
    /\ retry_delay = 3600 * 1000000
    /\ (let m := start listener_ends_in cleanup_ends_in in
        running (fst (stop m)) = false
        /\ cleanup_thread (fst (stop m)) = cleanup_thread m
        /\ exists w : timedelta,
            shutdown m = Some w
            /\ w = snd (stop m)
            /\ w <= join_timeout
            /\ (forall d, cleanup_ends_in = Some d -> join_timeout < d ->
                          w < d)).
Proof.
  intros H0 H1. exists (now + one_day - now mod one_day).
  destruct (next_midnight_is_next H0) as (Hlt & _ & Hmid & Hleast).
  set (next := now + one_day - now mod one_day) in *.
  pose proof (next_midnight_ok H0 H1) as Hn. fold next in Hn.
  assert (Hpos : (0 <? next - now) = true) by (apply Z.ltb_lt; lia).
  split; [exact Hn|]. split; [exact Hlt|]. split; [exact Hmid|].
  split; [exact Hleast|].
  unfold cleanup_pass. rewrite Hn, Hpos.
  split.
  { destruct running_after; cbn [negb].
    - destruct (MessageStorage.delete_old_messages disk utcnow retention db)
        as [[count db']|x]; eexists; reflexivity.
    - eexists; reflexivity. }
  split; [intros ->; reflexivity|].
  split; [intros -> x ->; reflexivity|].
  split; [intros -> count db' ->; reflexivity|].
  split; [reflexivity|].
  cbv zeta. unfold shutdown, stop, start. cbn [running listener_thread
    cleanup_thread fst snd exit_wait daemon].
  split; [reflexivity|]. split; [reflexivity|].
  eexists. split; [reflexivity|]. rewrite Z.add_0_r.
  split; [reflexivity|].
  assert (B : join join_timeout (mkThread true listener_ends_in)
              <= join_timeout).
  { unfold join. cbn [ends_in]. destruct listener_ends_in; lia. }
  split; [exact B|]. intros d _ Hd. lia.
Qed.

Lemma cleanup_pass_sleeps_until_midnight_witness :
  exists next : datetime,
    next_midnight 43200000000 = Ok next /\ 43200000000 < next.
Proof.
  destruct (@cleanup_pass_sleeps_until_midnight
              43200000000 true true 43200000000 one_day empty
              (Some 0) (Some 43200000000))
    as (next & Hn & Hlt & _).
  - lia.
  - unfold one_day, datetime_max. lia.
  - exists next. split; assumption.
Defined.

(** C6 as it is written fails in that a stop signal does not end the
    sleep and the worker is not cancelled: in a pass that begins at noon,
    the flag being cleared during the sleep, the worker still sleeps the
    twelve hours up to midnight and only then leaves the loop; the sleep
    is the same as when the flag stays set. *)
Lemma sleep_not_cut_short_by_stop :
  let now := 43200000000 in
  let next := 86400000000 in
  next_midnight now = Ok next
  /\ cleanup_pass now false true 172800000000 one_day empty
     = mkOutcome [sleep (next - now)] empty false
  /\ actions (cleanup_pass now true true 172800000000 one_day empty)
     = [sleep (next - now); print nothing_to_delete]
  /\ ends_in (cleanup_thread (fst (stop (start (Some 0) (Some (next - now))))))
     = Some (next - now).
Proof. cbv zeta. repeat split; reflexivity. Qed.

(** ** Purge and inserts from several threads *)

Import Threads.

Lemma nth_error_update_eq {A : Type} (x : A) (l : list A) :
  forall i y, nth_error l i = Some y -> nth_error (update i x l) i = Some x.
Proof.
  induction l as [|z l IH]; intros [|i] y H; simpl in *; try discriminate.
  - reflexivity.
  - eapply IH, H.
Qed.

Lemma nth_error_update_neq {A : Type} (x : A) (l : list A) :
  forall i j, i <> j -> nth_error (update i x l) j = nth_error l j.
Proof.
  induction l as [|z l IH]; intros [|i] [|j] H; simpl; try reflexivity.
  - now elim H.
  - apply IH. congruence.
Qed.

Lemma purged_update (t' : thread) (l : list thread) :
  forall i t,
    nth_error l i = Some t ->
    exists a b,
      purged l = a ++ removed_by t ++ b
      /\ purged (update i t' l) = a ++ removed_by t' ++ b.
Proof.
  unfold purged.
  induction l as [|z l IH]; intros [|i] t H; simpl in *; try discriminate.
  - injection H as ->. exists [], (flat_map removed_by l). split; reflexivity.
  - destruct (IH i t H) as (a & b & E1 & E2).
    exists (removed_by z ++ a), b. rewrite E1, E2, <- !app_assoc.
    split; reflexivity.
Qed.

Lemma removed_by_in_purged (l : list thread) (t : thread) (r : row) :
  In t l -> In r (removed_by t) -> In r (purged l).
Proof.
  intros Ht Hr. unfold purged. apply in_flat_map. eauto.
Qed.

(** How a step moves the lock. *)
Lemma step_thread_lock (me : nat) (clock : datetime) (lk lk' : option nat)
      (db db' : database) (t t' : thread) :
  step_thread me clock lk db t = Some (t', lk', db') ->
  (holds_lock t = false /\ holds_lock t' = true
   /\ lk = None /\ lk' = Some me /\ db' = db)
  \/ (holds_lock t' = holds_lock t /\ lk' = lk
      /\ (db' = db \/ holds_lock t = true))
  \/ (holds_lock t = true /\ holds_lock t' = false
      /\ lk' = None /\ db' = db).
Proof.
  destruct t as [disk ip port d [| ts | ts | ts r | ts r]
                |disk delta [| | c | c | c n | c r rem | c r rem]];
    cbn [step_thread]; intros H.
  - injection H as <- <- <-. right. left. auto.
  - destruct lk; [discriminate|]. injection H as <- <- <-. left. auto 6.
  - destruct (_ <- connect disk ;; insert ts ip port d (Utf8.decode d) (len d) db)
      as [[mid db1]|e];
      injection H as <- <- <-; right; left; auto.
  - injection H as <- <- <-. right. right. auto.
  - discriminate.
  - destruct (datetime_sub clock delta); injection H as <- <- <-;
      right; left; auto.
  - discriminate.
  - destruct lk; [discriminate|]. injection H as <- <- <-. left. auto 6.
  - destruct (connect disk); injection H as <- <- <-; right; left; auto.
  - injection H as <- <- <-. right. left. auto.
  - injection H as <- <- <-. right. right. auto.
  - discriminate.
Qed.

(** A purge that has just counted has counted the table as it is. *)
Lemma step_thread_counted (me : nat) (clock : datetime) (lk lk' : option nat)
      (db db' : database) (t : thread) (disk : bool) (delta : timedelta)
      (c : datetime) (n : Z) :
  step_thread me clock lk db t
  = Some (purging disk delta (purge_counted c n), lk', db') ->
  n = count_older c db'.
Proof.
  destruct t as [disk0 ip port d [| ts | ts | ts r | ts r]
                |disk0 delta0 [| | c0 | c0 | c0 n0 | c0 r rem | c0 r rem]];
    cbn [step_thread]; intros H; try discriminate.
  - destruct lk; discriminate.
  - destruct (_ <- connect disk0 ;;
              insert ts ip port d (Utf8.decode d) (len d) db)
      as [[mid db1]|e]; discriminate.
  - destruct (datetime_sub clock delta0); discriminate.
  - destruct lk; discriminate.
  - destruct (connect disk0); [|discriminate].
    injection H as _ _ <- <- _ <-. reflexivity.
Qed.

Lemma step_thread_purge_ok (me : nat) (clock : datetime) (lk lk' : option nat)
      (db db' : database) (t t' : thread) :
  purge_ok t ->
  (forall disk delta c n,
      t = purging disk delta (purge_counted c n) -> n = count_older c db) ->
  step_thread me clock lk db t = Some (t', lk', db') ->
  purge_ok t'.
Proof.
  intros Hok Hc.
  destruct t as [disk ip port d [| ts | ts | ts r | ts r]
                |disk delta [| | c | c | c n | c r rem | c r rem]];
    cbn [step_thread]; intros H.
  - injection H as <- <- <-. exact I.
  - destruct lk; [discriminate|]. injection H as <- <- <-. exact I.
  - destruct (_ <- connect disk ;; insert ts ip port d (Utf8.decode d) (len d) db)
      as [[mid db1]|e]; injection H as <- <- <-; exact I.
  - injection H as <- <- <-. exact I.
  - discriminate.
  - destruct (datetime_sub clock delta); injection H as <- <- <-; exact I.
  - discriminate.
  - destruct lk; [discriminate|]. injection H as <- <- <-. exact I.
  - destruct (connect disk); injection H as <- <- <-; cbn; [exact I|reflexivity].
  - injection H as <- <- <-. cbn. split.
    + apply (Hc _ _ _ _ eq_refl).
    + apply Forall_forall. intros x Hx. apply filter_In in Hx.
      destruct Hx as [_ Hx]. now apply Z.ltb_lt.
  - injection H as <- <- <-. exact Hok.
  - discriminate.
Qed.

Lemma filter_partition_perm {A : Type} (p : A -> bool) (l : list A) :
  Permutation (filter (fun x => negb (p x)) l ++ filter p l) l.
Proof.
  induction l as [|x l IH]; simpl; [constructor|].
  destruct (p x); simpl.
  - apply Permutation_sym. eapply Permutation_trans.
    + apply perm_skip, Permutation_sym, IH.
    + apply Permutation_middle.
  - now apply perm_skip.
Qed.

(** What a step does to the rows: it keeps them all, between the table and
    the rows its purge deleted, or it appends one row with a fresh id. *)
Lemma step_thread_rows (me : nat) (clock : datetime) (lk lk' : option nat)
      (db db' : database) (t t' : thread) :
  step_thread me clock lk db t = Some (t', lk', db') ->
  (Permutation (messages db' ++ removed_by t') (messages db ++ removed_by t)
   /\ sqlite_sequence db' = sqlite_sequence db
   /\ (forall r, inserted_by t' = Some r -> inserted_by t = Some r))
  \/ (exists r,
         messages db' = messages db ++ [r]
         /\ removed_by t' = [] /\ removed_by t = []
         /\ sqlite_sequence db < id r
         /\ sqlite_sequence db' = id r
         /\ inserted_by t' = Some r).
Proof.
  destruct t as [disk ip port d [| ts | ts | ts r | ts r]
                |disk delta [| | c | c | c n | c r rem | c r rem]];
    cbn [step_thread]; intros H.
  - injection H as <- <- <-. left. cbn. auto.
  - destruct lk; [discriminate|]. injection H as <- <- <-. left. cbn. auto.
  - unfold connect, insert, bind in H. destruct disk.
    + destruct (Z.max (sqlite_sequence db) (max_rowid (messages db))
                <? largest_rowid).
      * injection H as <- <- <-. right. eexists.
        cbn [messages sqlite_sequence removed_by inserted_by id].
        repeat split. cbn [id]. lia.
      * injection H as <- <- <-. left. cbn.
        split; [apply Permutation_refl|]. split; [reflexivity|discriminate].
    + injection H as <- <- <-. left. cbn.
      split; [apply Permutation_refl|]. split; [reflexivity|discriminate].
  - injection H as <- <- <-. left. cbn.
    split; [apply Permutation_refl|]. split; [reflexivity|].
    destruct r; auto.
  - discriminate.
  - destruct (datetime_sub clock delta); injection H as <- <- <-; left; cbn; auto.
  - discriminate.
  - destruct lk; [discriminate|]. injection H as <- <- <-. left. cbn. auto.
  - destruct (connect disk); injection H as <- <- <-; left; cbn; auto.
  - injection H as <- <- <-. left. cbn [removed_by delete_older messages
                                           sqlite_sequence inserted_by].
    rewrite app_nil_r. split; [apply filter_partition_perm|].
    split; [reflexivity|discriminate].
  - injection H as <- <- <-. left. cbn. auto.
  - discriminate.
Qed.

Lemma perm_frame {A : Type} (x y a b : list A) :
  Permutation (x ++ a ++ y ++ b) ((x ++ y) ++ a ++ b).
Proof.
  rewrite <- app_assoc. apply Permutation_app_head.
  rewrite !app_assoc. apply Permutation_app_tail. apply Permutation_app_comm.
Qed.

(** The rows accounted for after a step: the same, or one more. *)
Lemma step_all_rows (i : nat) (clock : datetime) (w : world) (t t' : thread)
      (lk' : option nat) (db' : database) :
  nth_error (threads w) i = Some t ->
  step_thread i clock (lock w) (table w) t = Some (t', lk', db') ->
  let w' := mkWorld db' lk' (update i t' (threads w)) in
  (Permutation (all_rows w') (all_rows w)
   /\ sqlite_sequence db' = sqlite_sequence (table w)
   /\ (forall r, inserted_by t' = Some r -> inserted_by t = Some r))
  \/ (exists r,
         Permutation (all_rows w') (r :: all_rows w)
         /\ sqlite_sequence (table w) < id r
         /\ sqlite_sequence db' = id r
         /\ inserted_by t' = Some r).
Proof.
  intros Ht Hs w'. subst w'. unfold all_rows. cbn [table threads].
  destruct (purged_update t' _ _ Ht) as (a & b & -> & ->).
  destruct (step_thread_rows _ _ _ _ _ Hs)
    as [(Hp & Hq & Hi)|(r & Hm & Hr' & Hr & Hlt & Hq & Hi)].
  - left. split; [|split; assumption].
    eapply Permutation_trans; [apply perm_frame|].
    eapply Permutation_trans; [|apply Permutation_sym, perm_frame].
    now apply Permutation_app_tail.
  - right. exists r. split; [|auto]. rewrite Hm, Hr', Hr. cbn [app].
    rewrite <- app_assoc. apply Permutation_sym.
    change (r :: messages (table w) ++ a ++ b)
      with ((r :: messages (table w)) ++ a ++ b).
    change ([r] ++ a ++ b) with (r :: a ++ b).
    rewrite app_comm_cons. apply Permutation_sym.
    apply Permutation_sym, Permutation_middle.
Qed.

Lemma step_invariant (s : nat * datetime) (w : world) :
  invariant w -> invariant (step s w).
Proof.
  intros Inv. unfold step. destruct s as [i clock]. cbn [fst snd].
  destruct (nth_error (threads w) i) as [t|] eqn:Ht; [|exact Inv].
  destruct (step_thread i clock (lock w) (table w) t)
    as [[[t' lk'] db']|] eqn:Hs; [|exact Inv].
  pose proof (step_thread_lock _ _ _ _ _ Hs) as HL.
  pose proof (step_all_rows _ _ _ Ht Hs) as HR. cbv zeta in HR.
  assert (Hsame : forall j tj,
             j <> i -> nth_error (threads w) j = Some tj ->
             holds_lock tj = true -> lk' = lock w /\ db' = table w).
  { intros j tj Hji Hj Hh. pose proof (inv_lock Inv _ Hj Hh) as Lj.
    destruct HL as [(_ & _ & Hn & _)|[(_ & -> & Hd)|(Hti & _)]].
    - congruence.
    - split; [reflexivity|]. destruct Hd as [Hd|Hd]; [exact Hd|].
      pose proof (inv_lock Inv _ Ht Hd). congruence.
    - pose proof (inv_lock Inv _ Ht Hti). congruence. }
  constructor; cbn [threads lock table].
  - intros j tj Hj Hh. destruct (Nat.eq_dec j i) as [->|Hji].
    + rewrite (nth_error_update_eq _ _ _ Ht) in Hj. injection Hj as <-.
      destruct HL as [(_ & _ & _ & -> & _)|[(He & -> & _)|(_ & Hf & _)]].
      * reflexivity.
      * rewrite He in Hh. exact (inv_lock Inv _ Ht Hh).
      * congruence.
    + rewrite nth_error_update_neq in Hj by congruence.
      destruct (Hsame _ _ Hji Hj Hh) as [-> _].
      exact (inv_lock Inv _ Hj Hh).
  - intros j disk delta c n Hj. destruct (Nat.eq_dec j i) as [->|Hji].
    + rewrite (nth_error_update_eq _ _ _ Ht) in Hj. injection Hj as ->.
      exact (step_thread_counted _ _ _ _ _ Hs).
    + rewrite nth_error_update_neq in Hj by congruence.
      destruct (Hsame _ _ Hji Hj eq_refl) as [_ ->].
      exact (inv_count Inv _ Hj).
  - intros j tj Hj. destruct (Nat.eq_dec j i) as [->|Hji].
    + rewrite (nth_error_update_eq _ _ _ Ht) in Hj. injection Hj as <-.
      eapply step_thread_purge_ok; [exact (inv_purge Inv _ Ht)| |exact Hs].
      intros disk delta c n ->. exact (inv_count Inv _ Ht).
    + rewrite nth_error_update_neq in Hj by congruence.
      exact (inv_purge Inv _ Hj).
  - destruct HR as [(Hp & _ & _)|(r & Hp & Hlt & _ & _)].
    + eapply Permutation_NoDup; [apply Permutation_sym, Permutation_map, Hp|].
      exact (inv_unique Inv).
    + eapply Permutation_NoDup; [apply Permutation_sym, Permutation_map, Hp|].
      cbn [map]. constructor; [|exact (inv_unique Inv)].
      intros Hin. apply in_map_iff in Hin. destruct Hin as (x & Hx & Hin).
      pose proof (inv_sequence Inv) as Hseq. rewrite Forall_forall in Hseq.
      specialize (Hseq x Hin). lia.
  - destruct HR as [(Hp & Hq & _)|(r & Hp & Hlt & Hq & _)].
    + eapply Permutation_Forall; [apply Permutation_sym, Hp|].
      rewrite Hq. exact (inv_sequence Inv).
    + eapply Permutation_Forall; [apply Permutation_sym, Hp|].
      rewrite Hq. constructor; [lia|].
      eapply Forall_impl; [|exact (inv_sequence Inv)]. cbn. intros; lia.
  - intros j tj r Hj Hr.
    assert (Hold : In r (all_rows w) ->
                   In r (all_rows (mkWorld db' lk' (update i t' (threads w))))).
    { intros Hin.
      destruct HR as [(Hp & _ & _)|(r0 & Hp & _)];
        (eapply Permutation_in; [apply Permutation_sym, Hp|]);
        [exact Hin|now right]. }
    destruct (Nat.eq_dec j i) as [->|Hji].
    + rewrite (nth_error_update_eq _ _ _ Ht) in Hj. injection Hj as <-.
      destruct HR as [(Hp & _ & Hi)|(r0 & Hp & _ & _ & Hi)].
      * apply Hold. exact (inv_inserted Inv _ Ht (Hi _ Hr)).
      * eapply Permutation_in; [apply Permutation_sym, Hp|].
        left. congruence.
    + rewrite nth_error_update_neq in Hj by congruence.
      apply Hold. exact (inv_inserted Inv _ Hj Hr).
Qed.

Lemma run_invariant (schedule : list (nat * datetime)) :
  forall w : world, invariant w -> invariant (run schedule w).
Proof.
  unfold run. induction schedule as [|s schedule IH]; intros w Inv;
    cbn [fold_left]; [exact Inv|].
  apply IH. now apply step_invariant.
Qed.

Lemma not_begun_quiet (t : thread) :
  not_begun t = true ->
  holds_lock t = false /\ removed_by t = [] /\ inserted_by t = None
  /\ purge_ok t
  /\ (forall disk delta c n, t <> purging disk delta (purge_counted c n)).
Proof.
  destruct t as [disk ip port d []|disk delta []]; cbn; try discriminate;
    intros _; repeat split; try exact I; discriminate.
Qed.

Lemma initial_invariant (w : world) : initial w -> invariant w.
Proof.
  intros [Hl Ht Hu Hs].
  assert (Q : forall i t, nth_error (threads w) i = Some t ->
                          not_begun t = true).
  { intros i t H. apply nth_error_In in H.
    rewrite forallb_forall in Ht. now apply Ht. }
  assert (P : purged (threads w) = []).
  { unfold purged. clear - Ht. induction (threads w) as [|t l IH];
      [reflexivity|]. cbn in *. apply andb_true_iff in Ht.
    destruct Ht as [H1 H2]. apply not_begun_quiet in H1.
    destruct H1 as (_ & -> & _). now apply IH. }
  constructor; unfold all_rows; rewrite ?P, ?app_nil_r; try assumption.
  - intros i t H Hh. apply Q, not_begun_quiet in H. destruct H as (H & _).
    congruence.
  - intros i disk delta c n H. apply Q, not_begun_quiet in H.
    destruct H as (_ & _ & _ & _ & H). now elim (H disk delta c n).
  - intros i t H. apply Q, not_begun_quiet in H. tauto.
  - intros i t r H Hr. apply Q, not_begun_quiet in H.
    destruct H as (_ & _ & H & _). congruence.
Qed.

Lemma NoDup_map_flat_map_part {A B C : Type} (f : B -> C) (g : A -> list B)
      (x : list B) (l : list A) (t : A) :
  NoDup (map f (x ++ flat_map g l)) -> In t l -> NoDup (map f (g t)).
Proof.
  intros H Ht. apply in_split in Ht. destruct Ht as (a & b & ->).
  rewrite flat_map_app in H. cbn [flat_map] in H.
  rewrite !map_app in H.
  apply NoDup_app_remove_l, NoDup_app_remove_l, NoDup_app_remove_r in H.
  exact H.
Qed.

Lemma removed_by_cutoff (t : thread) (r : row) :
  purge_ok t -> In r (removed_by t) ->
  exists c, cutoff_of t = Some c /\ timestamp r < c.
Proof.
  destruct t as [disk ip port d at_|disk delta
                 [| | c | c | c n | c [n|e] rem | c [n|e] rem]];
    cbn; try contradiction.
  - intros [_ H] Hr. rewrite Forall_forall in H. eauto.
  - intros ->. contradiction.
  - intros [_ H] Hr. rewrite Forall_forall in H. eauto.
  - intros ->. contradiction.
Qed.

(** A call that runs with no other thread in between does what the method
    of the store does. *)
Lemma step_at (i : nat) (clock : datetime) (db db' : database)
      (lk lk' : option nat) (ths : list thread) (t t' : thread) :
  nth_error ths i = Some t ->
  step_thread i clock lk db t = Some (t', lk', db') ->
  step (i, clock) (mkWorld db lk ths) = mkWorld db' lk' (update i t' ths).
Proof.
  intros Ht Hs. unfold step. cbn [fst snd threads lock table].
  now rewrite Ht, Hs.
Qed.

Lemma update_update {A : Type} (x y : A) (l : list A) :
  forall i, update i y (update i x l) = update i y l.
Proof.
  induction l as [|z l IH]; intros [|i]; simpl; try reflexivity.
  now rewrite IH.
Qed.

Ltac step_now :=
  erewrite step_at;
  [ rewrite ?update_update
  | first [eassumption | eapply nth_error_update_eq; eassumption]
  | cbn [step_thread]; reflexivity ].

Lemma store_message_alone (i : nat) (now c1 c2 c3 : datetime) (w : world)
      (disk : bool) (ip : str) (port : Z) (d : bytes) :
  nth_error (threads w) i = Some (storing disk ip port d insert_called) ->
  lock w = None ->
  let w' := run [(i, now); (i, c1); (i, c2); (i, c3)] w in
  lock w' = None
  /\ match MessageStorage.store_message disk now ip port d (table w) with
     | Ok (mid, db') =>
       table w' = db'
       /\ nth_error (threads w') i
          = Some (storing disk ip port d (insert_returned now (Ok mid)))
     | Raise e =>
       table w' = table w
       /\ nth_error (threads w') i
          = Some (storing disk ip port d (insert_returned now (Raise e)))
     end.
Proof.
  destruct w as [db lk ths]. cbn [threads lock table].
  intros Ht ->. cbv zeta. unfold run. cbn [fold_left].
  do 2 step_now.
  unfold MessageStorage.store_message.
  destruct (_ <- connect disk ;;
            insert now ip port d (Utf8.decode d) (len d) db)
    as [[mid db']|e] eqn:E.
  - erewrite step_at;
      [|eapply nth_error_update_eq; eassumption
       |cbn [step_thread]; rewrite E; reflexivity].
    rewrite update_update. step_now.
    cbn [lock table threads]. split; [reflexivity|].
    split; [reflexivity|]. eapply nth_error_update_eq; eassumption.
  - erewrite step_at;
      [|eapply nth_error_update_eq; eassumption
       |cbn [step_thread]; rewrite E; reflexivity].
    rewrite update_update. step_now.
    cbn [lock table threads]. split; [reflexivity|].
    split; [reflexivity|]. eapply nth_error_update_eq; eassumption.
Qed.

Lemma delete_old_messages_alone (i : nat) (now c1 c2 c3 c4 : datetime)
      (w : world) (delta : timedelta) (count : Z) (db' : database) :
  nth_error (threads w) i = Some (purging true delta purge_called) ->
  lock w = None ->
  MessageStorage.delete_old_messages true now delta (table w)
  = Ok (count, db') ->
  let w' := run [(i, now); (i, c1); (i, c2); (i, c3); (i, c4)] w in
  lock w' = None
  /\ table w' = db'
  /\ exists cutoff removed,
      nth_error (threads w') i
      = Some (purging true delta (purge_returned cutoff (Ok count) removed)).
Proof.
  destruct w as [db lk ths]. cbn [threads lock table].
  intros Ht -> Hd. cbv zeta. unfold run. cbn [fold_left].
  unfold MessageStorage.delete_old_messages, bind in Hd.
  destruct (datetime_sub now delta) as [cutoff|e] eqn:E; [|discriminate].
  cbn [connect] in Hd. injection Hd as <- <-.
  erewrite step_at;
    [|eassumption|cbn [step_thread]; rewrite E; reflexivity].
  do 4 step_now.
  cbn [lock table threads]. split; [reflexivity|]. split; [reflexivity|].
  do 2 eexists. eapply nth_error_update_eq; eassumption.
Qed.

Import Clock.

(** A property of each thread that the steps of the thread keep is kept by
    every schedule whose clock readings are as the property needs. *)
Lemma run_threads_property (Q : nat -> thread -> Prop)
      (ok : datetime -> Prop) :
  (forall me clock lk db t t' lk' db',
      ok clock -> Q me t ->
      step_thread me clock lk db t = Some (t', lk', db') -> Q me t') ->
  forall (schedule : list (nat * datetime)) (w : world),
    Forall (fun s => ok (snd s)) schedule ->
    (forall j t, nth_error (threads w) j = Some t -> Q j t) ->
    forall j t, nth_error (threads (run schedule w)) j = Some t -> Q j t.
Proof.
  intros Hstep. unfold run.
  induction schedule as [|[i clock] schedule IH]; intros w Hok Hw;
    cbn [fold_left]; [exact Hw|].
  inversion Hok as [|? ? Hc Hok']; subst. cbn [snd] in Hc.
  apply IH; [exact Hok'|]. unfold step. cbn [fst snd].
  destruct (nth_error (threads w) i) as [t|] eqn:Ht; [|exact Hw].
  destruct (step_thread i clock (lock w) (table w) t)
    as [[[t' lk'] db']|] eqn:Hs; [|exact Hw].
  cbn [threads]. intros j tj Hj. destruct (Nat.eq_dec j i) as [->|Hji].
  - rewrite (nth_error_update_eq _ _ _ Ht) in Hj. injection Hj as <-.
    eapply Hstep; [exact Hc|exact (Hw _ _ Ht)|exact Hs].
  - rewrite nth_error_update_neq in Hj by congruence. exact (Hw _ _ Hj).
Qed.

Lemma step_thread_cutoff_stable (me : nat) (clock : datetime)
      (lk lk' : option nat) (db db' : database) (t t' : thread)
      (c : datetime) :
  cutoff_of t = Some c ->
  step_thread me clock lk db t = Some (t', lk', db') ->
  cutoff_of t' = Some c.
Proof.
  destruct t as [disk ip port d at_
                |disk delta [| | c0 | c0 | c0 n | c0 r rem | c0 r rem]];
    cbn [cutoff_of step_thread]; try discriminate; intros Hc H.
  - destruct lk; [discriminate|]. now injection H as <- <- <-.
  - destruct (connect disk); now injection H as <- <- <-.
  - now injection H as <- <- <-.
  - now injection H as <- <- <-.
Qed.

Lemma step_thread_cutoff_until (h : datetime) (me : nat) (clock : datetime)
      (lk lk' : option nat) (db db' : database) (t t' : thread) :
  clock <= h -> cutoff_until h t ->
  step_thread me clock lk db t = Some (t', lk', db') ->
  cutoff_until h t'.
Proof.
  intros Hh.
  destruct t as [disk ip port d [| ts | ts | ts r | ts r]
                |disk delta [| | c0 | c0 | c0 n | c0 r rem | c0 r rem]];
    cbn [step_thread]; intros Hq H.
  - now injection H as <- <- <-.
  - destruct lk; [discriminate|]. now injection H as <- <- <-.
  - destruct (_ <- connect disk ;; insert ts ip port d (Utf8.decode d) (len d) db)
      as [[mid db1]|e]; now injection H as <- <- <-.
  - now injection H as <- <- <-.
  - discriminate.
  - unfold datetime_sub in H.
    destruct ((0 <=? clock - delta) && (clock - delta <=? datetime_max));
      injection H as <- <- <-; cbn; intros Hd c Hc; [|discriminate].
    injection Hc as <-. lia.
  - discriminate.
  - destruct lk; [discriminate|]. injection H as <- <- <-. exact Hq.
  - destruct (connect disk); injection H as <- <- <-; exact Hq.
  - injection H as <- <- <-. exact Hq.
  - injection H as <- <- <-. exact Hq.
  - discriminate.
Qed.

Lemma step_thread_stamped_from (h : datetime) (me : nat) (clock : datetime)
      (lk lk' : option nat) (db db' : database) (t t' : thread) :
  h <= clock -> stamped_from h t ->
  step_thread me clock lk db t = Some (t', lk', db') ->
  stamped_from h t'.
Proof.
  intros Hh.
  destruct t as [disk ip port d [| ts | ts | ts r | ts r]
                |disk delta [| | c0 | c0 | c0 n | c0 r rem | c0 r rem]];
    cbn [step_thread]; intros Hq H.
  - injection H as <- <- <-. exact Hh.
  - destruct lk; [discriminate|]. now injection H as <- <- <-.
  - destruct (_ <- connect disk ;; insert ts ip port d (Utf8.decode d) (len d) db)
      as [[mid db1]|e]; now injection H as <- <- <-.
  - now injection H as <- <- <-.
  - discriminate.
  - destruct (datetime_sub clock delta); now injection H as <- <- <-.
  - discriminate.
  - destruct lk; [discriminate|]. now injection H as <- <- <-.
  - destruct (connect disk); now injection H as <- <- <-.
  - now injection H as <- <- <-.
  - now injection H as <- <- <-.
  - discriminate.
Qed.

Lemma inserted_by_stamped_from (h : datetime) (t : thread) (r : row) :
  stamped_from h t -> inserted_by t = Some r -> h <= timestamp r.
Proof.
  destruct t as [disk ip port d [| ts | ts | ts [n|e] | ts [n|e]]
                |disk delta at_]; cbn; try discriminate;
    intros H E; injection E as <-; exact H.
Qed.

(** A record stamped after a purge computed its cutoff, by a clock that
    has not gone back in between, is not among the rows of that purge. *)
Lemma stamped_later_not_removed (pre post : list (nat * datetime))
      (h : datetime) (w0 : world) (i j : nat) (ti0 tj0 ti tj : thread)
      (c : datetime) (r : row) :
  initial w0 ->
  Forall (fun s => snd s <= h) pre ->
  Forall (fun s => h <= snd s) post ->
  nth_error (threads (run pre w0)) j = Some tj0 ->
  cutoff_of tj0 = Some c -> 0 <= age_of tj0 ->
  nth_error (threads (run pre w0)) i = Some ti0 ->
  not_begun ti0 = true ->
  nth_error (threads (run (pre ++ post) w0)) i = Some ti ->
  inserted_by ti = Some r ->
  nth_error (threads (run (pre ++ post) w0)) j = Some tj ->
  ~ In r (removed_by tj).
Proof.
  intros Hi Hpre Hpost Hj0 Hc0 Hage Hi0 Hnb Hti Hr Htj Hin.
  pose proof (run_invariant (pre ++ post) (initial_invariant Hi)) as Inv.
  assert (Hrun : run (pre ++ post) w0 = run post (run pre w0))
    by (unfold run; apply fold_left_app).
  rewrite Hrun in Hti, Htj.
  (* the cutoff is at most h *)
  assert (Hch : c <= h).
  { assert (Q : cutoff_until h tj0).
    { refine (@run_threads_property
                (fun _ => cutoff_until h) (fun clock => clock <= h)
                _ pre w0 Hpre _ _ _ Hj0).
      - intros. eapply step_thread_cutoff_until; eassumption.
      - intros k t Hk. apply nth_error_In in Hk.
        pose proof (init_threads Hi) as Hnb0. rewrite forallb_forall in Hnb0.
        specialize (Hnb0 _ Hk).
        destruct t as [? ? ? ? []|? ? []]; cbn in *; try discriminate;
          try exact I. }
    destruct tj0 as [|disk delta at_]; [discriminate|].
    cbn [age_of] in Hage. exact (Q Hage c Hc0). }
  (* the purge keeps its cutoff *)
  assert (Hc : cutoff_of tj = Some c).
  { refine (@run_threads_property
              (fun k t => k = j -> cutoff_of t = Some c) (fun _ => True)
              _ post (run pre w0) _ _ _ _ Htj eq_refl).
    - intros me clock lk db t t' lk' db' _ Hq Hs Hme.
      eapply step_thread_cutoff_stable; [exact (Hq Hme)|exact Hs].
    - apply Forall_forall. intros; exact I.
    - intros k t Hk ->. congruence. }
  (* the insert is stamped from h on *)
  assert (Hs : stamped_from h ti).
  { refine (@run_threads_property
              (fun k t => k = i -> stamped_from h t) (fun clock => h <= clock)
              _ post (run pre w0) Hpost _ _ _ Hti eq_refl).
    - intros me clock lk db t t' lk' db' Hh Hq Hs Hme.
      eapply step_thread_stamped_from; [exact Hh|exact (Hq Hme)|exact Hs].
    - intros k t Hk ->. rewrite Hi0 in Hk. injection Hk as <-.
      destruct ti0 as [? ? ? ? []|? ? []]; cbn in *; try discriminate;
        exact I. }
  pose proof (inserted_by_stamped_from _ _ Hs Hr) as Hts.
  rewrite <- Hrun in Htj.
  destruct (removed_by_cutoff _ _ (inv_purge Inv _ Htj) Hin) as (c' & Hc' & Hlt).
  rewrite Hc in Hc'. injection Hc' as <-. lia.
Qed.

Example purge_waits_for_the_lock :
  let w := mkWorld empty None
                   [storing true (s_ "10.0.0.1") 4000 (b_ "a") insert_called;
                    purging true 0 purge_called] in
  run [(0%nat, 10); (1%nat, 20); (0%nat, 0); (1%nat, 0); (1%nat, 0)] w
  = mkWorld empty (Some 0%nat)
            [storing true (s_ "10.0.0.1") 4000 (b_ "a") (insert_locked 10);
             purging true 0 (purge_stamped 20)].
Proof. reflexivity. Qed.

(** C7, as the code has it.  Whatever the order in which the threads take
    their steps, from a store on which no call has begun:
    - at most one thread is inside the lock, and a purge that has counted
      deletes from the very table it counted;
    - no record is twice in the table, twice among the rows purges deleted,
      or both in the table and deleted;
    - every record that an insert has written is, whole, in the table or
      among the rows a purge deleted;
    - the count a purge returns is the number of rows it deleted, no row
      counted twice, all of them stamped strictly before its cutoff;
    - a record stamped at or after the cutoff of every purge is in the
      table: it is never lost;
    - a record whose insert begins after a purge, called with an age that
      is not negative, has computed its cutoff, the clock not going back
      in between, is not among the rows which that purge deletes. *)
Theorem purge_atomic_with_inserts (schedule : list (nat * datetime))
        (w0 : world) :
  initial w0 ->
  let w := run schedule w0 in
  (forall i j ti tj,
      nth_error (threads w) i = Some ti -> nth_error (threads w) j = Some tj ->
      holds_lock ti = true -> holds_lock tj = true -> i = j)
  /\ (forall i disk delta c n,
         nth_error (threads w) i
         = Some (purging disk delta (purge_counted c n)) ->
         n = count_older c (table w))
  /\ NoDup (map id (messages (table w) ++ purged (threads w)))
  /\ (forall i t r,
         nth_error (threads w) i = Some t -> inserted_by t = Some r ->
         In r (messages (table w)) \/ In r (purged (threads w)))
  /\ (forall i disk delta c n removed,
         nth_error (threads w) i
         = Some (purging disk delta (purge_returned c (Ok n) removed)) ->
         n = len removed
         /\ NoDup (map id removed)
         /\ Forall (fun r => timestamp r < c) removed)
  /\ (forall i t r,
         nth_error (threads w) i = Some t -> inserted_by t = Some r ->
         (forall j tj c,
             nth_error (threads w) j = Some tj -> cutoff_of tj = Some c ->
             c <= timestamp r) ->
         In r (messages (table w)))
  /\ (forall pre post h i j ti0 tj0 ti tj c r,
         schedule = pre ++ post ->
         Forall (fun s => snd s <= h) pre ->
         Forall (fun s => h <= snd s) post ->
         nth_error (threads (run pre w0)) j = Some tj0 ->
         cutoff_of tj0 = Some c -> 0 <= age_of tj0 ->
         nth_error (threads (run pre w0)) i = Some ti0 ->
         not_begun ti0 = true ->
         nth_error (threads w) i = Some ti -> inserted_by ti = Some r ->
         nth_error (threads w) j = Some tj ->
         ~ In r (removed_by tj)).
Proof.
  intros Hi w.
  pose proof (run_invariant schedule (initial_invariant Hi)) as Inv.
  fold w in Inv. repeat apply conj.
  - intros i j ti tj Hti Htj Hl1 Hl2.
    pose proof (inv_lock Inv _ Hti Hl1). pose proof (inv_lock Inv _ Htj Hl2).
    congruence.
  - intros i disk delta c n H. exact (inv_count Inv _ H).
  - exact (inv_unique Inv).
  - intros i t r Ht Hr. apply in_app_or. exact (inv_inserted Inv _ Ht Hr).
  - intros i disk delta c n removed H.
    pose proof (inv_purge Inv _ H) as [Hn Hf]. split; [exact Hn|].
    split; [|exact Hf].
    exact (@NoDup_map_flat_map_part
             _ _ _ id removed_by (messages (table w)) (threads w) _
             (inv_unique Inv) (nth_error_In _ _ H)).
  - intros i t r Ht Hr Hc.
    destruct (in_app_or _ _ _ (inv_inserted Inv _ Ht Hr)) as [H|H]; [exact H|].
    unfold purged in H. apply in_flat_map in H. destruct H as (tj & Hin & Hrm).
    apply In_nth_error in Hin. destruct Hin as (j & Hj).
    destruct (removed_by_cutoff _ _ (inv_purge Inv _ Hj) Hrm) as (c & Hcut & Hlt).
    specialize (Hc _ _ _ Hj Hcut). lia.
  - intros pre post h i j ti0 tj0 ti tj c r E. subst w. rewrite E.
    now apply stamped_later_not_removed.
Qed.

Lemma purge_atomic_with_inserts_witness :
  let w0 :=
    mkWorld (mkDb [mkRow 1 5 (s_ "10.0.0.1") 4000 (b_ "old")
                         (Some (s_ "old")) 3] 1)
            None
            [storing true (s_ "10.0.0.2") 4001 (b_ "new") insert_called;
             purging true 0 purge_called] in
  let w := run [(1%nat, 20); (0%nat, 30); (1%nat, 0); (1%nat, 0);
                (0%nat, 0); (1%nat, 0); (0%nat, 0); (1%nat, 0);
                (0%nat, 0); (0%nat, 0)] w0 in
  NoDup (map id (messages (table w) ++ purged (threads w))).
Proof.
  cbv zeta.
  refine (proj1 (proj2 (proj2 (@purge_atomic_with_inserts _ _ _)))).
  constructor; cbn.
  - reflexivity.
  - reflexivity.
  - repeat constructor. intros [].
  - repeat constructor. cbn. lia.
Defined.

(** C7 as it is written fails in that a record inserted after the cutoff
    computation can be lost.  The timestamp of a record is read before its
    insert takes the lock: a record stamped at 10 whose INSERT runs after a
    purge of age 0 has computed the cutoff 20, the clock never going back,
    is deleted by that purge.  So is a record whose insert begins after the
    cutoff 20 was computed and reads 10 from a clock that went back. *)
Lemma insert_after_cutoff_can_be_purged :
  let r := mkRow 1 10 (s_ "10.0.0.1") 4000 (b_ "a") (Some (s_ "a")) 1 in
  let w := mkWorld empty None
                   [storing true (s_ "10.0.0.1") 4000 (b_ "a") insert_called;
                    purging true 0 purge_called] in
  let purged_w :=
    mkWorld (mkDb [] 1) None
            [storing true (s_ "10.0.0.1") 4000 (b_ "a")
                     (insert_returned 10 (Ok 1));
             purging true 0 (purge_returned 20 (Ok 1) [r])] in
  run [(0%nat, 10); (1%nat, 20)] w
  = mkWorld empty None
            [storing true (s_ "10.0.0.1") 4000 (b_ "a") (insert_stamped 10);
             purging true 0 (purge_stamped 20)]
  /\ run [(0%nat, 10); (1%nat, 20); (0%nat, 20); (0%nat, 20)] w
     = mkWorld (mkDb [r] 1) (Some 0%nat)
               [storing true (s_ "10.0.0.1") 4000 (b_ "a")
                        (insert_executed 10 (Ok 1));
                purging true 0 (purge_stamped 20)]
  /\ run [(0%nat, 10); (1%nat, 20);
          (0%nat, 20); (0%nat, 20); (0%nat, 20);
          (1%nat, 20); (1%nat, 20); (1%nat, 20); (1%nat, 20)] w
     = purged_w
  /\ run [(1%nat, 20)] w
     = mkWorld empty None
               [storing true (s_ "10.0.0.1") 4000 (b_ "a") insert_called;
                purging true 0 (purge_stamped 20)]
  /\ run [(1%nat, 20);
          (0%nat, 10); (0%nat, 10); (0%nat, 10); (0%nat, 10);
          (1%nat, 20); (1%nat, 20); (1%nat, 20); (1%nat, 20)] w
     = purged_w.
Proof. cbv zeta. repeat split. Qed.


(** ** Timestamps as text *)

Import Isoformat.

Lemma text_ltb_digits2 (a b : Z) (ra rb : str) :
  0 <= a < 100 -> 0 <= b < 100 ->
  text_ltb (digits2 a ++ ra) (digits2 b ++ rb)
  = (a <? b) || ((a =? b) && text_ltb ra rb).
Proof.
  intros Ha Hb. unfold digits2. cbn [app text_ltb].
  apply eq_true_iff_eq. destruct (text_ltb ra rb);
    rewrite ?andb_true_r, ?andb_false_r, ?orb_false_r;
    rewrite ?orb_true_iff, ?andb_true_iff, ?orb_true_iff,
            ?Z.ltb_lt, ?Z.eqb_eq;
    Z.div_mod_to_equations; lia.
Qed.

Lemma text_ltb_digits4 (a b : Z) (ra rb : str) :
  0 <= a < 10000 -> 0 <= b < 10000 ->
  text_ltb (digits4 a ++ ra) (digits4 b ++ rb)
  = (a <? b) || ((a =? b) && text_ltb ra rb).
Proof.
  intros Ha Hb. unfold digits4. rewrite <- !app_assoc.
  rewrite text_ltb_digits2 by (Z.div_mod_to_equations; lia).
  rewrite text_ltb_digits2 by (Z.div_mod_to_equations; lia).
  apply eq_true_iff_eq. destruct (text_ltb ra rb);
    rewrite ?andb_true_r, ?andb_false_r, ?orb_false_r;
    rewrite ?orb_true_iff, ?andb_true_iff, ?orb_true_iff,
            ?Z.ltb_lt, ?Z.eqb_eq;
    Z.div_mod_to_equations; lia.
Qed.

Lemma text_ltb_digits6 (a b : Z) (ra rb : str) :
  0 <= a < 1000000 -> 0 <= b < 1000000 ->
  text_ltb (digits6 a ++ ra) (digits6 b ++ rb)
  = (a <? b) || ((a =? b) && text_ltb ra rb).
Proof.
  intros Ha Hb. unfold digits6. rewrite <- !app_assoc.
  rewrite text_ltb_digits2 by (Z.div_mod_to_equations; lia).
  rewrite text_ltb_digits4 by (Z.div_mod_to_equations; lia).
  apply eq_true_iff_eq. destruct (text_ltb ra rb);
    rewrite ?andb_true_r, ?andb_false_r, ?orb_false_r;
    rewrite ?orb_true_iff, ?andb_true_iff, ?orb_true_iff,
            ?Z.ltb_lt, ?Z.eqb_eq;
    Z.div_mod_to_equations; lia.
Qed.

Lemma text_ltb_same_head (c : Z) (ra rb : str) :
  text_ltb (c :: ra) (c :: rb) = text_ltb ra rb.
Proof.
  cbn [text_ltb]. rewrite Z.ltb_irrefl, Z.eqb_refl. reflexivity.
Qed.

Lemma text_ltb_fraction (a b : Z) :
  0 <= a < 1000000 -> 0 <= b < 1000000 ->
  text_ltb (fraction a) (fraction b) = (a <? b).
Proof.
  intros Ha Hb. unfold fraction.
  destruct (a =? 0) eqn:Ea, (b =? 0) eqn:Eb; to_prop; subst.
  - reflexivity.
  - cbn [text_ltb]. symmetry. apply Z.ltb_lt. lia.
  - cbn [text_ltb digits6 digits2 app]. symmetry. apply Z.ltb_ge. lia.
  - rewrite text_ltb_same_head.
    rewrite <- (app_nil_r (digits6 a)), <- (app_nil_r (digits6 b)).
    rewrite text_ltb_digits6 by assumption. cbn [text_ltb].
    now rewrite andb_false_r, orb_false_r.
Qed.

Example isoformat_whole_second :
  isoformat (mkFields 2024 1 15 10 30 45 0) = s_ "2024-01-15T10:30:45"
  /\ isoformat (mkFields 2024 1 15 10 30 45 123456)
     = s_ "2024-01-15T10:30:45.123456".
Proof. split; reflexivity. Qed.

(** The text of one timestamp sorts before the text of another exactly when
    the first datetime is the earlier one, the texts without microseconds
    included: the column can be read as the instant. *)
Lemma isoformat_order (a b : fields) :
  in_range a -> in_range b ->
  (text_ltb (isoformat a) (isoformat b) = true <-> earlier a b).
Proof.
  intros (Hy & Hmo & Hd & Hh & Hmi & Hs & Hu)
         (Hy' & Hmo' & Hd' & Hh' & Hmi' & Hs' & Hu').
  unfold isoformat, earlier.
  rewrite text_ltb_digits4 by lia. rewrite text_ltb_same_head.
  rewrite text_ltb_digits2 by lia. rewrite text_ltb_same_head.
  rewrite text_ltb_digits2 by lia. rewrite text_ltb_same_head.
  rewrite text_ltb_digits2 by lia. rewrite text_ltb_same_head.
  rewrite text_ltb_digits2 by lia. rewrite text_ltb_same_head.
  rewrite text_ltb_digits2 by lia.
  rewrite text_ltb_fraction by lia.
  rewrite ?orb_true_iff, ?andb_true_iff, ?orb_true_iff, ?andb_true_iff,
          ?orb_true_iff, ?andb_true_iff, ?orb_true_iff, ?andb_true_iff,
          ?orb_true_iff, ?andb_true_iff, ?orb_true_iff, ?andb_true_iff,
          ?Z.ltb_lt, ?Z.eqb_eq.
  reflexivity.
Qed.

(** ** The calendar *)

Import Calendar.

Lemma days_ok_sound (fuel : nat) :
  forall doe prev : Z,
    days_ok fuel doe prev = true ->
    forall j, 0 <= j < Z.of_nat fuel ->
      date_ok (civil_of_doe (doe + j)) = true
      /\ (j = 0 -> prev < key (civil_of_doe doe))
      /\ (0 < j ->
          key (civil_of_doe (doe + j - 1)) < key (civil_of_doe (doe + j))).
Proof.
  induction fuel as [|fuel IH]; intros doe prev H j Hj; [lia|].
  cbn [days_ok] in H. apply andb_true_iff in H. destruct H as [H0 H1].
  apply andb_true_iff in H0. destruct H0 as [Hd Hp]. apply Z.ltb_lt in Hp.
  destruct (Z.eq_dec j 0) as [->|Hne].
  - rewrite Z.add_0_r. split; [exact Hd|]. split; [intros _; exact Hp|lia].
  - destruct (IH _ _ H1 (j - 1) ltac:(lia)) as (G1 & G2 & G3).
    replace (doe + 1 + (j - 1)) with (doe + j) in * by lia.
    split; [exact G1|]. split; [lia|]. intros _.
    destruct (Z.eq_dec j 1) as [->|Hj1].
    + replace (doe + 1 - 1) with doe by lia. apply G2. reflexivity.
    + replace (doe + 1 + (j - 1) - 1) with (doe + j - 1) in G3 by lia.
      apply G3. lia.
Qed.

Lemma cycle_checked : days_ok (Z.to_nat 146097) 0 0 = true.
Proof. vm_compute. reflexivity. Qed.

Lemma civil_of_doe_facts (doe : Z) :
  0 <= doe < 146097 ->
  let '(y, m, d) := civil_of_doe doe in
  0 <= y <= 400 /\ 1 <= m <= 12 /\ 1 <= d <= 31
  /\ (doe < 146096 ->
      key (civil_of_doe doe) < key (civil_of_doe (doe + 1))).
Proof.
  intros H.
  pose proof (@days_ok_sound _ 0 0 cycle_checked doe) as Hd.
  rewrite Z2Nat.id in Hd by lia. specialize (Hd H). cbn [Z.add] in Hd.
  destruct Hd as (Hd & _).
  assert (Hn : doe < 146096 ->
               key (civil_of_doe doe) < key (civil_of_doe (doe + 1))).
  { intros Hlt.
    pose proof (@days_ok_sound _ 0 0 cycle_checked (doe + 1)) as Hs.
    rewrite Z2Nat.id in Hs by lia. specialize (Hs ltac:(lia)).
    cbn [Z.add] in Hs. destruct Hs as (_ & _ & Hs).
    replace (doe + 1 - 1) with doe in Hs by lia. apply Hs. lia. }
  unfold date_ok in Hd. destruct (civil_of_doe doe) as [[y m] d].
  to_prop. split; [lia|split; [lia|split; [lia|exact Hn]]].
Qed.

Lemma key_grows_in_cycle (n : nat) :
  forall a : Z,
    0 <= a -> a + Z.of_nat n < 146097 ->
    key (civil_of_doe a) <= key (civil_of_doe (a + Z.of_nat n))
    /\ (0 < Z.of_nat n ->
        key (civil_of_doe a) < key (civil_of_doe (a + Z.of_nat n))).
Proof.
  induction n as [|n IH]; intros a Ha Hb.
  - rewrite Z.add_0_r. lia.
  - assert (F : key (civil_of_doe a) < key (civil_of_doe (a + 1))).
    { pose proof (@civil_of_doe_facts a ltac:(lia)) as F.
      destruct (civil_of_doe a) as [[y m] d].
      destruct F as (_ & _ & _ & F). apply F. lia. }
    destruct (IH (a + 1) ltac:(lia) ltac:(lia)) as [G _].
    replace (a + 1 + Z.of_nat n) with (a + Z.of_nat (S n)) in G by lia.
    lia.
Qed.

Lemma date_of_day_facts (days : Z) :
  0 <= days + 306 ->
  let '(y, m, d) := date_of_day days in
  1 <= m <= 12 /\ 1 <= d <= 31
  /\ key (y, m, d)
     = key (civil_of_doe ((days + 306) mod 146097))
       + 166400 * ((days + 306) / 146097)
  /\ 97 <= key (civil_of_doe ((days + 306) mod 146097)) <= 166493.
Proof.
  intros H. unfold date_of_day.
  assert (R : 0 <= (days + 306) mod 146097 < 146097)
    by (apply Z.mod_pos_bound; lia).
  set (doe := (days + 306) mod 146097) in *.
  pose proof (@civil_of_doe_facts doe R) as F.
  pose proof (@key_grows_in_cycle (Z.to_nat doe) 0 ltac:(lia) ltac:(lia))
    as [L _].
  pose proof (@key_grows_in_cycle (Z.to_nat (146096 - doe)) doe
                                  ltac:(lia) ltac:(lia)) as [U _].
  rewrite Z2Nat.id in L, U by lia.
  replace (0 + doe) with doe in L by lia.
  replace (doe + (146096 - doe)) with 146096 in U by lia.
  change (key (civil_of_doe 0)) with 97 in L.
  change (key (civil_of_doe 146096)) with 166493 in U.
  destruct (civil_of_doe doe) as [[y m] d].
  destruct F as (_ & Hm & Hd & _).
  split; [exact Hm|]. split; [exact Hd|]. split; [|lia].
  unfold key. lia.
Qed.

(** A later day has a later date. *)
Lemma date_key_grows (a b : Z) :
  0 <= a + 306 -> a < b -> key (date_of_day a) < key (date_of_day b).
Proof.
  intros Ha Hab.
  pose proof (@date_of_day_facts a Ha) as Fa.
  pose proof (@date_of_day_facts b ltac:(lia)) as Fb.
  destruct (date_of_day a) as [[ya ma] da].
  destruct (date_of_day b) as [[yb mb] db].
  destruct Fa as (_ & _ & -> & Ra). destruct Fb as (_ & _ & -> & Rb).
  assert (Da : 0 <= (a + 306) mod 146097 < 146097)
    by (apply Z.mod_pos_bound; lia).
  assert (Db : 0 <= (b + 306) mod 146097 < 146097)
    by (apply Z.mod_pos_bound; lia).
  pose proof (Z.div_mod (a + 306) 146097 ltac:(lia)) as Ea.
  pose proof (Z.div_mod (b + 306) 146097 ltac:(lia)) as Eb.
  destruct (Z.lt_ge_cases ((a + 306) / 146097) ((b + 306) / 146097))
    as [Lt|Ge].
  - lia.
  - assert (Eq : (a + 306) / 146097 = (b + 306) / 146097) by lia.
    assert (Dl : (a + 306) mod 146097 < (b + 306) mod 146097) by lia.
    pose proof (@key_grows_in_cycle
                  (Z.to_nat ((b + 306) mod 146097 - (a + 306) mod 146097))
                  ((a + 306) mod 146097) ltac:(lia) ltac:(lia)) as [_ G].
    rewrite Z2Nat.id in G by lia.
    replace ((a + 306) mod 146097
             + ((b + 306) mod 146097 - (a + 306) mod 146097))
      with ((b + 306) mod 146097) in G by lia.
    specialize (G ltac:(lia)). lia.
Qed.

Lemma date_of_day_range (days : Z) :
  0 <= days <= 3652058 ->
  let '(y, m, d) := date_of_day days in
  1 <= y <= 9999 /\ 1 <= m <= 12 /\ 1 <= d <= 31.
Proof.
  intros H.
  pose proof (@date_of_day_facts days ltac:(lia)) as F.
  assert (L : key (date_of_day 0) <= key (date_of_day days)).
  { destruct (Z.eq_dec days 0) as [->|N]; [lia|].
    apply Z.lt_le_incl, date_key_grows; lia. }
  assert (U : key (date_of_day days) <= key (date_of_day 3652058)).
  { destruct (Z.eq_dec days 3652058) as [->|N]; [lia|].
    apply Z.lt_le_incl, date_key_grows; lia. }
  change (key (date_of_day 0)) with 449 in L.
  change (key (date_of_day 3652058)) with 4159999 in U.
  destruct (date_of_day days) as [[y m] d].
  destruct F as (Hm & Hd & _). unfold key in L, U. lia.
Qed.

Example some_dates :
  date_of_day 0 = (1, 1, 1)
  /\ date_of_day 730178 = (2000, 2, 29)
  /\ date_of_day 738899 = (2024, 1, 15)
  /\ date_of_day 3652058 = (9999, 12, 31).
Proof. repeat split. Qed.

Example text_of_instants :
  text_of 0 = s_ "0001-01-01T00:00:00"
  /\ text_of 63840911445123456 = s_ "2024-01-15T10:30:45.123456"
  /\ text_of datetime_max = s_ "9999-12-31T23:59:59.999999".
Proof. repeat split. Qed.

Lemma fields_of_in_range (t : datetime) :
  0 <= t <= datetime_max -> in_range (fields_of t).
Proof.
  intros H. unfold fields_of, in_range.
  assert (D : 0 <= t / one_day <= 3652058)
    by (unfold one_day, datetime_max in *; Z.div_mod_to_equations; lia).
  pose proof (@date_of_day_range (t / one_day) D) as R.
  destruct (date_of_day (t / one_day)) as [[y m] d].
  cbn [year month day hour minute second microsecond].
  destruct R as (Hy & Hm & Hd).
  split; [exact Hy|]. split; [exact Hm|]. split; [exact Hd|].
  unfold one_day. repeat split; Z.div_mod_to_equations; lia.
Qed.

(** A later instant has the later fields. *)
Lemma fields_of_grows (a b : datetime) :
  0 <= a -> a < b -> earlier (fields_of a) (fields_of b).
Proof.
  intros Ha Hab. unfold fields_of, earlier.
  assert (Da : 0 <= a / one_day)
    by (unfold one_day; Z.div_mod_to_equations; lia).
  assert (Dab : a / one_day <= b / one_day)
    by (unfold one_day; Z.div_mod_to_equations; lia).
  destruct (Z.eq_dec (a / one_day) (b / one_day)) as [E|N].
  - rewrite <- E. destruct (date_of_day (a / one_day)) as [[y m] d].
    cbn [year month day hour minute second microsecond].
    right. split; [reflexivity|]. right. split; [reflexivity|].
    right. split; [reflexivity|].
    unfold one_day in *. Z.div_mod_to_equations. lia.
  - pose proof (@date_key_grows (a / one_day) (b / one_day)
                                ltac:(lia) ltac:(lia)) as K.
    pose proof (@date_of_day_facts (a / one_day) ltac:(lia)) as Fa.
    pose proof (@date_of_day_facts (b / one_day) ltac:(lia)) as Fb.
    destruct (date_of_day (a / one_day)) as [[ya ma] da].
    destruct (date_of_day (b / one_day)) as [[yb mb] db].
    cbn [year month day hour minute second microsecond].
    destruct Fa as (Hma & Hda & _). destruct Fb as (Hmb & Hdb & _).
    unfold key in K. lia.
Qed.

Lemma earlier_irreflexive (a : fields) : ~ earlier a a.
Proof. unfold earlier. lia. Qed.

Lemma earlier_asymmetric (a b : fields) : earlier a b -> ~ earlier b a.
Proof. unfold earlier. lia. Qed.

(** The engine, comparing the texts of two timestamps, compares their
    instants. *)
Lemma text_of_order (a b : datetime) :
  0 <= a <= datetime_max -> 0 <= b <= datetime_max ->
  text_ltb (text_of a) (text_of b) = (a <? b).
Proof.
  intros Ha Hb. apply eq_true_iff_eq. unfold text_of.
  rewrite isoformat_order by now apply fields_of_in_range.
  rewrite Z.ltb_lt. split.
  - intros E. destruct (Z.lt_trichotomy a b) as [L|[->|G]]; [exact L| |].
    + now apply earlier_irreflexive in E.
    + apply fields_of_grows in G; [|lia].
      now apply earlier_asymmetric in E.
  - intros L. apply fields_of_grows; lia.
Qed.

(** ** The statements on the stored text and on the instants agree *)

Lemma before_lt (a b : datetime) :
  AsText.representable a -> AsText.representable b ->
  AsText.before a b = (a <? b).
Proof. intros Ha Hb. now apply text_of_order. Qed.

Lemma count_older_on_text (cutoff : datetime) (db : Sqlite.database) :
  AsText.representable cutoff ->
  Forall (fun r => AsText.representable (Sqlite.timestamp r))
         (Sqlite.messages db) ->
  AsText.count_older cutoff db = Sqlite.count_older cutoff db.
Proof.
  intros Hc Hr. unfold AsText.count_older, Sqlite.count_older. f_equal.
  apply filter_ext_in. intros r Hin. rewrite Forall_forall in Hr.
  apply before_lt; auto.
Qed.

Lemma delete_older_on_text (cutoff : datetime) (db : Sqlite.database) :
  AsText.representable cutoff ->
  Forall (fun r => AsText.representable (Sqlite.timestamp r))
         (Sqlite.messages db) ->
  AsText.delete_older cutoff db = Sqlite.delete_older cutoff db.
Proof.
  intros Hc Hr. unfold AsText.delete_older, Sqlite.delete_older. f_equal.
  apply filter_ext_in. intros r Hin. rewrite Forall_forall in Hr.
  f_equal. apply before_lt; auto.
Qed.

Lemma insert_desc_on_text (r : Sqlite.row) (l : list Sqlite.row) :
  Forall (fun x => AsText.representable (Sqlite.timestamp x)) (r :: l) ->
  AsText.insert_desc r l = Sqlite.insert_desc r l.
Proof.
  intros H. inversion H as [|? ? Hr Hl]; subst.
  induction Hl as [|x l Hx Hl IH]; [reflexivity|].
  cbn [AsText.insert_desc Sqlite.insert_desc].
  rewrite before_lt by assumption.
  destruct (Sqlite.timestamp r <? Sqlite.timestamp x); [|reflexivity].
  f_equal. apply IH. now constructor.
Qed.

Lemma order_by_timestamp_desc_on_text (l : list Sqlite.row) :
  Forall (fun x => AsText.representable (Sqlite.timestamp x)) l ->
  AsText.order_by_timestamp_desc l = Sqlite.order_by_timestamp_desc l.
Proof.
  induction 1 as [|r l Hr Hl IH]; [reflexivity|].
  cbn [AsText.order_by_timestamp_desc Sqlite.order_by_timestamp_desc
       fold_right].
  fold (AsText.order_by_timestamp_desc l).
  fold (Sqlite.order_by_timestamp_desc l).
  rewrite IH. apply insert_desc_on_text. constructor; [exact Hr|].
  eapply Permutation_Forall; [apply order_by_timestamp_desc_perm|exact Hl].
Qed.

(** * Further properties *)

(** ** The decoder that replaces *)

Ltac bools_to_props :=
  repeat match goal with
  | H : _ = true |- _ =>
    progress (rewrite ?andb_true_iff, ?orb_true_iff, ?negb_true_iff,
                      ?andb_false_iff, ?orb_false_iff, ?negb_false_iff,
                      ?Z.leb_le, ?Z.ltb_lt, ?Z.eqb_eq,
                      ?Z.leb_gt, ?Z.ltb_ge, ?Z.eqb_neq in H)
  | H : _ = false |- _ =>
    progress (rewrite ?andb_true_iff, ?orb_true_iff, ?negb_true_iff,
                      ?andb_false_iff, ?orb_false_iff, ?negb_false_iff,
                      ?Z.leb_le, ?Z.ltb_lt, ?Z.eqb_eq,
                      ?Z.leb_gt, ?Z.ltb_ge, ?Z.eqb_neq in H)
  end.

Ltac split_branches :=
  repeat match goal with
  | |- context [match ?t with [] => _ | _ :: _ => _ end] =>
    is_var t; destruct t; cbv beta iota
  | |- context [if ?c then _ else _] =>
    let E := fresh "E" in destruct c eqn:E; cbv beta iota
  end.

Lemma decode_replace_vals (n : nat) :
  forall bs : list Z,
    (List.length bs <= n)%nat ->
    match Utf8.decode_vals bs with
    | Some s => Utf8Replace.decode_vals bs = s
    | None => In Utf8Replace.replacement (Utf8Replace.decode_vals bs)
    end.
Proof.
  induction n as [|n IH]; intros bs Hlen.
  { destruct bs; simpl in Hlen; [reflexivity|lia]. }
  destruct bs as [|b0 t0]; [reflexivity|].
  assert (Tail : forall (c : Z) (t : list Z),
             (List.length t <= n)%nat ->
             match option_map (cons c) (Utf8.decode_vals t) with
             | Some s => c :: Utf8Replace.decode_vals t = s
             | None => In Utf8Replace.replacement
                          (c :: Utf8Replace.decode_vals t)
             end).
  { intros c t Ht. specialize (IH t Ht).
    destruct (Utf8.decode_vals t) as [s|]; cbn [option_map].
    - now rewrite IH.
    - now right. }
  clear IH.
  cbn [Utf8.decode_vals Utf8Replace.decode_vals]. unfold Utf8.is_cont.
  split_branches; cbn [List.length] in Hlen;
    first [ now left
          | apply Tail; cbn [List.length]; lia
          | exfalso;
            repeat match goal with
                   | H : context [if ?c then _ else _] |- _ =>
                     let E := fresh "E" in destruct c eqn:E
                   end;
            bools_to_props; lia ].
Qed.

Lemma decode_replace_agrees (d : bytes) (s : str) :
  Utf8.decode d = Some s -> Utf8Replace.decode d = s.
Proof.
  unfold Utf8.decode, Utf8Replace.decode. intros H.
  pose proof (@decode_replace_vals (List.length (map byte_val d)) _
                                   (Nat.le_refl _)) as R.
  now rewrite H in R.
Qed.

Lemma decode_replace_marks (d : bytes) :
  Utf8.decode d = None ->
  In Utf8Replace.replacement (Utf8Replace.decode d).
Proof.
  unfold Utf8.decode, Utf8Replace.decode. intros H.
  pose proof (@decode_replace_vals (List.length (map byte_val d)) _
                                   (Nat.le_refl _)) as R.
  now rewrite H in R.
Qed.

Example decode_replace_samples :
  Utf8Replace.decode [x00; x01; xff] = [0; 1; 65533]
  /\ Utf8Replace.decode [xe2; x28; xa1] = [65533; 40; 65533]
  /\ Utf8Replace.decode [xe2; x82] = [65533]
  /\ Utf8Replace.decode [xed; xa0; x80] = [65533; 65533; 65533]
  /\ Utf8Replace.decode [xf0; x9f; x98; x41] = [65533; 65]
  /\ Utf8Replace.decode [xe2; x82; xac] = [8364].
Proof. repeat split. Qed.

(** ** What the list shows of a payload *)

Lemma hex_length (d : bytes) : len (MessageStorage.hex d) = 2 * len d.
Proof.
  unfold len, MessageStorage.hex.
  induction d as [|b d IH]; cbn [flat_map app List.length]; [reflexivity|].
  rewrite !Nat2Z.inj_succ. lia.
Qed.

Lemma hex_digit_ascii (n : Z) :
  0 <= n < 16 -> 48 <= MessageStorage.hex_digit n <= 102.
Proof. unfold MessageStorage.hex_digit. intros H. pick_branch; lia. Qed.

Lemma hex_pair_inj (a b : byte) :
  MessageStorage.hex_digit (byte_val a / 16)
  = MessageStorage.hex_digit (byte_val b / 16) ->
  MessageStorage.hex_digit (byte_val a mod 16)
  = MessageStorage.hex_digit (byte_val b mod 16) ->
  a = b.
Proof.
  intros H1 H2. pose proof (byte_val_range a). pose proof (byte_val_range b).
  assert (E : byte_val a = byte_val b).
  { unfold MessageStorage.hex_digit in *.
    destruct (byte_val a / 16 <? 10) eqn:A1, (byte_val b / 16 <? 10) eqn:B1,
             (byte_val a mod 16 <? 10) eqn:A2, (byte_val b mod 16 <? 10) eqn:B2;
      to_prop; Z.div_mod_to_equations; lia. }
  rewrite <- (byte_of_val a), <- (byte_of_val b). now rewrite E.
Qed.

Lemma hex_inj (d1 : bytes) :
  forall d2, MessageStorage.hex d1 = MessageStorage.hex d2 -> d1 = d2.
Proof.
  unfold MessageStorage.hex.
  induction d1 as [|a d1 IH]; intros [|b d2]; cbn [flat_map app];
    try discriminate; [reflexivity|].
  intros H. injection H as H1 H2 H3. f_equal; [now apply hex_pair_inj|auto].
Qed.

Lemma hex_chars (d : bytes) :
  Forall (fun c => 0 <= c < 128) (MessageStorage.hex d).
Proof.
  unfold MessageStorage.hex. induction d as [|b d IH]; cbn [flat_map app];
    [constructor|].
  pose proof (byte_val_range b).
  assert (0 <= byte_val b / 16 < 16) by (Z.div_mod_to_equations; lia).
  assert (0 <= byte_val b mod 16 < 16) by (Z.div_mod_to_equations; lia).
  pose proof (@hex_digit_ascii (byte_val b / 16) ltac:(assumption)).
  pose proof (@hex_digit_ascii (byte_val b mod 16) ltac:(assumption)).
  constructor; [lia|]. constructor; [lia|exact IH].
Qed.

Lemma decode_vals_ascii (l : list Z) :
  Forall (fun c => 0 <= c < 128) l -> Utf8.decode_vals l = Some l.
Proof.
  induction 1 as [|c l Hc _ IH]; [reflexivity|].
  cbn [Utf8.decode_vals]. replace (c <? 128) with true
    by (symmetry; apply Z.ltb_lt; lia).
  now rewrite IH.
Qed.

(** The bytes of a text of ASCII characters. *)
Lemma decode_ascii_bytes (l : list Z) :
  Forall (fun c => 0 <= c < 128) l ->
  Utf8.decode (map byte_of_Z l) = Some l.
Proof.
  intros H. unfold Utf8.decode. rewrite map_byte_val_of.
  - now apply decode_vals_ascii.
  - eapply Forall_impl; [|exact H]. cbn. intros; lia.
Qed.

Lemma decode_ascii_length (d : bytes) (s : str) :
  Forall (fun c => 0 <= c < 128) s ->
  Utf8.decode d = Some s -> len d = len s.
Proof.
  intros Hs Hd. pose proof (@decode_ascii_bytes _ Hs) as Hd'.
  apply decode_iff_encode in Hd, Hd'. rewrite Hd in Hd'.
  injection Hd' as ->. unfold len. now rewrite length_map.
Qed.

Lemma decode_inj (d1 d2 : bytes) (s : str) :
  Utf8.decode d1 = Some s -> Utf8.decode d2 = Some s -> d1 = d2.
Proof.
  intros H1 H2. apply decode_iff_encode in H1, H2. congruence.
Qed.

Lemma decode_none_nonempty (d : bytes) : Utf8.decode d = None -> d <> [].
Proof. intros H ->. discriminate. Qed.

(** X1.  Of a record as [store_message] writes it, the list shows the text
    of the payload or, for a payload that is not text or is empty, its
    hexadecimal digits, together with the size.  The two together tell the
    payload: two stored records shown with the same [data] and the same
    [data_size] have the same payload. *)
Theorem listed_data_and_size_tell_payload (r1 r2 : row) :
  Stored.as_stored r1 -> Stored.as_stored r2 ->
  MessageStorage.m_data (MessageStorage.to_message r1)
  = MessageStorage.m_data (MessageStorage.to_message r2) ->
  MessageStorage.m_data_size (MessageStorage.to_message r1)
  = MessageStorage.m_data_size (MessageStorage.to_message r2) ->
  data r1 = data r2.
Proof.
  intros [T1 S1] [T2 S2]. unfold MessageStorage.to_message.
  cbn [MessageStorage.m_data MessageStorage.m_data_size].
  rewrite S1, S2, T1, T2. clear T1 S1 T2 S2.
  assert (Mixed : forall (d1 d2 : bytes) (c : Z) (s : str),
             Utf8.decode d1 = Some (c :: s) ->
             c :: s = MessageStorage.hex d2 -> len d1 = len d2 -> False).
  { intros d1 d2 c s Hd Hh Hl.
    pose proof (hex_chars d2) as A. rewrite <- Hh in A.
    pose proof (@decode_ascii_length _ _ A Hd) as L.
    pose proof (hex_length d2) as L2. rewrite <- Hh in L2.
    assert (len d2 = 0) by lia.
    destruct d2; [discriminate|]. unfold len in *. cbn in *. lia. }
  destruct (Utf8.decode (data r1)) as [[|c1 s1]|] eqn:D1;
    destruct (Utf8.decode (data r2)) as [[|c2 s2]|] eqn:D2;
    intros Hd Hs;
    try (now apply hex_inj);
    try (exfalso; now apply (Mixed _ _ _ _ D1 Hd Hs));
    try (exfalso; symmetry in Hd, Hs; now apply (Mixed _ _ _ _ D2 Hd Hs)).
  rewrite Hd in D1. exact (@decode_inj _ _ _ D1 D2).
Qed.

Lemma listed_data_and_size_tell_payload_witness :
  data (mkRow 7 5 (s_ "10.0.0.1") 4000 [xff] None 1)
  = data (mkRow 9 6 (s_ "10.0.0.2") 4001 [xff] None 1).
Proof.
  apply (@listed_data_and_size_tell_payload
           (mkRow 7 5 (s_ "10.0.0.1") 4000 [xff] None 1)
           (mkRow 9 6 (s_ "10.0.0.2") 4001 [xff] None 1));
    repeat split.
Defined.

(** X2.  The [data] shown does not alone tell the payload: for every stored
    record whose payload is not text, the record storing instead the text
    of its hexadecimal digits is another payload shown with the same
    [data]. *)
Theorem listed_data_alone_is_ambiguous (r : row) :
  Stored.as_stored r -> data_text r = None ->
  let d' := map byte_of_Z (MessageStorage.hex (data r)) in
  let r' := mkRow (id r) (timestamp r) (client_ip r) (client_port r)
                  d' (Utf8.decode d') (len d') in
  Stored.as_stored r'
  /\ data r' <> data r
  /\ MessageStorage.m_data (MessageStorage.to_message r')
     = MessageStorage.m_data (MessageStorage.to_message r).
Proof.
  intros [T S] N d' r'. subst r'. split; [split; reflexivity|].
  cbn [data]. rewrite N in T. symmetry in T.
  pose proof (@decode_none_nonempty _ T) as Hne.
  split.
  - intros E. apply (f_equal (fun l => len l)) in E. subst d'.
    unfold len at 1 in E. rewrite length_map in E. fold (len (MessageStorage.hex (data r))) in E.
    rewrite hex_length in E. destruct (data r); [now elim Hne|].
    unfold len in E. cbn in E. lia.
  - unfold MessageStorage.to_message. cbn [MessageStorage.m_data data data_text].
    rewrite N. subst d'. rewrite (@decode_ascii_bytes _ (hex_chars (data r))).
    destruct (MessageStorage.hex (data r)) eqn:H; [|reflexivity].
    destruct (data r); [now elim Hne|discriminate].
Qed.

Lemma listed_data_alone_is_ambiguous_witness :
  MessageStorage.m_data
    (MessageStorage.to_message
       (mkRow 7 5 (s_ "10.0.0.1") 4000 (b_ "ff") (Some (s_ "ff")) 2))
  = MessageStorage.m_data
      (MessageStorage.to_message
         (mkRow 7 5 (s_ "10.0.0.1") 4000 [xff] None 1)).
Proof.
  refine (proj2 (proj2 (@listed_data_alone_is_ambiguous
                          (mkRow 7 5 (s_ "10.0.0.1") 4000 [xff] None 1)
                          _ eq_refl))).
  split; reflexivity.
Defined.

(** ** More on the queries *)

Lemma int64_small (n : Z) :
  - 9223372036854775808 <= n <= 9223372036854775807 -> int64 n = true.
Proof.
  intros H. unfold int64. apply andb_true_iff. split; apply Z.leb_le; lia.
Qed.

Lemma fits_some (n : Z) :
  - 9223372036854775808 <= n <= 9223372036854775807 -> fits (Some n).
Proof. intros H m Hm. injection Hm as <-. now apply int64_small. Qed.

Lemma get_messages_page (E : engine) (n k : Z) (a : option str)
      (p : option Z) (db : database) :
  0 < n <= 9223372036854775807 -> 0 <= k <= 9223372036854775807 ->
  encodable a -> fits p ->
  MessageStorage.get_messages E true (Some n) (Some k) a p db
  = Ok (map MessageStorage.to_message
            (firstn (Z.to_nat n)
                    (skipn (Z.to_nat k)
                           (E (MessageStorage.build_query (Some n) (Some k)
                                                          a p)
                              (filter
                                 (holds_all
                                    ((if MessageStorage.truthy_str a
                                      then [client_ip_eq
                                              (MessageStorage.get_str a)]
                                      else [])
                                     ++ (if MessageStorage.truthy_int p
                                         then [client_port_eq
                                                 (MessageStorage.get_int p)]
                                         else [])))
                                 (messages db)))))).
Proof.
  intros Hn Hk Fa Fp.
  assert (L : MessageStorage.truthy_int (Some n) = true)
    by (cbn; apply negb_true_iff, Z.eqb_neq; lia).
  rewrite get_messages_ok.
  - cbv zeta. rewrite L. cbn [MessageStorage.get_int]. unfold limit_offset.
    replace (n <? 0) with false by (symmetry; apply Z.ltb_ge; lia).
    destruct (MessageStorage.truthy_int (Some k)) eqn:O; [reflexivity|].
    cbn in O. apply negb_false_iff, Z.eqb_eq in O. subst k. reflexivity.
  - intros _. exact L.
  - apply bind_build_query; try assumption; apply fits_some; lia.
Qed.

Lemma firstn_add_skipn {A : Type} (n m : nat) (l : list A) :
  firstn n l ++ firstn m (skipn n l) = firstn (n + m) l.
Proof.
  revert l. induction n as [|n IH]; intros l; [reflexivity|].
  destruct l as [|x l]; cbn [firstn skipn app Nat.add].
  - now rewrite firstn_nil.
  - now rewrite IH.
Qed.

(** X3.  Pages follow one another: for every positive page sizes [n] and
    [m] and every offset [k] that is not negative, all within 64 bits,
    whatever the filters that can be bound, when no two matching records
    have the same timestamp, the page of [n] records at [k] followed by
    the page of [m] records at [k + n] is the page of [n + m] records at
    [k], whatever the order the engine gives to records of the same
    timestamp elsewhere. *)
Theorem pages_follow_one_another
        (E : engine) (n m k : Z) (a : option str) (p : option Z)
        (db : database) :
  orders_by_timestamp E ->
  0 < n -> 0 < m -> 0 <= k ->
  n + m <= 9223372036854775807 -> k + n <= 9223372036854775807 ->
  encodable a -> fits p ->
  NoDup (map timestamp
             (filter
                (holds_all
                   ((if MessageStorage.truthy_str a
                     then [client_ip_eq (MessageStorage.get_str a)] else [])
                    ++ (if MessageStorage.truthy_int p
                        then [client_port_eq (MessageStorage.get_int p)]
                        else [])))
                (messages db))) ->
  exists p1 p2 p3 : list MessageStorage.message,
    MessageStorage.get_messages E true (Some n) (Some k) a p db = Ok p1
    /\ MessageStorage.get_messages E true (Some m) (Some (k + n)) a p db
       = Ok p2
    /\ MessageStorage.get_messages E true (Some (n + m)) (Some k) a p db
       = Ok p3
    /\ p1 ++ p2 = p3.
Proof.
  intros HE Hn Hm Hk Hnm Hkn Fa Fp Hnd. do 3 eexists.
  split; [apply get_messages_page; try assumption; lia|].
  split; [apply get_messages_page; try assumption; lia|].
  split; [apply get_messages_page; try assumption; lia|].
  set (matching := filter _ (messages db)) in *.
  assert (U : forall q, E q matching = order_by_timestamp_desc matching).
  { intros q. apply (ordered_unique Hnd);
      [exact (HE q matching)|exact (by_rowid_orders [] matching)]. }
  rewrite !U. rewrite <- map_app. f_equal.
  replace (Z.to_nat (k + n)) with (Z.to_nat n + Z.to_nat k)%nat by lia.
  rewrite <- skipn_skipn.
  replace (Z.to_nat (n + m)) with (Z.to_nat n + Z.to_nat m)%nat by lia.
  apply firstn_add_skipn.
Qed.

Lemma pages_follow_one_another_witness :
  exists p1 p2 p3 : list MessageStorage.message,
    MessageStorage.get_messages by_rowid true (Some 1) (Some 1) None None
                                sample_db
    = Ok p1
    /\ MessageStorage.get_messages by_rowid true (Some 2) (Some 2) None None
                                   sample_db
       = Ok p2
    /\ MessageStorage.get_messages by_rowid true (Some 3) (Some 1) None None
                                   sample_db
       = Ok p3
    /\ p1 ++ p2 = p3.
Proof.
  apply (@pages_follow_one_another by_rowid 1 2 1 None None sample_db);
    try lia.
  - exact by_rowid_orders.
  - discriminate.
  - discriminate.
  - repeat constructor; cbn; intuition discriminate.
Defined.

Lemma In_firstn {A : Type} (n : nat) (l : list A) (x : A) :
  In x (firstn n l) -> In x l.
Proof.
  intros H. rewrite <- (firstn_skipn n l). apply in_or_app. now left.
Qed.

Lemma In_skipn {A : Type} (n : nat) (l : list A) (x : A) :
  In x (skipn n l) -> In x l.
Proof.
  intros H. rewrite <- (firstn_skipn n l). apply in_or_app. now right.
Qed.

Lemma NoDup_firstn {A : Type} (n : nat) (l : list A) :
  NoDup l -> NoDup (firstn n l).
Proof.
  intros H. rewrite <- (firstn_skipn n l) in H.
  now apply NoDup_app_remove_r in H.
Qed.

Lemma NoDup_skipn {A : Type} (n : nat) (l : list A) :
  NoDup l -> NoDup (skipn n l).
Proof.
  intros H. rewrite <- (firstn_skipn n l) in H.
  now apply NoDup_app_remove_l in H.
Qed.

Lemma limit_offset_part (n k : Z) (l : list row) :
  (forall x, In x (limit_offset n k l) -> In x l)
  /\ (NoDup (map id l) -> NoDup (map id (limit_offset n k l)))
  /\ (0 <= n -> len (limit_offset n k l) <= n).
Proof.
  unfold limit_offset. destruct (n <? 0) eqn:E; to_prop.
  - split; [intros x; apply In_skipn|].
    split; [|lia]. rewrite <- skipn_map. apply NoDup_skipn.
  - split; [intros x H; eapply In_skipn, In_firstn, H|].
    split.
    + rewrite <- firstn_map, <- skipn_map. intros H.
      now apply NoDup_firstn, NoDup_skipn.
    + intros _. unfold len.
      pose proof (firstn_le_length (Z.to_nat n) (skipn (Z.to_nat k) l)). lia.
Qed.

(** X4.  A query that returns shows records of the table only, each at most
    once when the ids of the table are distinct, each one satisfying the
    filters that were given (an address that is not empty, a port that is
    not 0), and no more of them than a positive limit, in whatever order
    the engine takes records of the same timestamp. *)
Theorem get_messages_shows_matching_rows
        (E : engine) (disk : bool) (limit offset : option Z)
        (a : option str) (p : option Z) (db : database)
        (ms : list MessageStorage.message) :
  orders_by_timestamp E ->
  MessageStorage.get_messages E disk limit offset a p db = Ok ms ->
  (forall m, In m ms ->
     exists r, In r (messages db) /\ m = MessageStorage.to_message r
               /\ (forall ip, a = Some ip -> ip <> [] ->
                              MessageStorage.m_client_ip m = ip)
               /\ (forall port, p = Some port -> port <> 0 ->
                                MessageStorage.m_client_port m = port))
  /\ (NoDup (map id (messages db)) ->
      NoDup (map MessageStorage.m_id ms))
  /\ (forall n, limit = Some n -> 0 < n -> len ms <= n).
Proof.
  intros HE H.
  destruct (get_messages_inv _ _ _ _ _ _ _ H) as (-> & Hlo & Hb).
  rewrite (@get_messages_ok E limit offset a p db Hlo Hb) in H. cbv zeta in H.
  injection H as <-.
  set (conds := (if MessageStorage.truthy_str a
                 then [client_ip_eq (MessageStorage.get_str a)] else [])
                ++ (if MessageStorage.truthy_int p
                    then [client_port_eq (MessageStorage.get_int p)]
                    else [])).
  set (every := E (MessageStorage.build_query limit offset a p)
                  (filter (holds_all conds) (messages db))).
  set (shown := if MessageStorage.truthy_int limit
                then limit_offset
                       (MessageStorage.get_int limit)
                       (if MessageStorage.truthy_int offset
                        then MessageStorage.get_int offset else 0) every
                else every).
  assert (P : Permutation (filter (holds_all conds) (messages db)) every)
    by apply HE.
  assert (Sub : forall x, In x shown -> In x every).
  { subst shown. destruct (MessageStorage.truthy_int limit); [|auto].
    apply limit_offset_part. }
  assert (Ev : forall x, In x every ->
                         In x (messages db) /\ holds_all conds x = true).
  { intros x Hx. apply filter_In.
    eapply Permutation_in; [apply Permutation_sym, P|exact Hx]. }
  split; [|split].
  - intros m Hm. apply in_map_iff in Hm. destruct Hm as (r & <- & Hr).
    destruct (Ev _ (Sub _ Hr)) as [Hin Hh]. exists r.
    split; [exact Hin|]. split; [reflexivity|].
    unfold holds_all in Hh. rewrite forallb_forall in Hh. split.
    + intros ip -> Hne. destruct ip as [|c s]; [now elim Hne|].
      specialize (Hh (client_ip_eq (c :: s))).
      cbn [MessageStorage.to_message MessageStorage.m_client_ip].
      apply str_eqb_eq. apply Hh. subst conds. cbn. now left.
    + intros port -> Hne.
      specialize (Hh (client_port_eq port)).
      cbn [MessageStorage.to_message MessageStorage.m_client_port].
      apply Z.eqb_eq. apply Hh. subst conds. apply in_or_app. right.
      cbn. apply Z.eqb_neq in Hne. rewrite Hne. cbn. now left.
  - intros Hnd. rewrite map_map.
    change (fun x : row => MessageStorage.m_id (MessageStorage.to_message x))
      with id.
    assert (Hev : NoDup (map id every)).
    { eapply Permutation_NoDup; [apply Permutation_map, P|].
      clear - Hnd. induction (messages db) as [|x l IH]; [constructor|].
      cbn [map] in Hnd. inversion Hnd as [|? ? Hx Hl]; subst.
      cbn [filter]. destruct (holds_all conds x); [|auto].
      cbn [map]. constructor; [|auto]. intros Hin. apply Hx.
      apply in_map_iff in Hin. destruct Hin as (y & Hy & Hin).
      apply filter_In in Hin. apply in_map_iff. exists y. tauto. }
    subst shown. destruct (MessageStorage.truthy_int limit); [|exact Hev].
    now apply limit_offset_part.
  - intros n -> Hn. subst shown.
    assert (L : MessageStorage.truthy_int (Some n) = true)
      by (cbn; apply negb_true_iff, Z.eqb_neq; lia).
    rewrite L. unfold len. rewrite length_map.
    apply limit_offset_part. cbn. lia.
Qed.

Lemma get_messages_shows_matching_rows_witness :
  MessageStorage.get_messages by_rowid true (Some 1) None
                              (Some (s_ "192.168.1.100")) None sample_db
  = Ok (map MessageStorage.to_message
            [mkRow 3 30 (s_ "192.168.1.100") 54323 (b_ "Message 3")
                   (Some (s_ "Message 3")) 9])
  /\ len (map MessageStorage.to_message
              [mkRow 3 30 (s_ "192.168.1.100") 54323 (b_ "Message 3")
                     (Some (s_ "Message 3")) 9]) <= 1.
Proof.
  split; [reflexivity|].
  apply (proj2 (proj2 (@get_messages_shows_matching_rows
                         by_rowid true (Some 1) None
                         (Some (s_ "192.168.1.100")) None
                         sample_db _ by_rowid_orders eq_refl)) 1 eq_refl).
  lia.
Defined.

(** ** Storing, then reading *)

(** A record stamped after every other one comes first. *)
Lemma newest_is_first (l rows : list row) (r : row) :
  Forall (fun x => timestamp x < timestamp r) l ->
  Spec.ordered (l ++ [r]) rows -> exists rest, rows = r :: rest.
Proof.
  intros Hall [P S]. rewrite Forall_forall in Hall.
  destruct rows as [|h rest].
  { apply Permutation_sym, Permutation_nil in P. now destruct l. }
  exists rest. f_equal.
  assert (Hh : In h (l ++ [r]))
    by (eapply Permutation_in; [apply Permutation_sym, P|now left]).
  assert (Hr : In r (h :: rest))
    by (eapply Permutation_in; [exact P|apply in_or_app; right; now left]).
  apply in_app_or in Hh. destruct Hh as [Hh|[Hh|[]]]; [|now symmetry].
  exfalso. specialize (Hall _ Hh).
  destruct Hr as [->|Hr]; [lia|].
  inversion S as [|? ? _ F]; subst. rewrite Forall_forall in F.
  specialize (F _ Hr). unfold newest_first in F. lia.
Qed.

(** The statement of the direct reader is the statement of the store for
    the same limit and filters and no offset. *)
Lemma udpfetch_get_messages_eq (E : engine) (disk : bool) (limit : option Z)
      (a : option str) (p : option Z) (db : database) :
  Udpfetch.get_messages E disk limit a p db
  = (_ <- connect disk ;;
     rows <- select E (MessageStorage.build_query limit None a p) db ;;
     Ok (map Udpfetch.of_row rows)).
Proof.
  unfold Udpfetch.get_messages, MessageStorage.build_query.
  cbn [MessageStorage.truthy_int]. now rewrite app_nil_r.
Qed.

Lemma udpfetch_get_messages_ok (E : engine) (limit : option Z)
      (a : option str) (p : option Z) (db : database) :
  bind_parameters (MessageStorage.build_query limit None a p) = Ok tt ->
  Udpfetch.get_messages E true limit a p db
  = Ok (map Udpfetch.of_row
            (let every :=
               E (MessageStorage.build_query limit None a p)
                 (filter
                    (holds_all
                       ((if MessageStorage.truthy_str a
                         then [client_ip_eq (MessageStorage.get_str a)]
                         else [])
                        ++ (if MessageStorage.truthy_int p
                            then [client_port_eq (MessageStorage.get_int p)]
                            else [])))
                    (messages db)) in
             if MessageStorage.truthy_int limit
             then limit_offset (MessageStorage.get_int limit) 0 every
             else every)).
Proof.
  intros Hb. rewrite udpfetch_get_messages_eq. unfold select.
  cbn [connect bind]. rewrite parse_build_query by discriminate.
  rewrite Hb. cbn [bind MessageStorage.truthy_int]. cbv zeta.
  destruct (MessageStorage.truthy_int limit); reflexivity.
Qed.

Lemma filter_true {A : Type} (l : list A) : filter (fun _ => true) l = l.
Proof. induction l as [|x l IH]; cbn; congruence. Qed.

(** X5.  Read your write, whatever the order the engine takes for records
    of the same timestamp: when [store_message] returns and every record
    already present is stamped strictly before the new one, the new record
    is the latest message of [udpfetch.get_latest_message] and the only
    entry of the first page of size 1 of [get_messages], with the id
    that was returned, the payload and its length. *)
Theorem stored_message_is_latest
        (E : engine) (disk : bool) (now : datetime) (ip : str) (port : Z)
        (payload : bytes) (db db' : database) (mid : Z) :
  orders_by_timestamp E ->
  MessageStorage.store_message disk now ip port payload db = Ok (mid, db') ->
  Forall (fun r => timestamp r < now) (messages db) ->
  Udpfetch.get_latest_message E true db'
  = Ok (Some (Udpfetch.mkMessage
                mid now ip port
                match Utf8.decode payload with
                | Some (c :: s) => c :: s
                | _ => Utf8Replace.decode payload
                end
                payload (len payload)))
  /\ MessageStorage.get_messages E true (Some 1) None None None db'
     = Ok [MessageStorage.mkMessage
             mid now ip port
             match Utf8.decode payload with
             | Some (c :: s) => c :: s
             | _ => MessageStorage.hex payload
             end
             (len payload)].
Proof.
  intros HE H Hall. apply store_message_ok in H.
  destruct H as (_ & _ & _ & ->).
  set (r := mkRow mid now ip port payload (Utf8.decode payload) (len payload)).
  assert (F : forall q,
             exists rest,
               E q (filter (holds_all []) (messages db ++ [r])) = r :: rest).
  { intros q. unfold holds_all. cbn [forallb]. rewrite filter_true.
    apply (newest_is_first (l := messages db)); [exact Hall|].
    exact (HE q (messages db ++ [r])). }
  split.
  - unfold Udpfetch.get_latest_message.
    rewrite udpfetch_get_messages_ok by reflexivity.
    cbn [MessageStorage.truthy_str MessageStorage.truthy_int
         MessageStorage.get_int Z.eqb negb app messages].
    cbv zeta.
    destruct (F (MessageStorage.build_query (Some 1) None None None))
      as [rest ->].
    reflexivity.
  - rewrite get_messages_ok by (discriminate || reflexivity).
    cbn [MessageStorage.truthy_str MessageStorage.truthy_int
         MessageStorage.get_int Z.eqb negb app messages].
    cbv zeta.
    destruct (F (MessageStorage.build_query (Some 1) None None None))
      as [rest ->].
    reflexivity.
Qed.

Lemma stored_message_is_latest_witness :
  Udpfetch.get_latest_message
    by_rowid true
    (mkDb [mkRow 1 5 (s_ "192.168.1.100") 54321 [x00; x01; xff] None 3] 1)
  = Ok (Some (Udpfetch.mkMessage 1 5 (s_ "192.168.1.100") 54321
                                 [0; 1; 65533] [x00; x01; xff] 3)).
Proof.
  apply (@stored_message_is_latest
           by_rowid true 5 (s_ "192.168.1.100") 54321 [x00; x01; xff]
           empty _ 1 by_rowid_orders eq_refl).
  constructor.
Defined.

Lemma find_id_app (i : Z) (l1 l2 : list row) :
  find (fun r => id r =? i) (l1 ++ l2)
  = match find (fun r => id r =? i) l1 with
    | Some r => Some r
    | None => find (fun r => id r =? i) l2
    end.
Proof.
  induction l1 as [|x l1 IH]; [reflexivity|].
  cbn [app find]. destruct (id x =? i); [reflexivity|exact IH].
Qed.

Lemma find_id_above (i : Z) (l : list row) :
  max_rowid l < i -> find (fun r => id r =? i) l = None.
Proof.
  intros H. destruct (find (fun r => id r =? i) l) as [r|] eqn:E;
    [|reflexivity].
  apply find_some in E. destruct E as [Hin Hid]. apply Z.eqb_eq in Hid.
  pose proof (max_rowid_ge _ _ Hin). lia.
Qed.

(** X6.  Lookup by id after a store: when [store_message] returns an id,
    GET /messages/{id} for that id answers 200 with the record just
    written (the decoded text when the payload is UTF-8 text that is not
    empty, the payload decoded with replacement characters otherwise),
    and the answer for every other id is what it was before the store. *)
Theorem stored_message_found_by_id
        (disk : bool) (now : datetime) (ip : str) (port : Z) (payload : bytes)
        (db db' : database) (mid : Z) :
  MessageStorage.store_message disk now ip port payload db = Ok (mid, db') ->
  RestApi.get_message true mid db'
  = RestApi.ok_200
      (MessageStorage.mkMessage
         mid now ip port
         match Utf8.decode payload with
         | Some (c :: s) => c :: s
         | _ => Utf8Replace.decode payload
         end
         (len payload))
  /\ (forall i, i <> mid ->
                RestApi.get_message true i db' = RestApi.get_message true i db).
Proof.
  intros H. apply store_message_ok in H.
  destruct H as (_ & Hmid & Hle & ->).
  pose proof (max_rowid_nonneg (messages db)) as Hnn.
  unfold RestApi.get_message. cbn [connect bind messages]. split.
  - unfold bind_int. rewrite int64_small by (unfold largest_rowid in Hle; lia).
    rewrite find_id_app, find_id_above by lia.
    cbn [find id]. rewrite Z.eqb_refl. reflexivity.
  - intros i Hi. destruct (bind_int i); [|reflexivity].
    rewrite find_id_app.
    destruct (find (fun r => id r =? i) (messages db)); [reflexivity|].
    cbn [find id]. replace (mid =? i) with false; [reflexivity|].
    symmetry. apply Z.eqb_neq. congruence.
Qed.

Lemma stored_message_found_by_id_witness :
  RestApi.get_message
    true 1
    (mkDb [mkRow 1 5 (s_ "192.168.1.100") 54321 [x00; x01; xff] None 3] 1)
  = RestApi.ok_200
      (MessageStorage.mkMessage 1 5 (s_ "192.168.1.100") 54321
                                [0; 1; 65533] 3).
Proof.
  apply (@stored_message_found_by_id
           true 5 (s_ "192.168.1.100") 54321 [x00; x01; xff] empty _ 1
           eq_refl).
Defined.

(** ** The list and the lookup by id *)

Lemma find_id_unique (l : list row) (r : row) :
  NoDup (map id l) -> In r l -> find (fun x => id x =? id r) l = Some r.
Proof.
  induction l as [|x l IH]; intros Hnd Hin; [contradiction|].
  cbn [map] in Hnd. inversion Hnd as [|? ? Hx Hl]; subst.
  cbn [find]. destruct Hin as [->|Hin].
  - now rewrite Z.eqb_refl.
  - destruct (id x =? id r) eqn:E; [|now apply IH].
    apply Z.eqb_eq in E. exfalso. apply Hx. rewrite E. now apply in_map.
Qed.

(** X7.  A record written by [store_message], its id an integer of 64
    bits as every id of the engine is, is found by GET
    /messages/{id} under its id, with the same id, timestamp, address,
    port and size as in the list of GET /messages.  The [data] shown is
    the same in both exactly when the payload is valid UTF-8: a payload
    that is not is shown as hexadecimal digits in the list and as text
    with replacement characters by the lookup by id. *)
Theorem list_and_lookup_show_text_alike (db : database) (r : row) :
  NoDup (map id (messages db)) -> In r (messages db) -> Stored.as_stored r ->
  int64 (id r) = true ->
  exists m : MessageStorage.message,
    RestApi.get_message true (id r) db = RestApi.ok_200 m
    /\ MessageStorage.m_id m = MessageStorage.m_id (MessageStorage.to_message r)
    /\ MessageStorage.m_timestamp m
       = MessageStorage.m_timestamp (MessageStorage.to_message r)
    /\ MessageStorage.m_client_ip m
       = MessageStorage.m_client_ip (MessageStorage.to_message r)
    /\ MessageStorage.m_client_port m
       = MessageStorage.m_client_port (MessageStorage.to_message r)
    /\ MessageStorage.m_data_size m
       = MessageStorage.m_data_size (MessageStorage.to_message r)
    /\ (m = MessageStorage.to_message r <-> Utf8.decode (data r) <> None).
Proof.
  intros Hnd Hin [Ht _] H64. eexists. split.
  { unfold RestApi.get_message, bind_int. cbn [connect bind]. rewrite H64.
    rewrite (find_id_unique _ _ Hnd Hin). reflexivity. }
  do 5 (split; [reflexivity|]).
  unfold MessageStorage.to_message, RestApi.message_text. rewrite Ht.
  destruct (Utf8.decode (data r)) as [[|c s]|] eqn:E.
  - assert (data r = []) as -> by (eapply decode_inj; [exact E|reflexivity]).
    split; [discriminate|reflexivity].
  - split; [discriminate|reflexivity].
  - split; [|intros H; now elim H].
    intros H. exfalso.
    assert (D : Utf8Replace.decode (data r) = MessageStorage.hex (data r))
      by congruence.
    pose proof (decode_replace_marks _ E) as M. rewrite D in M.
    pose proof (hex_chars (data r)) as C. rewrite Forall_forall in C.
    apply C in M. unfold Utf8Replace.replacement in M. lia.
Qed.

Lemma list_and_lookup_show_text_alike_witness :
  exists m : MessageStorage.message,
    RestApi.get_message true 1 sample_db = RestApi.ok_200 m
    /\ MessageStorage.m_id m = 1.
Proof.
  destruct (@list_and_lookup_show_text_alike
              sample_db
              (mkRow 1 10 (s_ "192.168.1.100") 54321 (b_ "Message 1")
                     (Some (s_ "Message 1")) 9))
    as (m & H & Hid & _).
  - repeat constructor; cbn; intuition discriminate.
  - now left.
  - split; reflexivity.
  - reflexivity.
  - exists m. split; [exact H|exact Hid].
Defined.

(** ** Purging, then purging or reading *)

Lemma filter_filter_cutoff (c1 c2 : datetime) (l : list row) :
  c1 <= c2 ->
  filter (fun r => negb (timestamp r <? c2))
         (filter (fun r => negb (timestamp r <? c1)) l)
  = filter (fun r => negb (timestamp r <? c2)) l.
Proof.
  intros Hc. induction l as [|x l IH]; [reflexivity|]. cbn [filter].
  destruct (timestamp x <? c1) eqn:E1, (timestamp x <? c2) eqn:E2;
    cbn [negb filter]; rewrite ?E2; cbn [negb]; to_prop;
    try rewrite IH; try reflexivity; lia.
Qed.

Lemma count_after_cutoff (c1 c2 : datetime) (l : list row) :
  c1 <= c2 ->
  len (filter (fun r => timestamp r <? c1) l)
  + len (filter (fun r => timestamp r <? c2)
                (filter (fun r => negb (timestamp r <? c1)) l))
  = len (filter (fun r => timestamp r <? c2) l).
Proof.
  intros Hc. unfold len. induction l as [|x l IH]; [reflexivity|].
  cbn [filter].
  destruct (timestamp x <? c1) eqn:E1, (timestamp x <? c2) eqn:E2;
    cbn [negb filter List.length]; rewrite ?E2; cbn [List.length];
    to_prop; lia.
Qed.

(** X8.  Purges compose: a purge followed by a purge whose cutoff is not
    earlier leaves the database that the second purge alone leaves, and
    the two returned numbers add up to the number the second alone
    returns.  So repeating a purge with the same cutoff removes nothing
    and returns 0. *)
Theorem purges_compose (now1 now2 : datetime) (age1 age2 : timedelta)
        (db : database) :
  0 <= age1 <= now1 -> now1 <= datetime_max ->
  0 <= age2 <= now2 -> now2 <= datetime_max ->
  now1 - age1 <= now2 - age2 ->
  exists (n1 n2 : Z) (db1 db2 : database),
    MessageStorage.delete_old_messages true now1 age1 db = Ok (n1, db1)
    /\ MessageStorage.delete_old_messages true now2 age2 db1 = Ok (n2, db2)
    /\ MessageStorage.delete_old_messages true now2 age2 db
       = Ok (n1 + n2, db2)
    /\ (now1 - age1 = now2 - age2 -> n2 = 0 /\ db2 = db1).
Proof.
  intros H1 M1 H2 M2 Hc.
  exists (count_older (now1 - age1) db),
    (count_older (now2 - age2) (delete_older (now1 - age1) db)),
    (delete_older (now1 - age1) db),
    (delete_older (now2 - age2) (delete_older (now1 - age1) db)).
  rewrite !delete_old_messages_ok by assumption.
  split; [reflexivity|]. split; [reflexivity|].
  unfold count_older, delete_older. cbn [messages sqlite_sequence].
  rewrite (filter_filter_cutoff _ Hc), (count_after_cutoff _ Hc).
  split; [reflexivity|].
  intros E. rewrite <- E.
  pose proof (@count_after_cutoff (now1 - age1) (now1 - age1) (messages db)
                                  (Z.le_refl _)) as C.
  split; [lia|reflexivity].
Qed.

Lemma purges_compose_witness :
  exists (n1 n2 : Z) (db1 db2 : database),
    MessageStorage.delete_old_messages true 25 10 sample_db = Ok (n1, db1)
    /\ MessageStorage.delete_old_messages true 35 0 db1 = Ok (n2, db2)
    /\ MessageStorage.delete_old_messages true 35 0 sample_db
       = Ok (n1 + n2, db2)
    /\ (25 - 10 = 35 - 0 -> n2 = 0 /\ db2 = db1).
Proof.
  apply (@purges_compose 25 35 10 0 sample_db); unfold datetime_max; lia.
Defined.

Lemma filter_comm {A : Type} (p q : A -> bool) (l : list A) :
  filter p (filter q l) = filter q (filter p l).
Proof.
  induction l as [|x l IH]; [reflexivity|]. cbn [filter].
  destruct (p x) eqn:P, (q x) eqn:Q; cbn [filter]; rewrite ?P, ?Q;
    congruence.
Qed.

Lemma filter_map_messages (c : datetime) (l : list row) :
  map MessageStorage.to_message
      (filter (fun r => negb (timestamp r <? c)) l)
  = filter (fun m => negb (MessageStorage.m_timestamp m <? c))
           (map MessageStorage.to_message l).
Proof.
  induction l as [|x l IH]; [reflexivity|]. cbn [filter map].
  change (MessageStorage.m_timestamp (MessageStorage.to_message x))
    with (timestamp x).
  destruct (timestamp x <? c); cbn [negb map]; now rewrite IH.
Qed.

Lemma Permutation_filter_rows {A : Type} (f : A -> bool) (l l' : list A) :
  Permutation l l' -> Permutation (filter f l) (filter f l').
Proof.
  induction 1 as [|x l l' _ IH|x y l|l l' l'' _ IH1 _ IH2]; cbn [filter].
  - constructor.
  - destruct (f x); [now constructor|exact IH].
  - destruct (f x), (f y); try apply Permutation_refl. apply perm_swap.
  - eapply Permutation_trans; eassumption.
Qed.

Lemma StronglySorted_filter {A : Type} (R : A -> A -> Prop) (f : A -> bool)
      (l : list A) :
  StronglySorted R l -> StronglySorted R (filter f l).
Proof.
  induction 1 as [|x l _ IH Hx]; cbn [filter]; [constructor|].
  destruct (f x); [|exact IH]. constructor; [exact IH|].
  rewrite Forall_forall in *. intros y Hy. apply Hx.
  apply filter_In in Hy. tauto.
Qed.

Lemma NoDup_map_filter {A B : Type} (g : A -> B) (f : A -> bool)
      (l : list A) :
  NoDup (map g l) -> NoDup (map g (filter f l)).
Proof.
  induction l as [|x l IH]; intros H; [constructor|].
  cbn [map] in H. inversion H as [|? ? Hx Hl]; subst. cbn [filter].
  destruct (f x); [|now apply IH]. cbn [map].
  constructor; [|now apply IH]. intros Hin. apply Hx.
  apply in_map_iff in Hin. destruct Hin as (y & Hy & Hin).
  apply filter_In in Hin. apply in_map_iff. exists y. tauto.
Qed.

(** X9.  A purge and a full list commute: after a purge, the list without
    limit, for any filters that can be bound, has the entries of the list
    from before the purge without those stamped strictly before the
    cutoff, most recent first; when no two matching records have the same
    timestamp it is that list, in the same order. *)
Theorem purge_then_list (E : engine) (now : datetime) (age : timedelta)
        (a : option str) (p : option Z) (db : database) :
  orders_by_timestamp E ->
  0 <= age <= now -> now <= datetime_max ->
  encodable a -> fits p ->
  exists (n : Z) (db' : database) (before after : list MessageStorage.message),
    MessageStorage.delete_old_messages true now age db = Ok (n, db')
    /\ MessageStorage.get_messages E true None None a p db = Ok before
    /\ MessageStorage.get_messages E true None None a p db' = Ok after
    /\ Permutation
         after
         (filter (fun m => negb (MessageStorage.m_timestamp m <? now - age))
                 before)
    /\ StronglySorted
         (fun x y => MessageStorage.m_timestamp y
                     <= MessageStorage.m_timestamp x) after
    /\ (NoDup (map timestamp
                   (filter
                      (holds_all
                         ((if MessageStorage.truthy_str a
                           then [client_ip_eq (MessageStorage.get_str a)]
                           else [])
                          ++ (if MessageStorage.truthy_int p
                              then [client_port_eq
                                      (MessageStorage.get_int p)]
                              else [])))
                      (messages db))) ->
        after
        = filter (fun m => negb (MessageStorage.m_timestamp m <? now - age))
                 before).
Proof.
  intros HE Ha Hn Fa Fp. rewrite delete_old_messages_ok by assumption.
  exists (count_older (now - age) db), (delete_older (now - age) db).
  assert (Hb : bind_parameters (MessageStorage.build_query None None a p)
               = Ok tt)
    by (apply bind_build_query; try assumption; discriminate).
  rewrite !get_messages_ok by (assumption || discriminate).
  do 2 eexists. split; [reflexivity|].
  split; [reflexivity|]. split; [reflexivity|].
  cbv zeta. cbn [MessageStorage.truthy_int].
  unfold delete_older. cbn [messages].
  set (q := MessageStorage.build_query None None a p).
  set (conds := (if MessageStorage.truthy_str a
                 then [client_ip_eq (MessageStorage.get_str a)] else [])
                ++ (if MessageStorage.truthy_int p
                    then [client_port_eq (MessageStorage.get_int p)]
                    else [])).
  set (keep := fun r : row => negb (timestamp r <? now - age)).
  rewrite (filter_comm (holds_all conds) keep).
  set (M := filter (holds_all conds) (messages db)).
  rewrite <- filter_map_messages. fold keep.
  assert (O1 : Spec.ordered (filter keep M) (E q (filter keep M)))
    by exact (HE q (filter keep M)).
  assert (O2 : Spec.ordered (filter keep M) (filter keep (E q M))).
  { split.
    - apply Permutation_filter_rows. apply HE.
    - apply StronglySorted_filter. apply HE. }
  split; [|split].
  - apply Permutation_map.
    eapply Permutation_trans; [apply Permutation_sym, O1|apply O2].
  - apply StronglySorted_map_messages. apply O1.
  - intros Hnd. f_equal.
    exact (ordered_unique (NoDup_map_filter timestamp keep M Hnd) O1 O2).
Qed.

Lemma purge_then_list_witness :
  exists (n : Z) (db' : database) (before after : list MessageStorage.message),
    MessageStorage.delete_old_messages true 25 0 sample_db = Ok (n, db')
    /\ MessageStorage.get_messages by_rowid true None None None None
                                   sample_db
       = Ok before
    /\ MessageStorage.get_messages by_rowid true None None None None db'
       = Ok after
    /\ Permutation
         after
         (filter (fun m => negb (MessageStorage.m_timestamp m <? 25 - 0))
                 before).
Proof.
  destruct (@purge_then_list by_rowid 25 0 None None sample_db
                             by_rowid_orders)
    as (n & db' & before & after & H1 & H2 & H3 & H4 & _).
  - lia.
  - unfold datetime_max. lia.
  - discriminate.
  - discriminate.
  - exists n, db', before, after. repeat split; assumption.
Defined.

(** ** The listener over many events *)

Lemma handle_keeps (x : exn) (l : UDPListener.listener) :
  UDPListener.storage (fst (UDPListener.handle x l)) = UDPListener.storage l
  /\ UDPListener.sent (fst (UDPListener.handle x l)) = UDPListener.sent l
  /\ (snd (UDPListener.handle x l) = UDPListener.loop_head
      \/ snd (UDPListener.handle x l) = UDPListener.finished).
Proof.
  destruct l as [db [s|] r out log]; destruct x, r;
    (split; [reflexivity|split; [reflexivity|]]); cbn; auto.
Qed.

Lemma answered_app (rows1 rows2 : list row)
      (r1 r2 : list (bytes * UDPListener.address)) :
  Stored.answered rows1 r1 -> Stored.answered rows2 r2 ->
  Stored.answered (rows1 ++ rows2) (r1 ++ r2).
Proof.
  intros H1 H2. induction H1; cbn [app]; [assumption| |];
    now constructor.
Qed.

Lemma progress_moves (l0 l l' : UDPListener.listener)
      (at_ at' : UDPListener.pc) :
  Stored.progress l0 l at_ ->
  UDPListener.storage l' = UDPListener.storage l ->
  UDPListener.sent l' = UDPListener.sent l ->
  (forall mid data addr, at' <> UDPListener.sending mid data addr) ->
  Stored.progress l0 l' at'.
Proof.
  intros (added & replies & Hm & Hs & Ha & _) Hdb Hsent Hat.
  exists added, replies. rewrite Hdb, Hsent.
  split; [exact Hm|]. split; [exact Hs|]. split; [exact Ha|].
  destruct at' as [| | |d a|m d a|m d a|m|]; try exact I.
  now elim (Hat m d a).
Qed.

Lemma progress_stays (l0 l l' : UDPListener.listener) (at_ : UDPListener.pc) :
  Stored.progress l0 l at_ ->
  UDPListener.storage l' = UDPListener.storage l ->
  UDPListener.sent l' = UDPListener.sent l ->
  Stored.progress l0 l' at_.
Proof.
  intros (added & replies & Hm & Hs & Ha & Hp) Hdb Hsent.
  exists added, replies. rewrite Hdb, Hsent. repeat split; assumption.
Qed.

Lemma progress_handle (l0 l : UDPListener.listener) (at_ : UDPListener.pc)
      (x : exn) :
  Stored.progress l0 l at_ ->
  Stored.progress l0 (fst (UDPListener.handle x l))
                  (snd (UDPListener.handle x l)).
Proof.
  intros H. destruct (handle_keeps x l) as (Hdb & Hsent & Hpc).
  eapply progress_moves; [exact H|exact Hdb|exact Hsent|].
  intros mid data addr E. rewrite E in Hpc. destruct Hpc; discriminate.
Qed.

(** One step of the thread keeps what was added in order. *)
Lemma step_progress (b : bool) (e : UDPListener.env)
      (l0 l : UDPListener.listener) (at_ : UDPListener.pc) :
  Stored.progress l0 l at_ ->
  Stored.progress l0 (fst (UDPListener.step b e (l, at_)))
                  (snd (UDPListener.step b e (l, at_))).
Proof.
  intros H. destruct at_ as [| | |data addr|mid0 data addr|mid0 data addr|mid0|];
    cbn [UDPListener.step].
  - destruct b; cbn [fst snd];
      (eapply progress_moves;
       [exact H|now destruct l as [db [s|] r out log]
       |now destruct l as [db [s|] r out log]|discriminate]).
  - destruct (UDPListener.running l).
    + destruct (UDPListener.sock l) as [[|]|];
        try (eapply progress_handle; exact H).
      cbn [fst snd]. eapply progress_moves; [exact H|reflexivity|reflexivity|discriminate].
    + cbn [fst snd]. eapply progress_moves;
        [exact H|now destruct l as [db [s|] r out log]
        |now destruct l as [db [s|] r out log]|discriminate].
  - destruct (UDPListener.incoming e) as [payload peer|];
      [|eapply progress_handle; exact H].
    cbn [fst snd]. eapply progress_moves; [exact H|reflexivity|reflexivity|discriminate].
  - destruct addr as [ip port].
    destruct (MessageStorage.store_message
                (UDPListener.disk e) (UDPListener.utcnow e) ip port data
                (UDPListener.storage l)) as [[mid db']|x] eqn:St;
      [|eapply progress_handle; exact H].
    apply store_message_ok in St. destruct St as (_ & _ & _ & ->).
    destruct H as (added & replies & Hm & Hs & Ha & _).
    set (r := mkRow mid (UDPListener.utcnow e) ip port data
                    (Utf8.decode data) (len data)).
    assert (Ha' : Stored.answered (added ++ [r]) replies).
    { rewrite <- (app_nil_r replies). apply answered_app; [exact Ha|].
      apply Stored.answered_skip, Stored.answered_nil. }
    exists (added ++ [r]), replies. cbn [fst snd].
    split; [cbn; now rewrite Hm, app_assoc|].
    split; [exact Hs|]. split; [exact Ha'|].
    exists added, r. split; [reflexivity|]. split; [reflexivity|exact Ha].
  - destruct (UDPListener.sendto (UDPListener.sock l) (UDPListener.network e));
      [|eapply progress_handle; exact H].
    destruct H as (added & replies & Hm & Hs & Ha & before & r & -> & Hr & Hb).
    exists (before ++ [r]), (replies ++ [Stored.reply_of r]). cbn [fst snd].
    split; [exact Hm|].
    split; [cbn; now rewrite Hs, Hr, app_assoc|].
    split; [|exact I].
    apply answered_app; [exact Hb|].
    apply Stored.answered_reply, Stored.answered_nil.
  - cbn [fst snd]. eapply progress_moves; [exact H|reflexivity|reflexivity|discriminate].
  - cbn [fst snd]. eapply progress_moves; [exact H|reflexivity|reflexivity|discriminate].
  - cbn [fst snd]. exact H.
Qed.

Lemma react_progress (ev : UDPListener.event)
      (l0 l : UDPListener.listener) (at_ : UDPListener.pc) :
  Stored.progress l0 l at_ ->
  Stored.progress l0 (fst (UDPListener.react ev (l, at_)))
                  (snd (UDPListener.react ev (l, at_))).
Proof.
  intros H. destruct ev as [e| |]; cbn [UDPListener.react fst snd].
  - now apply step_progress.
  - eapply progress_stays; [exact H|now destruct l as [db [s|] r out log]..].
  - eapply progress_stays; [exact H|reflexivity..].
Qed.

Lemma run_progress (evs : list UDPListener.event) :
  forall (l0 l : UDPListener.listener) (at_ : UDPListener.pc),
    Stored.progress l0 l at_ ->
    Stored.progress l0 (fst (UDPListener.run evs (l, at_)))
                    (snd (UDPListener.run evs (l, at_))).
Proof.
  induction evs as [|ev evs IH]; intros l0 l at_ H; [exact H|].
  unfold UDPListener.run. cbn [fold_left].
  fold (UDPListener.run evs (UDPListener.react ev (l, at_))).
  pose proof (@react_progress ev _ _ _ H) as H1.
  destruct (UDPListener.react ev (l, at_)) as [l1 at1].
  now apply IH.
Qed.

(** X10.  Whatever happens to the listener (datagrams, faults of the
    socket, of the store or of the network, calls of [stop()] between any
    two statements of the thread), from any point of the loop at which no
    reply is in the making, it only ever appends records to the store,
    and the replies it sends answer records it has stored in the same
    run: each reply is the prefix followed by the stored payload, sent to
    the stored peer, each record is answered at most once, and the replies
    leave in the order of the records. *)
Theorem replies_answer_stored_records
        (evs : list UDPListener.event)
        (l : UDPListener.listener) (at_ : UDPListener.pc) :
  (forall mid data addr, at_ <> UDPListener.sending mid data addr) ->
  exists (added : list row) (replies : list (bytes * UDPListener.address)),
    messages (UDPListener.storage (fst (UDPListener.run evs (l, at_))))
    = messages (UDPListener.storage l) ++ added
    /\ UDPListener.sent (fst (UDPListener.run evs (l, at_)))
       = UDPListener.sent l ++ replies
    /\ Stored.answered added replies.
Proof.
  intros Hat.
  assert (H0 : Stored.progress l l at_).
  { exists [], []. rewrite !app_nil_r.
    split; [reflexivity|]. split; [reflexivity|].
    split; [constructor|].
    destruct at_ as [| | |d a|m d a|m d a|m|]; try exact I.
    now elim (Hat m d a). }
  destruct (@run_progress evs _ _ _ H0) as (added & replies & Hm & Hs & Ha & _).
  exists added, replies. repeat split; assumption.
Qed.

Lemma replies_answer_stored_records_witness :
  exists (added : list row) (replies : list (bytes * UDPListener.address)),
    messages
      (UDPListener.storage
         (fst (UDPListener.run
                 [UDPListener.thread_step
                    (UDPListener.mkEnv
                       (UDPListener.datagram (b_ "a") (s_ "10.0.0.1", 7))
                       5 true true);
                  UDPListener.call_stop]
                 (UDPListener.mkListener empty (Some UDPListener.sock_open)
                                         true [] [],
                  UDPListener.storing (b_ "a") (s_ "10.0.0.1", 7)))))
    = messages empty ++ added
    /\ Stored.answered added replies.
Proof.
  destruct (@replies_answer_stored_records
              [UDPListener.thread_step
                 (UDPListener.mkEnv
                    (UDPListener.datagram (b_ "a") (s_ "10.0.0.1", 7))
                    5 true true);
               UDPListener.call_stop]
              (UDPListener.mkListener empty (Some UDPListener.sock_open)
                                      true [] [])
              (UDPListener.storing (b_ "a") (s_ "10.0.0.1", 7)))
    as (added & replies & Hm & _ & Ha).
  - discriminate.
  - exists added, replies. split; [exact Hm|exact Ha].
Defined.

(** After [stop()], a step of the thread. *)
Lemma stopped_step (b : bool) (e : UDPListener.env)
      (l : UDPListener.listener) (at_ : UDPListener.pc) :
  Stored.stopped l at_ ->
  let after := UDPListener.step b e (l, at_) in
  Stored.stopped (fst after) (snd after)
  /\ UDPListener.sent (fst after) = UDPListener.sent l
  /\ (exists new,
        UDPListener.stdout (fst after) = UDPListener.stdout l ++ new
        /\ ~ In UDPListener.socket_error new
        /\ ~ In UDPListener.stopped new)
  /\ (exists added,
        messages (UDPListener.storage (fst after))
        = messages (UDPListener.storage l) ++ added
        /\ (added = []
            \/ exists r, added = [r] /\ Stored.may_store at_ = true
                         /\ Stored.may_store (snd after) = false))
  /\ (Stored.may_store (snd after) = true -> Stored.may_store at_ = true)
  /\ (Stored.steps_left (snd after) < Stored.steps_left at_
      \/ snd after = UDPListener.finished)%nat.
Proof.
  intros [Hr Hs] after. subst after.
  destruct l as [db s r out log]. cbn [UDPListener.running] in Hr. subst r.
  cbn [UDPListener.sock] in Hs.
  assert (N : forall A (x : list A), x = x ++ []) by
    (intros; now rewrite app_nil_r).
  destruct at_ as [| | |data addr|mid data addr|mid data addr|mid|];
    cbn [UDPListener.step UDPListener.running].
  - destruct b; cbn.
    + split; [split; [reflexivity|intros _ H; now elim H]|].
      split; [reflexivity|].
      split; [exists [UDPListener.listening]; split;
              [reflexivity|split; intros [H|[]]; discriminate]|].
      split; [exists []; split; [apply N|now left]|].
      split; [discriminate|left; lia].
    + split; [split; [reflexivity|discriminate]|].
      split; [reflexivity|].
      split; [exists [UDPListener.listener_error]; split;
              [reflexivity|split; intros [H|[]]; discriminate]|].
      split; [exists []; split; [apply N|now left]|].
      split; [discriminate|now right].
  - destruct s as [s|]; cbn;
      (split; [split; [reflexivity|discriminate]|]);
      (split; [reflexivity|]);
      (split; [exists []; split; [apply N|split; intros []]|]);
      (split; [exists []; split; [apply N|now left]|]);
      (split; [discriminate|now right]).
  - assert (Hs' : s <> Some UDPListener.sock_open)
      by (apply Hs; discriminate).
    destruct (UDPListener.incoming e) as [payload peer|].
    + cbn. split; [split; [reflexivity|intros _ _; exact Hs']|].
      split; [reflexivity|].
      split; [exists []; split; [apply N|split; intros []]|].
      split; [exists []; split; [apply N|now left]|].
      split; [reflexivity|left; lia].
    + destruct s as [[|]|]; [now elim Hs'| |]; cbn;
        (split; [split; [reflexivity|discriminate]|]);
        (split; [reflexivity|]);
        (split; [exists []; split; [apply N|split; intros []]|]);
        (split; [exists []; split; [apply N|now left]|]);
        (split; [discriminate|now right]).
  - assert (Hs' : s <> Some UDPListener.sock_open)
      by (apply Hs; discriminate).
    destruct addr as [ip port]. cbn [UDPListener.storage].
    destruct (MessageStorage.store_message
                (UDPListener.disk e) (UDPListener.utcnow e) ip port data db)
      as [[mid db']|x] eqn:St.
    + apply store_message_ok in St. destruct St as (_ & _ & _ & ->). cbn.
      split; [split; [reflexivity|intros _ _; exact Hs']|].
      split; [reflexivity|].
      split; [exists []; split; [apply N|split; intros []]|].
      split; [eexists; split; [reflexivity|right; eexists; repeat split]|].
      split; [discriminate|left; lia].
    + pose proof (store_message_raises _ _ _ _ _ _ St) as ->. cbn.
      split; [split; [reflexivity|intros _ H; now elim H]|].
      split; [reflexivity|].
      split; [eexists; split; [reflexivity|split; intros [H|[]]; discriminate]|].
      split; [exists []; split; [apply N|now left]|].
      split; [discriminate|left; lia].
  - assert (Hs' : s <> Some UDPListener.sock_open)
      by (apply Hs; discriminate).
    destruct s as [[|]|]; [now elim Hs'| |]; cbn;
      (split; [split; [reflexivity|discriminate]|]);
      (split; [reflexivity|]);
      (split; [exists []; split; [apply N|split; intros []]|]);
      (split; [exists []; split; [apply N|now left]|]);
      (split; [discriminate|now right]).
  - assert (Hs' : s <> Some UDPListener.sock_open)
      by (apply Hs; discriminate).
    cbn. split; [split; [reflexivity|intros _ _; exact Hs']|].
    split; [reflexivity|].
    split; [eexists; split; [reflexivity|split; intros [H|[]]; discriminate]|].
    split; [exists []; split; [apply N|now left]|].
    split; [discriminate|left; lia].
  - cbn. split; [split; [reflexivity|intros _ H; now elim H]|].
    split; [reflexivity|].
    split; [eexists; split; [reflexivity|split; intros [H|[]]; discriminate]|].
    split; [exists []; split; [apply N|now left]|].
    split; [discriminate|left; lia].
  - cbn. split; [split; [reflexivity|exact Hs]|].
    split; [reflexivity|].
    split; [exists []; split; [apply N|split; intros []]|].
    split; [exists []; split; [apply N|now left]|].
    split; [discriminate|now right].
Qed.

Lemma stopped_run (evs : list UDPListener.event) :
  forall (l : UDPListener.listener) (at_ : UDPListener.pc),
    Stored.stopped l at_ ->
    let after := UDPListener.run evs (l, at_) in
    Stored.stopped (fst after) (snd after)
    /\ UDPListener.sent (fst after) = UDPListener.sent l
    /\ (exists new,
          UDPListener.stdout (fst after) = UDPListener.stdout l ++ new
          /\ ~ In UDPListener.socket_error new
          /\ (~ In UDPListener.stop_returns evs ->
              ~ In UDPListener.stopped new))
    /\ (exists added,
          messages (UDPListener.storage (fst after))
          = messages (UDPListener.storage l) ++ added
          /\ (added = []
              \/ exists r, added = [r] /\ Stored.may_store at_ = true))
    /\ ((Stored.steps_left at_
         <= List.length (filter Stored.is_thread_step evs))%nat ->
        snd after = UDPListener.finished).
Proof.
  induction evs as [|ev evs IH]; intros l at_ Hst after; subst after.
  - cbn [UDPListener.run fold_left fst snd filter List.length].
    split; [exact Hst|]. split; [reflexivity|].
    split; [exists []; split; [now rewrite app_nil_r|];
            split; [intros []|intros _ []]|].
    split; [exists []; split; [now rewrite app_nil_r|now left]|].
    intros H. destruct at_; cbn in H; try lia. reflexivity.
  - unfold UDPListener.run. cbn [fold_left].
    fold (UDPListener.run evs (UDPListener.react ev (l, at_))).
    destruct ev as [e| |]; cbn [UDPListener.react filter
                                Stored.is_thread_step].
    + destruct (@stopped_step true e l at_ Hst)
        as (Hst1 & Hsent & (n1 & Hout & Hn1 & Hq1) & (a1 & Hdb & Ha1)
            & Hmay & Hrank).
      destruct (UDPListener.step true e (l, at_)) as [l1 at1].
      cbn [fst snd] in *.
      destruct (IH l1 at1 Hst1)
        as (Hst2 & Hsent2 & (n2 & Hout2 & Hn2 & Hq2) & (a2 & Hdb2 & Ha2) & F).
      split; [exact Hst2|]. split; [congruence|]. split.
      { exists (n1 ++ n2). rewrite Hout2, Hout, app_assoc.
        split; [reflexivity|]. split.
        - intros H. apply in_app_or in H. tauto.
        - intros Hno H. apply in_app_or in H. destruct H as [H|H];
            [tauto|]. revert H. apply Hq2. intros H. apply Hno. now right. }
      split.
      { exists (a1 ++ a2). rewrite Hdb2, Hdb, app_assoc.
        split; [reflexivity|].
        destruct Ha1 as [->|(r & -> & Hm & Hm1)].
        - cbn [app]. destruct Ha2 as [->|(r & -> & Hm)]; [now left|].
          right. exists r. split; [reflexivity|]. now apply Hmay.
        - destruct Ha2 as [->|(r2 & -> & Hm2)]; [|congruence].
          right. exists r. split; [reflexivity|exact Hm]. }
      intros H. cbn [List.length] in H.
      destruct Hrank as [Hlt|Hfin].
      * apply F. lia.
      * apply F. rewrite Hfin. cbn. lia.
    + set (l1 := UDPListener.stop_close (fst (l, at_))).
      cbn [fst snd] in *.
      assert (Hst1 : Stored.stopped l1 at_).
      { destruct Hst as [Hr Hs]. subst l1.
        split; [now destruct l as [db [s|] r out log]|].
        intros _ _. destruct l as [db [s|] r out log]; discriminate. }
      destruct (IH l1 at_ Hst1)
        as (Hst2 & Hsent2 & (n2 & Hout2 & Hn2 & Hq2) & (a2 & Hdb2 & Ha2) & F).
      split; [exact Hst2|].
      split; [rewrite Hsent2; now destruct l as [db [s|] r out log]|].
      split; [exists n2; rewrite Hout2; split;
              [now destruct l as [db [s|] r out log]|];
              split; [exact Hn2|];
              intros Hno; apply Hq2; intros H; apply Hno; now right|].
      split; [exists a2; rewrite Hdb2; split;
              [now destruct l as [db [s|] r out log]|exact Ha2]|].
      exact F.
    + set (l1 := UDPListener.stop_return (fst (l, at_))).
      cbn [fst snd] in *.
      assert (Hst1 : Stored.stopped l1 at_) by exact Hst.
      destruct (IH l1 at_ Hst1)
        as (Hst2 & Hsent2 & (n2 & Hout2 & Hn2 & Hq2) & (a2 & Hdb2 & Ha2) & F).
      split; [exact Hst2|]. split; [exact Hsent2|].
      split; [|split; [exists a2; split; [exact Hdb2|exact Ha2]|exact F]].
      exists (UDPListener.stopped :: n2). rewrite Hout2. split.
      * subst l1. cbn. now rewrite <- app_assoc.
      * split; [intros [H|H]; [discriminate|tauto]|].
        intros Hno. exfalso. apply Hno. now left.
Qed.

(** X11.  Once [stop()] has cleared the flag and closed the socket, at
    whatever statement the thread of the listener stands and whatever
    arrives: no reply is sent any more; at most one more record is stored,
    and only by a thread whose receive was pending or had just returned;
    no socket error is printed, and the line that says the listener has
    stopped is printed only when the join of [stop()] returns; and the
    thread has left the loop after three further steps at most, the
    socket not being open. *)
Theorem nothing_after_stop (evs : list UDPListener.event)
        (l : UDPListener.listener) (at_ : UDPListener.pc) :
  let after := UDPListener.run (UDPListener.call_stop :: evs) (l, at_) in
  UDPListener.sent (fst after) = UDPListener.sent l
  /\ (exists added,
        messages (UDPListener.storage (fst after))
        = messages (UDPListener.storage l) ++ added
        /\ (added = []
            \/ exists r, added = [r] /\ Stored.may_store at_ = true))
  /\ (exists new,
        UDPListener.stdout (fst after) = UDPListener.stdout l ++ new
        /\ ~ In UDPListener.socket_error new
        /\ (~ In UDPListener.stop_returns evs ->
            ~ In UDPListener.stopped new))
  /\ ((3 <= List.length (filter Stored.is_thread_step evs))%nat ->
      snd after = UDPListener.finished
      /\ UDPListener.sock (fst after) <> Some UDPListener.sock_open).
Proof.
  intros after. subst after.
  unfold UDPListener.run. cbn [fold_left UDPListener.react fst snd].
  fold (UDPListener.run evs (UDPListener.stop_close l, at_)).
  assert (Hst : Stored.stopped (UDPListener.stop_close l) at_).
  { split; [now destruct l as [db [s|] r out log]|].
    intros _ _. destruct l as [db [s|] r out log]; discriminate. }
  destruct (@stopped_run evs (UDPListener.stop_close l) at_ Hst)
    as (Hst2 & Hsent & (new & Hout & Hnew) & (added & Hdb & Hadd) & F).
  split; [rewrite Hsent; now destruct l as [db [s|] r out log]|].
  split; [exists added; rewrite Hdb; split;
          [now destruct l as [db [s|] r out log]|exact Hadd]|].
  split; [exists new; rewrite Hout; split;
          [now destruct l as [db [s|] r out log]|exact Hnew]|].
  intros H.
  assert (Hfin : snd (UDPListener.run evs (UDPListener.stop_close l, at_))
                 = UDPListener.finished).
  { apply F. destruct at_; cbn; lia. }
  split; [exact Hfin|].
  destruct Hst2 as [_ Hs]. apply Hs; rewrite Hfin; discriminate.
Qed.

Lemma nothing_after_stop_witness :
  snd (UDPListener.run
         (UDPListener.call_stop
            :: repeat (UDPListener.thread_step
                         (UDPListener.mkEnv
                            (UDPListener.datagram (b_ "late")
                                                  (s_ "127.0.0.1", 40000))
                            5 true true)) 3)
         (UDPListener.mkListener empty (Some UDPListener.sock_open) true
                                 [] [],
          UDPListener.receiving))
  = UDPListener.finished.
Proof.
  apply (@nothing_after_stop
           (repeat (UDPListener.thread_step
                      (UDPListener.mkEnv
                         (UDPListener.datagram (b_ "late")
                                               (s_ "127.0.0.1", 40000))
                         5 true true)) 3)
           (UDPListener.mkListener empty (Some UDPListener.sock_open) true
                                   [] [])
           UDPListener.receiving).
  cbn. lia.
Defined.

(** The steps of the thread, when no other thread runs in between, make
    the pass of [receive_one]. *)
Lemma uninterrupted_pass (e : UDPListener.env) (l : UDPListener.listener) :
  UDPListener.running l = true ->
  exists n : nat,
    (n <= 6)%nat
    /\ UDPListener.run (repeat (UDPListener.thread_step e) n)
                       (l, UDPListener.loop_head)
       = UDPListener.receive_one e l.
Proof.
  intros Hr. destruct l as [db s r out log].
  cbn [UDPListener.running] in Hr. subst r.
  unfold UDPListener.receive_one, UDPListener.run.
  cbn [UDPListener.sock UDPListener.storage].
  destruct s as [[|]|];
    [|exists 1%nat; split; [lia|reflexivity]
      |exists 1%nat; split; [lia|reflexivity]].
  cbn [UDPListener.recvfrom].
  destruct (UDPListener.incoming e) as [payload [ip port]|] eqn:Hin;
    [|exists 2%nat; split; [lia|];
      cbn [repeat fold_left UDPListener.react UDPListener.step
           UDPListener.running UDPListener.sock];
      rewrite Hin; reflexivity].
  destruct (MessageStorage.store_message
              (UDPListener.disk e) (UDPListener.utcnow e) ip port
              (slice_to 4096 payload) db) as [[mid db']|x] eqn:St;
    [|exists 3%nat; split; [lia|];
      cbn [repeat fold_left UDPListener.react UDPListener.step
           UDPListener.running UDPListener.sock UDPListener.storage];
      rewrite Hin;
      cbn [UDPListener.step UDPListener.storage]; rewrite St; reflexivity].
  cbn [UDPListener.set_storage UDPListener.sock UDPListener.sendto].
  destruct (UDPListener.network e) eqn:Hn.
  - exists 6%nat. split; [lia|].
    cbn [repeat fold_left UDPListener.react UDPListener.step
         UDPListener.running UDPListener.sock UDPListener.storage].
    rewrite Hin. cbn [UDPListener.step UDPListener.storage]. rewrite St.
    cbn [UDPListener.step UDPListener.set_storage UDPListener.sock
         UDPListener.sendto]. rewrite Hn. reflexivity.
  - exists 4%nat. split; [lia|].
    cbn [repeat fold_left UDPListener.react UDPListener.step
         UDPListener.running UDPListener.sock UDPListener.storage].
    rewrite Hin. cbn [UDPListener.step UDPListener.storage]. rewrite St.
    cbn [UDPListener.step UDPListener.set_storage UDPListener.sock
         UDPListener.sendto]. rewrite Hn. reflexivity.
Qed.

(** One datagram, nothing failing: the six steps of a pass. *)
Lemma fault_free_pass (e : UDPListener.env) (l : UDPListener.listener) :
  UDPListener.running l = true ->
  UDPListener.sock l = Some UDPListener.sock_open ->
  Stored.fault_free e ->
  Z.max (sqlite_sequence (UDPListener.storage l))
        (max_rowid (messages (UDPListener.storage l))) < largest_rowid ->
  let next := Z.max (sqlite_sequence (UDPListener.storage l))
                    (max_rowid (messages (UDPListener.storage l))) + 1 in
  exists l' : UDPListener.listener,
    UDPListener.run (Stored.pass e) (l, UDPListener.loop_head)
    = (l', UDPListener.loop_head)
    /\ UDPListener.receive_one e l = (l', UDPListener.loop_head)
    /\ UDPListener.running l' = true
    /\ UDPListener.sock l' = Some UDPListener.sock_open
    /\ messages (UDPListener.storage l')
       = messages (UDPListener.storage l) ++ Stored.records next [e]
    /\ sqlite_sequence (UDPListener.storage l') = next
    /\ UDPListener.sent l'
       = UDPListener.sent l ++ map Stored.reply_of (Stored.records next [e]).
Proof.
  intros Hr Hs ((payload & [ip port] & Hin) & Hd & Hn) Hroom next.
  destruct l as [db s r out log].
  cbn [UDPListener.running UDPListener.sock UDPListener.storage
       UDPListener.sent] in *.
  subst s r.
  assert (St : MessageStorage.store_message
                 (UDPListener.disk e) (UDPListener.utcnow e) ip port
                 (slice_to 4096 payload) db
               = Ok (next,
                     mkDb (messages db
                           ++ [mkRow next (UDPListener.utcnow e) ip port
                                     (slice_to 4096 payload)
                                     (Utf8.decode (slice_to 4096 payload))
                                     (len (slice_to 4096 payload))])
                          next)).
  { unfold MessageStorage.store_message, connect, insert. rewrite Hd.
    cbn [bind]. apply Z.ltb_lt in Hroom. rewrite Hroom. reflexivity. }
  unfold Stored.pass, UDPListener.run, UDPListener.receive_one.
  cbn [repeat fold_left UDPListener.react UDPListener.step
       UDPListener.running UDPListener.sock UDPListener.storage
       UDPListener.recvfrom].
  rewrite Hin. cbn [UDPListener.step UDPListener.storage]. rewrite St.
  cbn [UDPListener.step UDPListener.set_storage UDPListener.sock
       UDPListener.sendto]. rewrite Hn.
  eexists. split; [reflexivity|]. split; [reflexivity|].
  cbn [UDPListener.running UDPListener.sock UDPListener.storage
       UDPListener.sent UDPListener.print UDPListener.emit
       UDPListener.set_storage messages sqlite_sequence Stored.records].
  rewrite Hin. cbn [map]. repeat split.
Qed.

Lemma records_length (next : Z) (es : list UDPListener.env) :
  Forall Stored.fault_free es -> len (Stored.records next es) = len es.
Proof.
  intros H. revert next. induction H as [|e es He _ IH]; intros next;
    [reflexivity|].
  destruct He as ((payload & [ip port] & Hin) & _).
  cbn [Stored.records]. rewrite Hin. unfold len in *. cbn [List.length].
  specialize (IH (next + 1)). lia.
Qed.

Lemma records_cons (next : Z) (e : UDPListener.env)
      (es : list UDPListener.env) :
  Stored.fault_free e ->
  Stored.records next (e :: es)
  = Stored.records next [e] ++ Stored.records (next + 1) es.
Proof.
  intros ((payload & [ip port] & Hin) & _). cbn [Stored.records].
  rewrite Hin. reflexivity.
Qed.

(** X12.  Datagrams that arrive while nothing fails and no other thread
    interferes are handled one after the other: after [k] of them the
    store has gained their [k] records, in the order of arrival, with
    consecutive ids, each with the first 4096 bytes of its payload, its
    peer and the clock of its pass; the [k] replies have left in the same
    order; and the loop is where it started, the listener running and its
    socket open. *)
Theorem datagrams_answered_in_order
        (es : list UDPListener.env) (l : UDPListener.listener) :
  UDPListener.running l = true ->
  UDPListener.sock l = Some UDPListener.sock_open ->
  Forall Stored.fault_free es ->
  Z.max (sqlite_sequence (UDPListener.storage l))
        (max_rowid (messages (UDPListener.storage l))) + len es
  <= largest_rowid ->
  let next := Z.max (sqlite_sequence (UDPListener.storage l))
                    (max_rowid (messages (UDPListener.storage l))) + 1 in
  let after :=
    UDPListener.run (flat_map Stored.pass es) (l, UDPListener.loop_head) in
  snd after = UDPListener.loop_head
  /\ UDPListener.running (fst after) = true
  /\ UDPListener.sock (fst after) = Some UDPListener.sock_open
  /\ messages (UDPListener.storage (fst after))
     = messages (UDPListener.storage l) ++ Stored.records next es
  /\ UDPListener.sent (fst after)
     = UDPListener.sent l ++ map Stored.reply_of (Stored.records next es)
  /\ len (Stored.records next es) = len es.
Proof.
  intros Hr Hs Hes. revert l Hr Hs.
  induction Hes as [|e es He Hes IH]; intros l Hr Hs Hroom next after;
    subst after.
  - cbn. rewrite !app_nil_r. repeat split; assumption.
  - assert (L : len (e :: es) = 1 + len es)
      by (unfold len; cbn [List.length]; lia).
    pose proof (Zle_0_nat (List.length es)) as P. fold (len es) in P.
    assert (Hroom1 : Z.max (sqlite_sequence (UDPListener.storage l))
                           (max_rowid (messages (UDPListener.storage l)))
                     < largest_rowid) by (clear - Hroom L P; lia).
    destruct (@fault_free_pass e l Hr Hs He Hroom1)
      as (l1 & Hrun & _ & Hr1 & Hs1 & Hm1 & Hq1 & Hsent1).
    cbn [flat_map]. unfold UDPListener.run in *. rewrite fold_left_app.
    rewrite Hrun.
    assert (Hmax : Z.max (sqlite_sequence (UDPListener.storage l1))
                         (max_rowid (messages (UDPListener.storage l1)))
                   = next).
    { rewrite Hq1, Hm1, max_rowid_app.
      destruct He as ((payload & [ip port] & Hin) & _).
      cbn [Stored.records]. rewrite Hin. cbn [max_rowid id].
      pose proof (max_rowid_nonneg (messages (UDPListener.storage l))).
      subst next. lia. }
    specialize (IH l1 Hr1 Hs1). rewrite Hmax in IH.
    assert (Hroom2 : next + len es <= largest_rowid)
      by (unfold next; clear - Hroom L P; lia).
    destruct (IH Hroom2) as (A & B & C & D & E & F).
    split; [exact A|]. split; [exact B|]. split; [exact C|].
    subst next.
    rewrite (records_cons _ _ He), map_app, !app_assoc, <- Hm1, <- Hsent1.
    split; [exact D|]. split; [exact E|].
    rewrite len_app, F, L.
    destruct He as ((payload & [ip port] & Hin) & _).
    cbn [Stored.records]. rewrite Hin. reflexivity.
Qed.

Lemma datagrams_answered_in_order_witness :
  UDPListener.sent
    (fst (UDPListener.run
            (flat_map Stored.pass
                      [UDPListener.mkEnv
                         (UDPListener.datagram (b_ "a") (s_ "10.0.0.1", 7))
                         5 true true;
                       UDPListener.mkEnv
                         (UDPListener.datagram (b_ "b") (s_ "10.0.0.2", 8))
                         6 true true])
            (UDPListener.mkListener empty (Some UDPListener.sock_open) true
                                    [] [],
             UDPListener.loop_head)))
  = [(b_ "ECHO:a", (s_ "10.0.0.1", 7)); (b_ "ECHO:b", (s_ "10.0.0.2", 8))].
Proof.
  apply (@datagrams_answered_in_order
           [UDPListener.mkEnv
              (UDPListener.datagram (b_ "a") (s_ "10.0.0.1", 7)) 5 true true;
            UDPListener.mkEnv
              (UDPListener.datagram (b_ "b") (s_ "10.0.0.2", 8)) 6 true true]
           (UDPListener.mkListener empty (Some UDPListener.sock_open) true
                                   [] [])).
  - reflexivity.
  - reflexivity.
  - repeat constructor; cbn; eauto.
  - vm_compute. discriminate.
Defined.

(** ** The lock *)

Lemma step_lock_owned (s : nat * datetime) (w : world) :
  Progress.lock_owned w -> Progress.lock_owned (Threads.step s w).
Proof.
  intros Own. unfold Threads.step. destruct s as [i clock]. cbn [fst snd].
  destruct (nth_error (threads w) i) as [t|] eqn:Ht; [|exact Own].
  destruct (step_thread i clock (lock w) (table w) t)
    as [[[t' lk'] db']|] eqn:E; [|exact Own].
  intros j Hj. cbn [lock threads] in *.
  destruct (Nat.eq_dec i j) as [<-|Hij].
  - exists t'. split; [eapply nth_error_update_eq; exact Ht|].
    destruct (lock w) as [k|] eqn:Hk.
    + destruct (Own k Hk) as (tk & Htk & Hold).
      destruct t as [disk ip port d [| | | |]|disk delta [| | | | | |]];
        cbn in E;
        repeat match type of E with
               | context [match ?x with _ => _ end] => destruct x
               end;
        inversion E; subst; try reflexivity; try discriminate;
        assert (k = i) by congruence; subst k;
        rewrite Ht in Htk; injection Htk as <-; discriminate.
    + destruct t as [disk ip port d [| | | |]|disk delta [| | | | | |]];
        cbn in E;
        repeat match type of E with
               | context [match ?x with _ => _ end] => destruct x
               end;
        inversion E; subst; try reflexivity; discriminate.
  - assert (lock w = Some j).
    { destruct t as [disk ip port d [| | | |]|disk delta [| | | | | |]];
        cbn in E;
        repeat match type of E with
               | context [match ?x with _ => _ end] => destruct x eqn:?
               end;
        inversion E; subst; try assumption; try discriminate; congruence. }
    destruct (Own j H) as (tj & Htj & Hold). exists tj.
    split; [|exact Hold]. rewrite nth_error_update_neq by assumption.
    exact Htj.
Qed.

Lemma run_lock_owned (schedule : list (nat * datetime)) :
  forall w : world,
    Progress.lock_owned w -> Progress.lock_owned (Threads.run schedule w).
Proof.
  unfold Threads.run. induction schedule as [|s schedule IH]; intros w Own;
    cbn [fold_left]; [exact Own|].
  apply IH. now apply step_lock_owned.
Qed.

Lemma holder_can_step (me : nat) (lk : option nat) (db : database)
      (t : thread) :
  holds_lock t = true -> step_thread me 0 lk db t <> None.
Proof.
  destruct t as [disk ip port d [| | | |]|disk delta [| | | | | |]];
    cbn; try discriminate.
  - intros _. destruct disk; cbn; [|discriminate].
    destruct (insert _ _ _ _ _ _ _) as [[? ?]|]; discriminate.
  - intros _. destruct (connect disk); discriminate.
Qed.

(** X13.  The lock of the store, for any number of concurrent calls of
    [store_message] and [delete_old_messages] and any interleaving of
    their steps: at no time are two calls inside the lock; as long as
    some call has not returned, some call can take a step (a call that
    waits for the lock waits for a call that can move); and once every
    call has returned or raised, the lock is free, also when the
    database could not be written. *)
Theorem lock_excludes_and_never_blocks
        (schedule : list (nat * datetime)) (w0 : world) :
  initial w0 ->
  let w := Threads.run schedule w0 in
  (forall i j ti tj,
      nth_error (threads w) i = Some ti -> nth_error (threads w) j = Some tj ->
      holds_lock ti = true -> holds_lock tj = true -> i = j)
  /\ (forall i t,
         nth_error (threads w) i = Some t -> Progress.finished t = false ->
         exists j, Progress.can_step w j = true)
  /\ (forallb Progress.finished (threads w) = true -> lock w = None).
Proof.
  intros Init w.
  assert (Inv : invariant w) by (apply run_invariant, initial_invariant, Init).
  assert (Own : Progress.lock_owned w).
  { apply run_lock_owned. intros j Hj. rewrite (init_lock Init) in Hj.
    discriminate. }
  assert (Holder : forall j t, nth_error (threads w) j = Some t ->
                               holds_lock t = true ->
                               Progress.can_step w j = true).
  { intros j t Hj Hold. unfold Progress.can_step. rewrite Hj.
    pose proof (@holder_can_step j (lock w) (table w) t Hold) as C.
    destruct (step_thread j 0 (lock w) (table w) t); [reflexivity|].
    now elim C. }
  split; [|split].
  - intros i j ti tj Hi Hj Holdi Holdj.
    pose proof (inv_lock Inv _ Hi Holdi) as Li.
    pose proof (inv_lock Inv _ Hj Holdj) as Lj. congruence.
  - intros i t Hi Hfin.
    destruct (lock w) as [k|] eqn:Hk.
    + destruct (Own k Hk) as (tk & Htk & Hold). exists k.
      eapply Holder; eassumption.
    + exists i. destruct (holds_lock t) eqn:Hold;
        [eapply Holder; eassumption|].
      unfold Progress.can_step. rewrite Hi, Hk.
      destruct t as [disk ip port d [| | | |]|disk delta [| | | | | |]];
        cbn in Hfin, Hold |- *; try discriminate; try reflexivity.
      destruct (datetime_sub 0 delta); reflexivity.
  - intros Hall. destruct (lock w) as [k|] eqn:Hk; [|reflexivity].
    destruct (Own k Hk) as (tk & Htk & Hold).
    rewrite forallb_forall in Hall.
    specialize (Hall tk (nth_error_In _ _ Htk)).
    destruct tk as [disk ip port d [| | | |]|disk delta [| | | | | |]];
      discriminate.
Qed.

Lemma lock_excludes_and_never_blocks_witness :
  lock (Threads.run
          [(0%nat, 5); (0%nat, 5); (0%nat, 5); (0%nat, 5)]
          (mkWorld empty None
                   [storing false (s_ "10.0.0.1") 7 (b_ "a") insert_called]))
  = None.
Proof.
  apply (@lock_excludes_and_never_blocks
           [(0%nat, 5); (0%nat, 5); (0%nat, 5); (0%nat, 5)]
           (mkWorld empty None
                    [storing false (s_ "10.0.0.1") 7 (b_ "a")
                             insert_called])).
  - split; cbn; [reflexivity|reflexivity|constructor|constructor].
  - reflexivity.
Defined.

(** ** The endpoints and the direct reader *)

(** The parameters of GET /messages that pass the declared bounds are
    bound unless the address has no encoding or the offset is beyond 64
    bits. *)
Lemma rest_query_binds (n k : Z) (a : option str) (p : option Z) :
  1 <= n <= 1000 -> 0 <= k ->
  (forall port, p = Some port -> 1 <= port <= 65535) ->
  bind_parameters (MessageStorage.build_query (Some n) (Some k) a p)
  = if match a with Some t => forallb Utf8.is_scalar t | None => true end
    then if k <=? 9223372036854775807 then Ok tt else Raise OverflowError
    else Raise UnicodeEncodeError.
Proof.
  intros Hn Hk Hp.
  assert (L : bind_int n = Ok tt)
    by (unfold bind_int; rewrite int64_small by lia; reflexivity).
  assert (P : bind_int (MessageStorage.get_int p) = Ok tt).
  { destruct p as [port|]; [|reflexivity].
    specialize (Hp port eq_refl). unfold bind_int.
    cbn [MessageStorage.get_int]. rewrite int64_small by lia. reflexivity. }
  assert (Tn : MessageStorage.truthy_int (Some n) = true)
    by (cbn; apply negb_true_iff, Z.eqb_neq; lia).
  assert (O : (if MessageStorage.truthy_int (Some k)
               then bind_int k else Ok tt)
              = if k <=? 9223372036854775807 then Ok tt
                else Raise OverflowError).
  { cbn [MessageStorage.truthy_int]. destruct (k =? 0) eqn:K; cbn [negb].
    - apply Z.eqb_eq in K. subst k. reflexivity.
    - unfold bind_int, int64.
      replace (-9223372036854775808 <=? k) with true
        by (symmetry; apply Z.leb_le; lia).
      cbn [andb]. destruct (k <=? 9223372036854775807); reflexivity. }
  unfold MessageStorage.build_query. rewrite Tn.
  cbn [MessageStorage.get_int] in *.
  destruct (MessageStorage.truthy_int (Some k)).
  - destruct a as [[|c t]|];
      cbn [MessageStorage.truthy_str MessageStorage.get_str];
      destruct (MessageStorage.truthy_int p);
      cbn [app bind_parameters bind_clause bind_conditions bind_condition
           bind];
      unfold bind_text; try destruct (forallb Utf8.is_scalar (c :: t));
      cbn [bind]; rewrite ?P; cbn [bind]; rewrite ?L; cbn [bind];
      try reflexivity;
      rewrite O; destruct (k <=? 9223372036854775807); reflexivity.
  - destruct a as [[|c t]|];
      cbn [MessageStorage.truthy_str MessageStorage.get_str];
      destruct (MessageStorage.truthy_int p);
      cbn [app bind_parameters bind_clause bind_conditions bind_condition
           bind];
      unfold bind_text; try destruct (forallb Utf8.is_scalar (c :: t));
      cbn [bind]; rewrite ?P; cbn [bind]; rewrite ?L; cbn [bind];
      try reflexivity; exact O.
Qed.

(** X14.  GET /messages on a database that can be opened.  It answers 422
    exactly when a parameter is outside its declared bounds.  Within them
    it answers 500 in two cases only, which the bounds do not exclude: an
    address that has no encoding (a lone surrogate) cannot be bound, and
    neither can an offset beyond 64 bits.  Otherwise the answer is 200,
    the offset 0 included, unlike a call of [get_messages] with an offset
    and no limit: [count] is the number of messages listed, at most the
    limit (100 when none is given, never more than 1000), and the
    messages are those of [get_messages] for that limit and offset. *)
Theorem rest_get_messages_answers
        (E : engine) (limit offset : option Z) (a : option str)
        (p : option Z) (db : database) :
  let n := match limit with Some n => n | None => 100 end in
  let k := match offset with Some k => k | None => 0 end in
  let valid := 1 <= n <= 1000 /\ 0 <= k
               /\ (forall port, p = Some port -> 1 <= port <= 65535) in
  match RestApi.get_messages E true limit offset a p db with
  | RestApi.ok_200 body =>
    valid
    /\ encodable a /\ k <= 9223372036854775807
    /\ RestApi.count body = len (RestApi.listed body)
    /\ RestApi.count body <= n
    /\ MessageStorage.get_messages E true (Some n) (Some k) a p db
       = Ok (RestApi.listed body)
  | RestApi.invalid_422 => ~ valid
  | RestApi.not_found_404 => False
  | RestApi.error_500 e =>
    valid
    /\ ((e = UnicodeEncodeError /\ ~ encodable a)
        \/ (e = OverflowError /\ encodable a /\ 9223372036854775807 < k))
  end.
Proof.
  intros n k valid. unfold RestApi.get_messages. fold n k.
  unfold RestApi.in_bounds.
  destruct ((1 <=? n) && (n <=? 1000)) eqn:En; cbn [andb];
    [|subst valid; intros (V & _); to_prop; lia].
  destruct ((0 <=? k) && true) eqn:Ek; cbn [andb];
    [|subst valid; intros (_ & V & _); to_prop; lia].
  to_prop.
  destruct (match p with
            | Some p0 => (1 <=? p0) && (p0 <=? 65535)
            | None => true
            end) eqn:Ep;
    [|subst valid; intros (_ & _ & V); destruct p as [port|];
      [specialize (V port eq_refl); to_prop; lia|discriminate]].
  assert (V : valid).
  { subst valid. split; [lia|]. split; [lia|].
    intros port ->. to_prop. lia. }
  assert (Tn : MessageStorage.truthy_int (Some n) = true)
    by (cbn; apply negb_true_iff, Z.eqb_neq; lia).
  set (rows := limit_offset
                 n (if MessageStorage.truthy_int (Some k) then k else 0)
                 (E (MessageStorage.build_query (Some n) (Some k) a p)
                    (filter
                       (holds_all
                          ((if MessageStorage.truthy_str a
                            then [client_ip_eq (MessageStorage.get_str a)]
                            else [])
                           ++ (if MessageStorage.truthy_int p
                               then [client_port_eq
                                       (MessageStorage.get_int p)]
                               else [])))
                       (messages db)))).
  assert (G : MessageStorage.get_messages E true (Some n) (Some k) a p db
              = (_ <- bind_parameters
                        (MessageStorage.build_query (Some n) (Some k) a p) ;;
                 Ok (map MessageStorage.to_message rows))).
  { unfold MessageStorage.get_messages, select. cbn [connect bind].
    rewrite parse_build_query by (intros _; exact Tn). rewrite Tn.
    cbn [MessageStorage.get_int].
    destruct (bind_parameters
                (MessageStorage.build_query (Some n) (Some k) a p))
      as [[]|x]; reflexivity. }
  rewrite G.
  rewrite rest_query_binds by (destruct V as (? & ? & ?); assumption).
  destruct (match a with
            | Some t => forallb Utf8.is_scalar t
            | None => true
            end) eqn:Fa.
  - assert (Ha : encodable a) by (intros t ->; exact Fa).
    destruct (k <=? 9223372036854775807) eqn:Kk; cbn [bind]; to_prop.
    + cbn [RestApi.count RestApi.listed].
      split; [exact V|]. split; [exact Ha|]. split; [assumption|].
      split; [reflexivity|]. split; [|reflexivity].
      subst rows. unfold limit_offset, len.
      replace (n <? 0) with false by (symmetry; apply Z.ltb_ge; lia).
      rewrite length_map, length_firstn. lia.
    + split; [exact V|]. right. split; [reflexivity|].
      split; [exact Ha|lia].
  - cbn [bind]. split; [exact V|]. left. split; [reflexivity|].
    intros Ha. destruct a as [t|]; [|discriminate].
    rewrite (Ha t eq_refl) in Fa. discriminate.
Qed.

Lemma sorted_head_newest (r : row) (l : list row) :
  StronglySorted newest_first (r :: l) ->
  forall x, In x (r :: l) -> timestamp x <= timestamp r.
Proof.
  intros H x [<-|Hx]; [lia|].
  inversion H as [|? ? _ Hall]; subst. rewrite Forall_forall in Hall.
  exact (Hall _ Hx).
Qed.

(** X15.  Whatever order the engine takes for records of the same
    timestamp, [udpfetch.get_latest_message] gives nothing exactly when
    the table is empty; otherwise it gives a record of the table, and no
    record of the table has a later timestamp. *)
Theorem latest_message_is_newest (E : engine) (db : database) :
  orders_by_timestamp E ->
  exists answer : option Udpfetch.Message,
    Udpfetch.get_latest_message E true db = Ok answer
    /\ (answer = None <-> messages db = [])
    /\ (forall m, answer = Some m ->
          (exists r, In r (messages db) /\ m = Udpfetch.of_row r)
          /\ (forall r, In r (messages db) ->
                timestamp r <= Udpfetch.timestamp m)).
Proof.
  intros HE. unfold Udpfetch.get_latest_message.
  rewrite udpfetch_get_messages_ok by reflexivity.
  cbn [MessageStorage.truthy_str MessageStorage.truthy_int
       MessageStorage.get_int Z.eqb negb app bind].
  cbv zeta. unfold holds_all. cbn [forallb]. rewrite filter_true.
  unfold limit_offset. cbn [Z.ltb Z.compare Z.to_nat Pos.to_nat
                            Pos.iter_op Nat.add skipn].
  destruct (HE (MessageStorage.build_query (Some 1) None None None)
               (messages db)) as [P S].
  destruct (E (MessageStorage.build_query (Some 1) None None None)
              (messages db)) as [|r l] eqn:En.
  - exists None. cbn. split; [reflexivity|]. split; [|discriminate].
    split; [intros _|reflexivity].
    now apply Permutation_sym, Permutation_nil in P.
  - exists (Some (Udpfetch.of_row r)). cbn [firstn map].
    split; [reflexivity|]. split.
    + split; [discriminate|]. intros H. rewrite H in P.
      apply Permutation_nil in P. discriminate.
    + intros m Hm. injection Hm as <-. split.
      * exists r. split; [|reflexivity].
        eapply Permutation_in; [apply Permutation_sym, P|now left].
      * intros x Hx. cbn [Udpfetch.of_row Udpfetch.timestamp].
        apply (sorted_head_newest S).
        eapply Permutation_in; [exact P|exact Hx].
Qed.

Lemma latest_message_is_newest_witness :
  exists answer : option Udpfetch.Message,
    Udpfetch.get_latest_message by_rowid true sample_db = Ok answer
    /\ (answer = None <-> messages sample_db = []).
Proof.
  destruct (@latest_message_is_newest by_rowid sample_db by_rowid_orders)
    as (answer & H1 & H2 & _).
  exists answer. split; [exact H1|exact H2].
Defined.

(** The parameters of a statement of [build_query], in their order. *)
Lemma bind_build_query_eq (limit offset : option Z) (a : option str)
      (p : option Z) :
  bind_parameters (MessageStorage.build_query limit offset a p)
  = (_ <- (if MessageStorage.truthy_str a
           then bind_text (MessageStorage.get_str a) else Ok tt) ;;
     _ <- (if MessageStorage.truthy_int p
           then bind_int (MessageStorage.get_int p) else Ok tt) ;;
     _ <- (if MessageStorage.truthy_int limit
           then bind_int (MessageStorage.get_int limit) else Ok tt) ;;
     (if MessageStorage.truthy_int offset
      then bind_int (MessageStorage.get_int offset) else Ok tt)).
Proof.
  unfold MessageStorage.build_query.
  destruct (MessageStorage.truthy_str a), (MessageStorage.truthy_int p),
    (MessageStorage.truthy_int limit), (MessageStorage.truthy_int offset);
    cbn [app bind_parameters bind_clause bind_conditions bind_condition
         bind];
    try destruct (bind_text (MessageStorage.get_str a)) as [[]|?];
    try destruct (bind_int (MessageStorage.get_int p)) as [[]|?];
    try destruct (bind_int (MessageStorage.get_int limit)) as [[]|?];
    try destruct (bind_int (MessageStorage.get_int offset)) as [[]|?];
    reflexivity.
Qed.

Lemma bound_int_fits (x : option Z) :
  (if MessageStorage.truthy_int x
   then bind_int (MessageStorage.get_int x) else Ok tt) = Ok tt ->
  fits x.
Proof.
  destruct x as [n|]; [|intros _ m Hm; discriminate].
  cbn [MessageStorage.truthy_int MessageStorage.get_int].
  destruct (n =? 0) eqn:N; cbn [negb].
  - intros _ m Hm. injection Hm as <-. apply Z.eqb_eq in N. now subst n.
  - unfold bind_int. destruct (int64 n) eqn:F; [|discriminate].
    intros _ m Hm. now injection Hm as <-.
Qed.

Lemma bound_text_encodable (x : option str) :
  (if MessageStorage.truthy_str x
   then bind_text (MessageStorage.get_str x) else Ok tt) = Ok tt ->
  encodable x.
Proof.
  destruct x as [[|c t]|]; try (intros _ m Hm; discriminate).
  - intros _ m Hm. now injection Hm as <-.
  - cbn [MessageStorage.truthy_str MessageStorage.get_str].
    unfold bind_text. destruct (forallb Utf8.is_scalar (c :: t)) eqn:F;
      [|discriminate].
    intros _ m Hm. now injection Hm as <-.
Qed.

(** The arguments of a statement that was bound fit. *)
Lemma bind_build_query_inv (limit offset : option Z) (a : option str)
      (p : option Z) :
  bind_parameters (MessageStorage.build_query limit offset a p) = Ok tt ->
  fits limit /\ fits offset /\ encodable a /\ fits p.
Proof.
  rewrite bind_build_query_eq. intros H.
  pose proof (@bound_text_encodable a) as A.
  pose proof (@bound_int_fits p) as P.
  pose proof (@bound_int_fits limit) as L.
  pose proof (@bound_int_fits offset) as O.
  destruct (if MessageStorage.truthy_str a
            then bind_text (MessageStorage.get_str a) else Ok tt)
    as [[]|?]; [|discriminate].
  destruct (if MessageStorage.truthy_int p
            then bind_int (MessageStorage.get_int p) else Ok tt)
    as [[]|?]; [|discriminate].
  destruct (if MessageStorage.truthy_int limit
            then bind_int (MessageStorage.get_int limit) else Ok tt)
    as [[]|?]; [|discriminate].
  cbn [bind] in H. auto.
Qed.

(** X16.  The direct reader and the store run the same statement: for the
    same limit and filters, whatever the engine does with ties,
    [udpfetch.get_messages] and [get_messages] without offset both return
    or both raise the same error.  When they return they list the same
    rows, entry by entry the same id, timestamp, address, port and size;
    the reader gives the payload itself besides, and the same text
    whenever the record has one that is not empty.  They return when the
    database can be opened and the arguments can be bound: a limit and a
    port of 64 bits, an address that has an encoding. *)
Theorem udpfetch_lists_what_the_store_lists
        (E : engine) (disk : bool) (limit : option Z) (a : option str)
        (p : option Z) (db : database) :
  match Udpfetch.get_messages E disk limit a p db,
        MessageStorage.get_messages E disk limit None a p db with
  | Ok us, Ok ms =>
    exists rows : list row,
      us = map Udpfetch.of_row rows
      /\ ms = map MessageStorage.to_message rows
      /\ Forall (fun r =>
                   let u := Udpfetch.of_row r in
                   let m := MessageStorage.to_message r in
                   Udpfetch.id u = MessageStorage.m_id m
                   /\ Udpfetch.timestamp u = MessageStorage.m_timestamp m
                   /\ Udpfetch.ip u = MessageStorage.m_client_ip m
                   /\ Udpfetch.port u = MessageStorage.m_client_port m
                   /\ Udpfetch.data_size u = MessageStorage.m_data_size m
                   /\ Udpfetch.data u = data r
                   /\ (forall c s, data_text r = Some (c :: s) ->
                                   Udpfetch.message u = c :: s
                                   /\ MessageStorage.m_data m = c :: s))
                rows
  | Raise e1, Raise e2 => e1 = e2
  | _, _ => False
  end
  /\ (disk = true /\ fits limit /\ encodable a /\ fits p <->
      exists us, Udpfetch.get_messages E disk limit a p db = Ok us).
Proof.
  rewrite udpfetch_get_messages_eq. unfold MessageStorage.get_messages.
  split.
  - destruct (connect disk) as [[]|x]; cbn [bind]; [|reflexivity].
    destruct (select E (MessageStorage.build_query limit None a p) db)
      as [rows|x]; cbn [bind]; [|reflexivity].
    exists rows. split; [reflexivity|]. split; [reflexivity|].
    apply Forall_forall. intros r _. cbv zeta.
    do 6 (split; [reflexivity|]).
    intros c s H. unfold Udpfetch.of_row, MessageStorage.to_message,
                  RestApi.message_text.
    cbn [Udpfetch.message MessageStorage.m_data]. rewrite H.
    split; reflexivity.
  - split.
    + intros (-> & Hl & Ha & Hp). cbn [connect bind]. unfold select.
      rewrite parse_build_query by discriminate.
      rewrite bind_build_query by (try assumption; discriminate).
      cbn [bind]. eexists. reflexivity.
    + intros [us H]. destruct disk; [|discriminate].
      split; [reflexivity|]. cbn [connect bind] in H. unfold select in H.
      rewrite parse_build_query in H by discriminate.
      destruct (bind_parameters (MessageStorage.build_query limit None a p))
        as [[]|x] eqn:B; [|discriminate].
      destruct (bind_build_query_inv _ _ _ _ B) as (Hl & _ & Ha & Hp).
      auto.
Qed.

(** ** The cleanup worker at the edges of the day and of the calendar *)

(** X17.  The sleep of a pass of the cleanup worker is never longer than
    a day and never empty: a pass that begins exactly at midnight sleeps
    the whole day up to the next midnight, so that the purge is not run
    twice for one midnight, and the branch for a midnight still to come
    today is never taken.  On the last day of the calendar the next
    midnight cannot be computed: the pass then purges nothing, prints the
    error and sleeps the retry delay. *)
Theorem cleanup_pass_sleep_bounds
        (now : datetime) (running_after : bool) (disk : bool)
        (utcnow : datetime) (retention : timedelta) (db : database) :
  0 <= now <= datetime_max ->
  (UDPMonitor.at_midnight now <=? now) = true
  /\ (now + one_day <= datetime_max ->
      exists (d : timedelta) (rest : list UDPMonitor.action),
        UDPMonitor.actions
          (UDPMonitor.cleanup_pass now running_after disk utcnow retention db)
        = UDPMonitor.sleep d :: rest
        /\ 0 < d <= one_day
        /\ (now + d) mod one_day = 0
        /\ (now mod one_day = 0 -> d = one_day))
  /\ (datetime_max < now + one_day ->
      UDPMonitor.cleanup_pass now running_after disk utcnow retention db
      = UDPMonitor.mkOutcome
          [UDPMonitor.print (UDPMonitor.cleanup_error OverflowError);
           UDPMonitor.sleep UDPMonitor.retry_delay] db true).
Proof.
  intros [H0 Hmax].
  assert (D : 0 < one_day) by (unfold one_day; lia).
  pose proof (Z.mod_pos_bound now one_day D) as M.
  assert (T : (UDPMonitor.at_midnight now <=? now) = true)
    by (apply Z.leb_le; unfold UDPMonitor.at_midnight; lia).
  split; [exact T|]. split.
  - intros H1. exists (one_day - now mod one_day).
    pose proof (@next_midnight_ok now H0 H1) as Hn.
    unfold UDPMonitor.cleanup_pass. rewrite Hn.
    replace (now + one_day - now mod one_day - now)
      with (one_day - now mod one_day) by lia.
    replace (0 <? one_day - now mod one_day) with true
      by (symmetry; apply Z.ltb_lt; lia).
    cbv zeta.
    assert (R : exists rest,
               UDPMonitor.actions
                 (if negb running_after
                  then UDPMonitor.mkOutcome
                         [UDPMonitor.sleep (one_day - now mod one_day)]
                         db false
                  else
                    match MessageStorage.delete_old_messages
                            disk utcnow retention db with
                    | Ok (deleted_count, db') =>
                      UDPMonitor.mkOutcome
                        ([UDPMonitor.sleep (one_day - now mod one_day)]
                         ++ [UDPMonitor.print
                               (if 0 <? deleted_count
                                then UDPMonitor.deleted deleted_count
                                else UDPMonitor.nothing_to_delete)])
                        db' true
                    | Raise e =>
                      UDPMonitor.on_error
                        e [UDPMonitor.sleep (one_day - now mod one_day)] db
                    end)
               = UDPMonitor.sleep (one_day - now mod one_day) :: rest).
    { destruct (negb _); [eexists; reflexivity|].
      destruct (MessageStorage.delete_old_messages disk utcnow retention db)
        as [[count db']|x]; eexists; reflexivity. }
    destruct R as [rest R]. exists rest. split; [exact R|].
    split; [lia|]. split; [|intros E; rewrite E; lia].
    replace (now + (one_day - now mod one_day))
      with (now - now mod one_day + 1 * one_day) by lia.
    rewrite Z.mod_add by lia.
    unfold one_day in *. Z.div_mod_to_equations. lia.
  - intros H1. unfold UDPMonitor.cleanup_pass, UDPMonitor.next_midnight.
    rewrite T. unfold datetime_add.
    replace ((0 <=? now + one_day) && (now + one_day <=? datetime_max))
      with false; [reflexivity|].
    symmetry. apply andb_false_iff. right. apply Z.leb_gt. lia.
Qed.

Lemma cleanup_pass_sleep_bounds_witness :
  exists (d : timedelta) (rest : list UDPMonitor.action),
    UDPMonitor.actions
      (UDPMonitor.cleanup_pass 86400000000 true true 172800000000 one_day
                               empty)
    = UDPMonitor.sleep d :: rest
    /\ d = one_day.
Proof.
  destruct (@cleanup_pass_sleep_bounds
              86400000000 true true 172800000000 one_day empty)
    as (_ & H & _).
  - unfold datetime_max. lia.
  - destruct H as (d & rest & Ha & _ & _ & Hd).
    + unfold one_day, datetime_max. lia.
    + exists d, rest. split; [exact Ha|]. apply Hd. reflexivity.
Defined.

(** ** What every sequence of calls keeps *)

Lemma sorted_ids_filter (p : row -> bool) (l : list row) :
  StronglySorted Z.lt (map id l) ->
  StronglySorted Z.lt (map id (filter p l)).
Proof.
  induction l as [|x l IH]; intros H; [constructor|].
  cbn [map] in H. inversion H as [|? ? Hs Hx]; subst. cbn [filter].
  destruct (p x); [|now apply IH]. cbn [map].
  constructor; [now apply IH|].
  rewrite Forall_forall in *. intros i Hi. apply Hx.
  apply in_map_iff in Hi. destruct Hi as (y & <- & Hy).
  apply filter_In in Hy. apply in_map. tauto.
Qed.

Lemma sorted_ids_last (l : list row) (r : row) :
  StronglySorted Z.lt (map id l) -> max_rowid l < id r ->
  StronglySorted Z.lt (map id (l ++ [r])).
Proof.
  induction l as [|x l IH]; intros H Hr; [repeat constructor|].
  cbn [map app] in *. inversion H as [|? ? Hs Hx]; subst.
  cbn [max_rowid] in Hr.
  constructor; [apply IH; [assumption|lia]|].
  rewrite map_app. apply Forall_app. split; [exact Hx|].
  cbn [map]. constructor; [lia|constructor].
Qed.

Lemma perform_keeps_table (c : Calls.call) (db : database) :
  sequence_covers db ->
  StronglySorted Z.lt (map id (messages db)) ->
  Forall Stored.as_stored (messages db) ->
  StronglySorted Z.lt (map id (messages (fst (Calls.perform c db))))
  /\ Forall Stored.as_stored (messages (fst (Calls.perform c db))).
Proof.
  intros Hc Hs Ha.
  destruct c as [disk now ip port d| | |disk|disk now delta];
    cbn [Calls.perform].
  - destruct (MessageStorage.store_message disk now ip port d db)
      as [[mid db']|e] eqn:E; cbn [fst]; [|now split].
    apply store_message_ok in E. destruct E as (_ & Hm & _ & ->).
    cbn [messages]. split.
    + apply sorted_ids_last; [exact Hs|]. cbn [id]. lia.
    + apply Forall_app. split; [exact Ha|].
      constructor; [|constructor]. split; reflexivity.
  - now split.
  - now split.
  - destruct disk; cbn [MessageStorage.clear_messages connect bind fst];
      [|now split].
    cbn. split; constructor.
  - unfold MessageStorage.delete_old_messages, bind.
    destruct (datetime_sub now delta) as [cutoff|e]; [|now split].
    destruct disk; cbn [connect fst]; [|now split].
    cbn [delete_older messages]. split.
    + now apply sorted_ids_filter.
    + rewrite Forall_forall in *. intros r Hr. apply filter_In in Hr.
      apply Ha. tauto.
Qed.

(** X18.  What the table is after any sequence of calls on the store
    (inserts, queries, counts, purges, clears, failing or not), from a
    table that had these properties, the empty one for instance: the ids
    grow strictly in the order of insertion, so that no two records share
    an id; no id is above the recorded sequence value; and every record
    has the size of its payload as [data_size] and the decoding of its
    payload, if it has one, as [data_text]. *)
Theorem table_invariants_kept (cs : list Calls.call) (db : database) :
  sequence_covers db ->
  StronglySorted Z.lt (map id (messages db)) ->
  Forall Stored.as_stored (messages db) ->
  let db' := fst (Calls.perform_all cs db) in
  sequence_covers db'
  /\ StronglySorted Z.lt (map id (messages db'))
  /\ NoDup (map id (messages db'))
  /\ Forall Stored.as_stored (messages db').
Proof.
  revert db. induction cs as [|c cs IH]; intros db Hc Hs Ha db'; subst db'.
  - cbn [Calls.perform_all fst]. split; [exact Hc|]. split; [exact Hs|].
    split; [now apply StronglySorted_lt_NoDup|exact Ha].
  - cbn [Calls.perform_all].
    destruct (perform_sequence c Hc) as (Hc1 & _ & _).
    destruct (perform_keeps_table c Hc Hs Ha) as (Hs1 & Ha1).
    destruct (Calls.perform c db) as [db1 assigned]. cbn [fst] in *.
    specialize (IH db1 Hc1 Hs1 Ha1). cbv zeta in IH.
    destruct (Calls.perform_all cs db1) as [db2 ids]. exact IH.
Qed.

Lemma table_invariants_kept_witness :
  NoDup (map id (messages
                   (fst (Calls.perform_all
                           [Calls.store_message true 10 (s_ "10.0.0.1") 4000
                                                (b_ "a");
                            Calls.delete_old_messages true 20 0;
                            Calls.store_message true 21 (s_ "10.0.0.1") 4000
                                                [x00; xff]]
                           empty)))).
Proof.
  apply (@table_invariants_kept
           [Calls.store_message true 10 (s_ "10.0.0.1") 4000 (b_ "a");
            Calls.delete_old_messages true 20 0;
            Calls.store_message true 21 (s_ "10.0.0.1") 4000 [x00; xff]]
           empty).
  - unfold sequence_covers. cbn. lia.
  - constructor.
  - constructor.
Defined.

(** ** The preview printed for a datagram *)

Lemma encode_vals_length (s : str) : len s <= len (Utf8.encode_vals s).
Proof.
  unfold Utf8.encode_vals, len. induction s as [|c s IH]; [cbn; lia|].
  cbn [flat_map]. rewrite length_app. cbn [List.length].
  assert (1 <= List.length (Utf8.encode_point c))%nat; [|lia].
  unfold Utf8.encode_point.
  destruct (c <? 128); [cbn; lia|].
  destruct (c <? 2048); [cbn; lia|].
  destruct (c <? 65536); cbn [List.length]; lia.
Qed.

(** A text has at most as many characters as its encoding has bytes. *)
Lemma decode_length (d : bytes) (s : str) :
  Utf8.decode d = Some s -> len s <= len d.
Proof.
  intros H. apply decode_iff_encode in H. unfold Utf8.encode in H.
  destruct (forallb Utf8.is_scalar s); [|discriminate].
  injection H as <-. pose proof (encode_vals_length s) as L.
  unfold len in *. rewrite length_map. exact L.
Qed.

(** X19.  The preview printed for a datagram that is UTF-8 text is the
    text itself when the payload has at most 50 bytes, and otherwise its
    first 50 characters followed by ["..."]: the cut counts characters,
    the test for the dots counts bytes, so that a text of at most 50
    characters in more than 50 bytes is printed whole and still followed
    by the dots.  The preview is never longer than 53 characters. *)
Theorem preview_of_text (payload : bytes) (text : str) :
  Utf8.decode payload = Some text ->
  exists p : str,
    UDPListener.data_preview payload = UDPListener.preview_text p
    /\ len p <= 53
    /\ (len payload <= 50 -> p = text)
    /\ (50 < len payload -> p = firstn 50 text ++ s_ "...")
    /\ (50 < len payload -> len text <= 50 -> p = text ++ s_ "...").
Proof.
  intros H. pose proof (decode_length _ H) as L.
  unfold UDPListener.data_preview. rewrite H. cbv zeta.
  assert (F : len (slice_to 50 text) <= 50).
  { unfold len, slice_to.
    pose proof (firstn_le_length (Z.to_nat 50) text). lia. }
  destruct (50 <? len payload) eqn:E; to_prop.
  - exists (slice_to 50 text ++ s_ "..."). split; [reflexivity|].
    split; [rewrite len_app; change (len (s_ "...")) with 3; lia|].
    split; [lia|]. split; [reflexivity|].
    intros _ Ht. now rewrite slice_to_all.
  - exists (slice_to 50 text). split; [reflexivity|].
    split; [lia|]. split; [|split; lia].
    intros _. apply slice_to_all. lia.
Qed.

Lemma preview_of_text_witness :
  exists p : str,
    UDPListener.data_preview (b_ "hello") = UDPListener.preview_text p
    /\ p = s_ "hello".
Proof.
  destruct (@preview_of_text (b_ "hello") (s_ "hello") eq_refl)
    as (p & Hp & _ & Hall & _).
  exists p. split; [exact Hp|]. apply Hall. vm_compute. discriminate.
Defined.
